(** * mini-duolingo: the SM-2 review scheduler, the word-progress store and
    the session composer

    A shallow embedding of [src/review_strategy.py] and
    [src/question_generator.py].

    - Python [int] is [Z]; Python [float] is the primitive binary64 [float]
      of the kernel, with its IEEE operations, so that [0.1], [0.08] and
      [1.3] below are the doubles Python computes with.
    - An exception is a value of [exn]; a call that may raise returns a
      [result].  [try ... except] is [catch].
    - [datetime.now()] is an explicit clock reading, passed to the function
      that reads the clock.
    - The word-progress file is the list of its rows, in file order, as
      [csv.DictReader] gives them. *)

From Stdlib Require Import ZArith Floats Lia Bool.
From stdpp Require Import gmap strings list.

Local Open Scope Z_scope.

(** ** Exceptions *)

Inductive exn : Type :=
  | ValueError
  | TypeError
  | OverflowError
  | ZeroDivisionError
  | KeyError
  | OSError          (* the store cannot be opened or read *)
  | ServiceError.   (* anything the external question source raises *)

Inductive result (A : Type) : Type :=
  | Ok (a : A)
  | Raise (e : exn).
Arguments Ok {A} a.
Arguments Raise {A} e.

Definition rbind {A B : Type} (m : result A) (k : A -> result B) : result B :=
  match m with
  | Ok a => k a
  | Raise e => Raise e
  end.

Notation "x <- m ;; k" := (rbind m (fun x => k))
  (at level 100, m at next level, right associativity).

(** [try: m except Exception: h]. *)
Definition catch {A : Type} (m : result A) (h : exn -> A) : A :=
  match m with
  | Ok a => a
  | Raise e => h e
  end.

Definition is_ok {A : Type} (m : result A) : bool :=
  match m with Ok _ => true | Raise _ => false end.

(** ** Python numbers *)

Module Py.

(** [float(n)] for an [int] n, also the coercion of [n * x] and [x / n]:
    the nearest double, ties to even; [OverflowError] when that is
    out of range. *)
Definition float_of_int (n : Z) : result float :=
  match binary_normalize prec emax n 0 false with
  | S754_infinity _ => Raise OverflowError
  | sf => Ok (SF2Prim sf)
  end.

(** The integer part of a finite double [(-1)^s * m * 2^e], towards zero. *)
Definition trunc_finite (s : bool) (m : positive) (e : Z) : Z :=
  let a := match e with
           | Zneg p => Z.pos m / 2 ^ Z.pos p
           | _ => Z.pos m * 2 ^ e
           end in
  if s then - a else a.

(** [int(x)] for a [float] x. *)
Definition int_of_float (x : float) : result Z :=
  match Prim2SF x with
  | S754_nan => Raise ValueError
  | S754_infinity _ => Raise OverflowError
  | S754_zero _ => Ok 0
  | S754_finite s m e => Ok (trunc_finite s m e)
  end.

(** [math.floor(x)], the value the specification names. *)
Definition floor_finite (s : bool) (m : positive) (e : Z) : Z :=
  match e with
  | Zneg p => (if s then Z.neg m else Z.pos m) / 2 ^ Z.pos p
  | _ => (if s then Z.neg m else Z.pos m) * 2 ^ e
  end.

Definition floor_of_float (x : float) : result Z :=
  match Prim2SF x with
  | S754_nan => Raise ValueError
  | S754_infinity _ => Raise OverflowError
  | S754_zero _ => Ok 0
  | S754_finite s m e => Ok (floor_finite s m e)
  end.

(** [max(a, b)] on floats: [a] unless [b > a]. *)
Definition max (a b : float) : float :=
  if PrimFloat.ltb a b then b else a.

(** [a / b] for two [int]s: the correctly rounded quotient. *)
Definition sf_of_int (n : Z) : spec_float :=
  match n with
  | Z0 => S754_zero false
  | Zpos p => S754_finite false p 0
  | Zneg p => S754_finite true p 0
  end.

Definition int_truediv (a b : Z) : result float :=
  match b with
  | Z0 => Raise ZeroDivisionError
  | _ =>
    match a with
    | Z0 => Ok (if b <? 0 then neg_zero else zero)
    | _ =>
      match SFdiv prec emax (sf_of_int a) (sf_of_int b) with
      | S754_infinity _ => Raise OverflowError
      | sf => Ok (SF2Prim sf)
      end
    end
  end.

(** A number argument: an [int] or a [float]. *)
Inductive number : Type :=
  | Int (n : Z)
  | Float (x : float).

(** [t < k] for a number [t] and an [int] literal [k], here 3 and 10,
    which are doubles. *)
Definition lt_int (t : number) (k : Z) : bool :=
  match t with
  | Int n => n <? k
  | Float x => catch (y <- float_of_int k ;; Ok (PrimFloat.ltb x y)) (fun _ => false)
  end.

End Py.

(** ** Time *)

(** A naive [datetime]: microseconds since 0001-01-01T00:00:00. *)
Definition datetime : Type := Z.

Definition MICROSECONDS_PER_DAY : Z := 86400000000.

(** [datetime.max] is the last microsecond of day 3652059. *)
Definition DATETIME_END : Z := 3652059 * MICROSECONDS_PER_DAY.

(** [t + timedelta(days=n)]: [timedelta] refuses more than 999999999 days
    and the sum must stay within [datetime.min .. datetime.max]. *)
Definition add_days (t : datetime) (n : Z) : result datetime :=
  if (n <? -999999999) || (999999999 <? n) then Raise OverflowError
  else
    let r := t + n * MICROSECONDS_PER_DAY in
    if (0 <=? r) && (r <? DATETIME_END) then Ok r else Raise OverflowError.

(** ** The SM-2 scheduler ([class SM2Algorithm]) *)

Module SM2Algorithm.

Definition MIN_EF : float := 1.3%float.

(** [calculate_next_review(quality, easiness_factor, interval, repetitions)];
    [now] is the value of the [datetime.now()] it reads. *)
Definition calculate_next_review (now : datetime) (quality : Z)
    (easiness_factor : float) (interval repetitions : Z)
  : result (float * Z * Z * datetime) :=
  d <- Py.float_of_int (5 - quality) ;;
  let new_easiness_factor :=
    (easiness_factor + (0.1 - d * (0.08 + d * 0.02)))%float in
  let new_easiness_factor := Py.max new_easiness_factor MIN_EF in
  schedule <-
    (if quality <? 3 then Ok (0, 1)
     else
       let new_repetitions := repetitions + 1 in
       if new_repetitions =? 1 then Ok (new_repetitions, 1)
       else if new_repetitions =? 2 then Ok (new_repetitions, 6)
       else
         i <- Py.float_of_int interval ;;
         n <- Py.int_of_float (i * new_easiness_factor)%float ;;
         Ok (new_repetitions, n)) ;;
  let '(new_repetitions, new_interval) := schedule in
  next_review_date <- add_days now new_interval ;;
  Ok (new_easiness_factor, new_interval, new_repetitions, next_review_date).

(** [quality_from_performance(is_correct, time_spent=None)]. *)
Definition quality_from_performance (is_correct : bool)
    (time_spent : option Py.number) : Z :=
  if negb is_correct then 2
  else
    match time_spent with
    | None => 4
    | Some t =>
      if Py.lt_int t 3 then 5
      else if Py.lt_int t 10 then 4
      else 3
    end.

End SM2Algorithm.

(** ** The word-progress store ([class ReviewStrategy]) *)

(** *** Text in the file

    The file is written with [newline=''] and read without it, in
    universal-newlines mode: a carriage return, alone or before a line
    feed, is read back as a line feed.  Text that was read holds no
    carriage return and is read back as it is. *)
Definition CR : Ascii.ascii := Ascii.ascii_of_nat 13.
Definition LF : Ascii.ascii := Ascii.ascii_of_nat 10.

Fixpoint universal_newlines (s : string) : string :=
  match s with
  | EmptyString => EmptyString
  | String c rest =>
    if Ascii.eqb c CR then
      String LF
        match rest with
        | String c' rest' =>
          if Ascii.eqb c' LF then universal_newlines rest'
          else universal_newlines rest
        | EmptyString => EmptyString
        end
    else String c (universal_newlines rest)
  end.

(** *** Cells *)

(** A numeric cell of [word_progress.csv] as the reader of its column
    sees it: [Some v] when the text parses to [v], [None] when the reader
    ([int], [float]) raises [ValueError] on it.  Writing a value and
    reading it back gives the value ([str]/[int], [repr]/[float]); the
    rows have the cells of these columns. *)
Definition cell (A : Type) : Type := option A.

Definition read {A : Type} (c : cell A) : result A :=
  match c with
  | Some v => Ok v
  | None => Raise ValueError
  end.

(** The [next_review] cell as the due-word scan sees it:
    - [Naive t]: the text of a naive timestamp, as [isoformat] writes it;
    - [Garbled]: text that [datetime.fromisoformat] rejects with
      [ValueError], or a file without the column ([KeyError]);
    - [Aware]: a timestamp with a UTC offset; [fromisoformat] reads it and
      its comparison with the naive [now] raises [TypeError];
    - [Missing]: [None], the cell of a row too short to have it, on which
      [fromisoformat] raises [TypeError]. *)
Inductive review_cell : Type :=
  | Naive (t : datetime)
  | Garbled
  | Aware
  | Missing.

(** One row of a file with the nine columns of the header, as the reader
    gives it.  A row has its word and its language and no cell past the
    ninth, and its text is text that UTF-8 encodes. *)
Record Row : Type := {
  word : string;
  language : string;
  total_attempts : cell Z;
  correct_attempts : cell Z;
  last_review : cell datetime;
  next_review : review_cell;
  ease_factor : cell float;
  interval : cell Z;
  mastery_level : cell float
}.

(** *** Writing a row

    [str(n)] raises [ValueError] for an [int] of more than 4300 digits
    ([sys.int_info.default_max_str_digits]), and [int] refuses text of
    that many digits: a cell that reads as such a number is a number that
    [update_word_progress] computed, and the writer cannot print it. *)
Definition MAX_STR_DIGITS : Z := 4300.

Definition str_raises (c : cell Z) : bool :=
  match c with
  | Some n => 10 ^ MAX_STR_DIGITS <=? Z.abs n
  | None => false
  end.

Definition unprintable (word_data : Row) : bool :=
  str_raises (total_attempts word_data) ||
  str_raises (correct_attempts word_data) ||
  str_raises (interval word_data).

(** The writer puts the empty text for the [None] of a missing cell, and
    [fromisoformat] rejects the empty text with [ValueError]. *)
Definition written_cell (c : review_cell) : review_cell :=
  match c with
  | Missing => Garbled
  | c => c
  end.

(** A row of the file as it is read after the file was written again.
    Its text went through the reader before, so it holds no carriage
    return and is read as it was. *)
Definition rewritten (row : Row) : Row :=
  {| word := word row;
     language := language row;
     total_attempts := total_attempts row;
     correct_attempts := correct_attempts row;
     last_review := last_review row;
     next_review := written_cell (next_review row);
     ease_factor := ease_factor row;
     interval := interval row;
     mastery_level := mastery_level row |}.

(** A row with the text of the caller as it is read back after it was
    written: the file is written with [newline=''] and read without. *)
Definition reread (row : Row) : Row :=
  {| word := universal_newlines (word row);
     language := universal_newlines (language row);
     total_attempts := total_attempts row;
     correct_attempts := correct_attempts row;
     last_review := last_review row;
     next_review := written_cell (next_review row);
     ease_factor := ease_factor row;
     interval := interval row;
     mastery_level := mastery_level row |}.

Record MasteryStats : Type := {
  total_words : Z;
  mastered_words : Z;
  learning_words : Z;
  average_mastery : float
}.

Module ReviewStrategy.

(** The loop of [get_words_due_for_review]; [words_due] is the list built
    so far.  [continue] goes to the next row without the length test,
    [break] returns.  [except (ValueError, KeyError)] catches what a
    garbled cell raises; a [TypeError] leaves the loop and the call. *)
Fixpoint due_loop (lang : string) (now : datetime) (limit : Z)
    (rows : list Row) (words_due : list Row) : result (list Row) :=
  match rows with
  | [] => Ok words_due
  | row :: rest =>
    if negb (String.eqb (language row) lang) then
      due_loop lang now limit rest words_due
    else
      match next_review row with
      | Garbled => due_loop lang now limit rest words_due
      | Missing => Raise TypeError
      | Aware => Raise TypeError
      | Naive t =>
        let words_due := if t <=? now then words_due ++ [row] else words_due in
        if Z.of_nat (length words_due) >=? limit then Ok words_due
        else due_loop lang now limit rest words_due
      end
  end.

(** [get_words_due_for_review(language, limit=5)]; [now] is its clock
    reading. *)
Definition get_words_due_for_review (rows : list Row) (now : datetime)
    (lang : string) (limit : Z) : result (list Row) :=
  due_loop lang now limit rows [].

Definition same_key (w lang : string) (row : Row) : bool :=
  String.eqb (word row) w && String.eqb (language row) lang.

(** [_get_word_data(word, language)]: the first row with that key. *)
Fixpoint _get_word_data (rows : list Row) (w lang : string) : option Row :=
  match rows with
  | [] => None
  | row :: rest =>
    if same_key w lang row then Some row else _get_word_data rest w lang
  end.

(** [_save_word_data(word_data)].  The rows of the file are read, the
    first row with the key of [word_data] is replaced by it or, without
    one, [word_data] is appended, and the file is opened for writing and
    the rows are written one after the other.  The result is the file
    after the call, as the next read gives it, and the exception that
    left the call, if any.
    - The rows that were read are text: they are written and read back
      as they are, but for the [next_review] that a short row misses,
      which is written as the empty text.
    - [word_data] holds the numbers that [update_word_progress] computed;
      when one of them cannot be printed the writer raises [ValueError],
      and the file is left with the rows written before it.
    - The key of a [word_data] that replaces a row is the key of that
      row, text that was read; the key of an appended [word_data] is the
      text of the caller, read back in universal-newlines mode. *)
Fixpoint _save_word_data (rows : list Row) (word_data : Row)
  : list Row * option exn :=
  match rows with
  | [] =>
    if unprintable word_data then ([], Some ValueError)
    else ([reread word_data], None)
  | row :: rest =>
    if same_key (word word_data) (language word_data) row
    then
      if unprintable word_data then ([], Some ValueError)
      else (rewritten word_data :: map rewritten rest, None)
    else
      let '(written, e) := _save_word_data rest word_data in
      (rewritten row :: written, e)
  end.

(** The dict that [update_word_progress] makes and saves (lines 175 to
    220).  [t_sched] is the clock reading inside [calculate_next_review],
    [t_stamp] the later one that stamps [last_review]. *)
Definition new_word_data (rows : list Row) (t_sched t_stamp : datetime)
    (w lang : string) (is_correct : bool) (time_spent : option Py.number)
  : result Row :=
  match _get_word_data rows w lang with
  | None =>
    let quality := SM2Algorithm.quality_from_performance is_correct time_spent in
    scheduled <-
      SM2Algorithm.calculate_next_review t_sched quality 2.5%float 0 0 ;;
    let '(ef, interval, repetitions, next_review) := scheduled in
    Ok {| word := w;
          language := lang;
          total_attempts := Some 1;
          correct_attempts := Some (if is_correct then 1 else 0);
          last_review := Some t_stamp;
          next_review := Naive next_review;
          ease_factor := Some ef;
          interval := Some interval;
          mastery_level := Some (if is_correct then 1.0 else 0.0)%float |}
  | Some word_data =>
    n <- read (total_attempts word_data) ;;
    let total_attempts := n + 1 in
    c <- read (correct_attempts word_data) ;;
    let correct_attempts := c + (if is_correct then 1 else 0) in
    mastery_level <- Py.int_truediv correct_attempts total_attempts ;;
    let quality := SM2Algorithm.quality_from_performance is_correct time_spent in
    old_ef <- read (ease_factor word_data) ;;
    old_interval <- read (interval word_data) ;;
    scheduled <-
      SM2Algorithm.calculate_next_review t_sched quality old_ef old_interval 0 ;;
    let '(ef, interval, repetitions, next_review) := scheduled in
    Ok {| word := word word_data;
          language := language word_data;
          total_attempts := Some total_attempts;
          correct_attempts := Some correct_attempts;
          last_review := Some t_stamp;
          next_review := Naive next_review;
          ease_factor := Some ef;
          interval := Some interval;
          mastery_level := Some mastery_level |}
  end.

(** [update_word_progress(word, language, is_correct, time_spent=None)]:
    the file after a call that returns, or the exception that leaves
    it. *)
Definition update_word_progress (rows : list Row) (t_sched t_stamp : datetime)
    (w lang : string) (is_correct : bool) (time_spent : option Py.number)
  : result (list Row) :=
  word_data <- new_word_data rows t_sched t_stamp w lang is_correct time_spent ;;
  match _save_word_data rows word_data with
  | (rows', None) => Ok rows'
  | (_, Some e) => Raise e
  end.

(** The file after a call of [update_word_progress], whether it returned
    or raised: an exception before the save leaves the file as it was,
    one inside the save leaves what was written. *)
Definition file_after_update (rows : list Row) (t_sched t_stamp : datetime)
    (w lang : string) (is_correct : bool) (time_spent : option Py.number)
  : list Row :=
  match new_word_data rows t_sched t_stamp w lang is_correct time_spent with
  | Ok word_data => fst (_save_word_data rows word_data)
  | Raise _ => rows
  end.

Section Stats.

(** The built-in [round(x, 1)]. *)
Variable round1 : float -> float.

(** The loop of [get_mastery_stats]: the four running totals. *)
Fixpoint stats_loop (lang : option string) (rows : list Row)
    (acc : Z * Z * Z * float) : result (Z * Z * Z * float) :=
  match rows with
  | [] => Ok acc
  | row :: rest =>
    let '(total_words, mastered_words, learning_words, total_mastery) := acc in
    if match lang with
       | Some l => negb (String.eqb l "") && negb (String.eqb (language row) l)
       | None => false
       end
    then stats_loop lang rest acc
    else
      let total_words := total_words + 1 in
      mastery <- read (mastery_level row) ;;
      let total_mastery := (total_mastery + mastery)%float in
      if PrimFloat.leb 0.8 mastery
      then stats_loop lang rest (total_words, mastered_words + 1, learning_words, total_mastery)
      else stats_loop lang rest (total_words, mastered_words, learning_words + 1, total_mastery)
  end.

(** [get_mastery_stats(language=None)]. *)
Definition get_mastery_stats (rows : list Row) (lang : option string)
  : result MasteryStats :=
  totals <- stats_loop lang rows (0, 0, 0, 0%float) ;;
  let '(total_words, mastered_words, learning_words, total_mastery) := totals in
  average_mastery <-
    (if total_words >? 0
     then n <- Py.float_of_int total_words ;; Ok (total_mastery / n)%float
     else Ok 0%float) ;;
  Ok {| total_words := total_words;
        mastered_words := mastered_words;
        learning_words := learning_words;
        average_mastery := round1 (average_mastery * 100)%float |}.

End Stats.

End ReviewStrategy.

(** ** Question objects *)

(** The values [json.loads] produces and the code handles as questions.
    A JSON object keeps its members in order, keys being unique; JSON
    numbers are taken to be integers. *)
#[warnings="-register-all"]
Inductive pyval : Type :=
  | PNone
  | PBool (b : bool)
  | PInt (n : Z)
  | PStr (s : string)
  | PList (l : list pyval)
  | PDict (kvs : list (string * pyval)).

Fixpoint assoc {A : Type} (k : string) (kvs : list (string * A)) : option A :=
  match kvs with
  | [] => None
  | (k', v) :: rest => if String.eqb k' k then Some v else assoc k rest
  end.

(** [x == y]: [True == 1], lists by position, dicts by key. *)
Fixpoint py_eq (x y : pyval) {struct x} : bool :=
  match x, y with
  | PNone, PNone => true
  | PBool a, PBool b => Bool.eqb a b
  | PBool a, PInt n => n =? Z.b2z a
  | PInt n, PBool a => n =? Z.b2z a
  | PInt a, PInt b => a =? b
  | PStr a, PStr b => String.eqb a b
  | PList xs, PList ys =>
    (fix go (xs ys : list pyval) {struct xs} : bool :=
       match xs, ys with
       | [], [] => true
       | x :: xs, y :: ys => py_eq x y && go xs ys
       | _, _ => false
       end) xs ys
  | PDict kx, PDict ky =>
    (length kx =? length ky)%nat &&
    (fix go (kx : list (string * pyval)) {struct kx} : bool :=
       match kx with
       | [] => true
       | (k, v) :: kx =>
         match assoc k ky with
         | Some v' => py_eq v v'
         | None => false
         end && go kx
       end) kx
  | _, _ => false
  end.

(** [x in l] for a list [l]. *)
Definition py_in (x : pyval) (l : list pyval) : bool :=
  existsb (fun y => py_eq y x) l.

(** [sub in s] for two strings. *)
Definition str_contains (sub s : string) : bool :=
  match String.index 0 sub s with
  | Some _ => true
  | None => false
  end.

(** [field in question] for a string [field]: a key of a dict, an element
    of a list, a substring of a string; other values are no containers. *)
Definition has_field (field : string) (question : pyval) : result bool :=
  match question with
  | PDict kvs => Ok (match assoc field kvs with Some _ => true | None => false end)
  | PList l => Ok (py_in (PStr field) l)
  | PStr s => Ok (str_contains field s)
  | _ => Raise TypeError
  end.

(** [question[field]] for a string [field]. *)
Definition getitem (question : pyval) (field : string) : result pyval :=
  match question with
  | PDict kvs =>
    match assoc field kvs with
    | Some v => Ok v
    | None => Raise KeyError
    end
  | _ => Raise TypeError
  end.

(** [for q in questions]: the elements of a list, the keys of a dict, the
    characters of a string (bytes here: every one is a string of length
    one to the code either way). *)
Definition py_iter (questions : pyval) : result (list pyval) :=
  match questions with
  | PList l => Ok l
  | PDict kvs => Ok (map (fun kv => PStr (fst kv)) kvs)
  | PStr s => Ok (map (fun a => PStr (String a EmptyString)) (String.list_ascii_of_string s))
  | _ => Raise TypeError
  end.

(** Truth value. *)
Definition truthy (v : pyval) : bool :=
  match v with
  | PNone => false
  | PBool b => b
  | PInt n => negb (n =? 0)
  | PStr s => negb (String.eqb s "")
  | PList l => match l with [] => false | _ => true end
  | PDict kvs => match kvs with [] => false | _ => true end
  end.

(** [len(v)]. *)
Definition py_len (v : pyval) : result Z :=
  match v with
  | PStr s => Ok (Z.of_nat (String.length s))
  | PList l => Ok (Z.of_nat (length l))
  | PDict kvs => Ok (Z.of_nat (length kvs))
  | _ => Raise TypeError
  end.

(** [l[:k]]: a negative [k] counts from the end. *)
Definition slice_to {A : Type} (l : list A) (k : Z) : list A :=
  if k <? 0 then take (Z.to_nat (Z.of_nat (length l) + k)) l
  else take (Z.to_nat k) l.

(** [s.endswith(suffix)]. *)
Definition endswith (s suffix : string) : bool :=
  (String.length suffix <=? String.length s)%nat &&
  String.eqb
    (String.substring (String.length s - String.length suffix)
                      (String.length suffix) s)
    suffix.

(** ** The external question source and the rest of the environment *)

Definition user_config : Type := gmap string string.

(** The module-level [ai_service] when it is not [None].
    - [chat_review k word_data config] is the outcome, for the [k]-th due
      word, of the chat request of [_generate_review_questions] up to
      [json.loads]: the decoded reply, or the exception raised on the way.
    - [generate_questions article config count] is what
      [AIService.generate_questions] returns; it catches its own
      exceptions and returns [None] then. *)
Record AIService : Type := {
  chat_review : nat -> Row -> user_config -> result pyval;
  generate_questions : string -> user_config -> Z -> pyval
}.

(** What a call of [generate] finds around it.
    - [word_progress]: the rows of the store, or the exception that opening
      and reading it raises;
    - [clock]: the reading of [datetime.now()] in the due-word scan;
    - [articles_dir]: what [os.listdir] gives for the articles
      directory, its entries, each with the outcome of reading it, or the
      exception it raises when the directory cannot be listed;
    - [choice]: the draw of [random.choice];
    - [shuffle]: the effect of [random.shuffle]. *)
Record World : Type := {
  word_progress : result (list Row);
  clock : datetime;
  ai_service : option AIService;
  articles_dir : result (list (string * result string));
  choice : nat;
  shuffle : list pyval -> list pyval
}.

(** ** The session composer ([class QuestionGenerator]) *)

Module QuestionGenerator.

Definition dq : string := String (Ascii.ascii_of_nat 34) EmptyString.

Definition multiple_choice (question hint : string) (options : list string)
    (answer explanation w : string) (difficulty : Z) : pyval :=
  PDict [("type", PStr "multiple_choice");
         ("question", PStr question);
         ("hint", PStr hint);
         ("options", PList (map PStr options));
         ("answer", PStr answer);
         ("explanation", PStr explanation);
         ("word", PStr w);
         ("difficulty", PInt difficulty)].

Definition fill_blank (question hint answer explanation w : string)
    (difficulty : Z) : pyval :=
  PDict [("type", PStr "fill_blank");
         ("question", PStr question);
         ("hint", PStr hint);
         ("answer", PStr answer);
         ("explanation", PStr explanation);
         ("word", PStr w);
         ("difficulty", PInt difficulty)].

(** [_get_default_questions()]: the built-in bank. *)
Definition _get_default_questions : list pyval :=
  [
    multiple_choice
      ("请选择 " +:+ dq +:+ "happy" +:+ dq +:+ " 的中文释义")
      "这是一个常用的形容词"
      ["悲伤的"; "快乐的"; "愤怒的"; "疲惫的"]
      "快乐的"
      ("Happy是一个常用的英语单词，意思是" +:+ dq +:+ "快乐的、幸福的" +:+ dq +:+ "。")
      "happy" 3;
    multiple_choice
      ("请选择 " +:+ dq +:+ "beautiful" +:+ dq +:+ " 的中文释义")
      "用来形容美好事物的形容词"
      ["丑陋的"; "美丽的"; "普通的"; "奇怪的"]
      "美丽的"
      ("Beautiful意为" +:+ dq +:+ "美丽的、漂亮的" +:+ dq +:+ "。")
      "beautiful" 4;
    fill_blank
      "完成句子：I am very _____ today."
      ("填写一个表示" +:+ dq +:+ "开心" +:+ dq +:+ "的单词")
      "happy"
      ("这句话的意思是" +:+ dq +:+ "我今天很开心" +:+ dq +:+ "。")
      "happy" 3;
    multiple_choice
      ("请选择 " +:+ dq +:+ "run" +:+ dq +:+ " 的中文释义")
      "这是一个动作动词"
      ["走"; "跑"; "跳"; "飞"]
      "跑"
      ("Run是一个常用的动词，意思是" +:+ dq +:+ "跑、奔跑" +:+ dq +:+ "。")
      "run" 2;
    fill_blank
      "完成句子：She likes to _____ in the park."
      ("填写一个表示" +:+ dq +:+ "跑步" +:+ dq +:+ "的单词")
      "run"
      ("这句话的意思是" +:+ dq +:+ "她喜欢在公园里跑步" +:+ dq +:+ "。")
      "run" 2;
    multiple_choice
      ("请选择 " +:+ dq +:+ "book" +:+ dq +:+ " 的中文释义")
      "这是一个常用的名词"
      ["书"; "笔"; "桌子"; "椅子"]
      "书"
      ("Book意为" +:+ dq +:+ "书、书籍" +:+ dq +:+ "。")
      "book" 1;
    fill_blank
      "完成句子：This is a good _____."
      ("填写一个表示" +:+ dq +:+ "书" +:+ dq +:+ "的单词")
      "book"
      ("这句话的意思是" +:+ dq +:+ "这是一本好书" +:+ dq +:+ "。")
      "book" 1;
    multiple_choice
      ("请选择 " +:+ dq +:+ "eat" +:+ dq +:+ " 的中文释义")
      "这是一个日常动作"
      ["喝"; "吃"; "睡"; "玩"]
      "吃"
      ("Eat是一个基本动词，意思是" +:+ dq +:+ "吃" +:+ dq +:+ "。")
      "eat" 1;
    fill_blank
      "完成句子：Let's _____ dinner together."
      ("填写一个表示" +:+ dq +:+ "吃" +:+ dq +:+ "的单词")
      "eat"
      ("这句话的意思是" +:+ dq +:+ "让我们一起吃晚餐吧" +:+ dq +:+ "。")
      "eat" 1;
    multiple_choice
      ("请选择 " +:+ dq +:+ "sleep" +:+ dq +:+ " 的中文释义")
      "每个人每天都要做的事情"
      ["工作"; "睡觉"; "运动"; "学习"]
      "睡觉"
      ("Sleep意为" +:+ dq +:+ "睡觉" +:+ dq +:+ "。")
      "sleep" 1;
    fill_blank
      "完成句子：I need to _____ now."
      ("填写一个表示" +:+ dq +:+ "睡觉" +:+ dq +:+ "的单词")
      "sleep"
      ("这句话的意思是" +:+ dq +:+ "我现在需要睡觉" +:+ dq +:+ "。")
      "sleep" 1;
    multiple_choice
      ("请选择 " +:+ dq +:+ "write" +:+ dq +:+ " 的中文释义")
      "与笔有关"
      ["读"; "写"; "看"; "听"]
      "写"
      ("Write意为" +:+ dq +:+ "写、书写" +:+ dq +:+ "。")
      "write" 2;
    fill_blank
      "完成句子：Please _____ your name here."
      ("填写一个表示" +:+ dq +:+ "写" +:+ dq +:+ "的单词")
      "write"
      ("这句话的意思是" +:+ dq +:+ "请在这里写下你的名字" +:+ dq +:+ "。")
      "write" 2;
    multiple_choice
      ("请选择 " +:+ dq +:+ "speak" +:+ dq +:+ " 的中文释义")
      "与嘴巴有关"
      ["听"; "说"; "读"; "写"]
      "说"
      ("Speak意为" +:+ dq +:+ "说、说话" +:+ dq +:+ "。")
      "speak" 2;
    fill_blank
      "完成句子：Can you _____ English?"
      ("填写一个表示" +:+ dq +:+ "说" +:+ dq +:+ "的单词")
      "speak"
      ("这句话的意思是" +:+ dq +:+ "你会说英语吗？" +:+ dq +:+ "。")
      "speak" 2
  ].

(** [_get_default_review_question(word)]. *)
Definition _get_default_review_question (w : string) : pyval :=
  multiple_choice
    ("请复习单词：" +:+ w)
    "这是一个复习题目"
    [w +:+ " (正确)"; "选项B"; "选项C"; "选项D"]
    (w +:+ " (正确)")
    ("复习单词：" +:+ w)
    w 3.

Definition required_fields : list string :=
  ["type"; "question"; "answer"; "word"].

(** The first loop of [_validate_question]: is a required field missing? *)
Fixpoint missing_field (fields : list string) (question : pyval) : result bool :=
  match fields with
  | [] => Ok false
  | field :: rest =>
    present <- has_field field question ;;
    if negb present then Ok true else missing_field rest question
  end.

(** [_validate_question(question)]. *)
Definition _validate_question (question : pyval) : result bool :=
  missing <- missing_field required_fields question ;;
  if missing then Ok false
  else
    ty <- getitem question "type" ;;
    if py_eq ty (PStr "multiple_choice") then
      has_options <- has_field "options" question ;;
      if negb has_options then Ok false
      else
        options <- getitem question "options" ;;
        match options with
        | PList l =>
          if negb (length l =? 4)%nat then Ok false
          else
            answer <- getitem question "answer" ;;
            if negb (py_in answer l) then Ok false else Ok true
        | _ => Ok false
        end
    else Ok true.

(** [get_random_article()]: [os.listdir] is outside the [try], reading
    the article is inside. *)
Definition get_random_article (w : World) : result (option string) :=
  entries <- articles_dir w ;;
  let articles := filter (fun f => endswith (fst f) ".txt" = true) entries in
  match articles with
  | [] => Ok None
  | _ =>
    match articles !! (choice w mod length articles)%nat with
    | Some (_, Ok content) => Ok (Some content)
    | _ => Ok None
    end
  end.

(** The validation loop of [_generate_new_questions]; an exception leaves
    it, and what was validated so far is lost. *)
Fixpoint validate_all (questions : list pyval) (validated_questions : list pyval)
  : result (list pyval) :=
  match questions with
  | [] => Ok validated_questions
  | q :: rest =>
    ok <- _validate_question q ;;
    validate_all rest (if ok then validated_questions ++ [q] else validated_questions)
  end.

(** [_generate_new_questions(user_config, count)]: the call of
    [get_random_article] is outside the [try]. *)
Definition _generate_new_questions (w : World) (config : user_config)
    (count : Z) : result (list pyval) :=
  article_content <- get_random_article w ;;
  match article_content with
  | None => Ok (slice_to _get_default_questions count)
  | Some article_content =>
    if String.eqb article_content "" then Ok (slice_to _get_default_questions count)
    else
      match ai_service w with
      | None => Ok (slice_to _get_default_questions count)
      | Some ai =>
        Ok (catch
          (let questions := generate_questions ai article_content config count in
           nonempty <-
             (if truthy questions
              then n <- py_len questions ;; Ok (n >? 0)
              else Ok false) ;;
           if nonempty then
             items <- py_iter questions ;;
             validated_questions <- validate_all items [] ;;
             let validated_questions :=
               if Z.of_nat (length validated_questions) <? count then
                 let needed := count - Z.of_nat (length validated_questions) in
                 validated_questions ++ slice_to _get_default_questions needed
               else validated_questions in
             Ok (slice_to validated_questions count)
           else Ok (slice_to _get_default_questions count))
          (fun _ => slice_to _get_default_questions count))
      end
  end.

(** The inner loop of [_generate_review_questions]: valid items are added
    to [review_questions]; an exception stops it, what was added stays. *)
Fixpoint accept_valid (questions : list pyval) (review_questions : list pyval)
  : list pyval * option exn :=
  match questions with
  | [] => (review_questions, None)
  | q :: rest =>
    match _validate_question q with
    | Ok true => accept_valid rest (review_questions ++ [q])
    | Ok false => accept_valid rest review_questions
    | Raise e => (review_questions, Some e)
    end
  end.

(** The [try] block of [_generate_review_questions] for the [k]-th due
    word, up to the inner loop: the prompt reads
    [float(word_data['mastery_level'])], the request is sent, the reply is
    decoded and iterated. *)
Definition review_reply (ai : AIService) (config : user_config) (k : nat)
    (word_data : Row) : result (list pyval) :=
  _ <- read (mastery_level word_data) ;;
  questions <- chat_review ai k word_data config ;;
  py_iter questions.

(** One round of the outer loop; [except Exception] adds the default
    review question. *)
Definition review_word (ai : AIService) (config : user_config) (k : nat)
    (word_data : Row) (review_questions : list pyval) : list pyval :=
  let w := word word_data in
  match review_reply ai config k word_data with
  | Raise _ => review_questions ++ [_get_default_review_question w]
  | Ok items =>
    match accept_valid items review_questions with
    | (review_questions, None) => review_questions
    | (review_questions, Some _) =>
      review_questions ++ [_get_default_review_question w]
    end
  end.

Fixpoint review_loop (ai : AIService) (config : user_config) (k : nat)
    (words_due : list Row) (review_questions : list pyval) : list pyval :=
  match words_due with
  | [] => review_questions
  | word_data :: rest =>
    review_loop ai config (S k) rest
      (review_word ai config k word_data review_questions)
  end.

(** [_generate_review_questions(words_due, user_config)]. *)
Definition _generate_review_questions (ai : AIService) (words_due : list Row)
    (config : user_config) : list pyval :=
  review_loop ai config 0 words_due [].

(** [generate(user_config, count=15)]. *)
Definition generate (w : World) (config : user_config) (count : Z)
  : result (list pyval) :=
  let lang := default "英语" (config !! "学习语言") in
  let words_due :=
    catch (rows <- word_progress w ;;
           ReviewStrategy.get_words_due_for_review rows (clock w) lang 5)
          (fun _ => []) in
  let review_count := length words_due in
  let all_questions :=
    match ai_service w with
    | Some ai =>
      if (0 <? review_count)%nat
      then _generate_review_questions ai words_due config
      else []
    | None => []
    end in
  let new_count := count - Z.of_nat (length all_questions) in
  all_questions <-
    (if new_count >? 0
     then
       new_questions <- _generate_new_questions w config new_count ;;
       Ok (all_questions ++ new_questions)
     else Ok all_questions) ;;
  let all_questions := shuffle w all_questions in
  let all_questions :=
    if Z.of_nat (length all_questions) <? count then
      let needed := count - Z.of_nat (length all_questions) in
      all_questions ++ slice_to _get_default_questions needed
    else all_questions in
  Ok (slice_to all_questions count).

End QuestionGenerator.

(** ** The difficulty adjustment ([app.py]) *)

(** The [accuracy] cell of a row of [practice_history.csv], as
    [float(row['accuracy'])] finds it: text that [float] reads; text that
    it does not read, or no such column ([ValueError], [KeyError]); or
    [None], the cell of a row too short to have it ([TypeError]). *)
Inductive accuracy_cell : Type :=
  | Accuracy (x : float)
  | AccuracyText
  | AccuracyNone.

(** A row of [practice_history.csv]: [p_language] is
    [row.get('language', '')], [None] in a row too short to have the
    cell. *)
Record PracticeRow : Type := {
  p_language : option string;
  p_accuracy : accuracy_cell
}.

(** The [learning_languages] of a profile: a JSON object whose members
    are JSON objects, as [save_user_profile] and [add_language] write
    it. *)
Definition languages : Type := list (string * list (string * pyval)).

Module App.

(** [x / n] for a [float] x and an [int] n. *)
Definition float_div_int (x : float) (n : Z) : result float :=
  if n =? 0 then Raise ZeroDivisionError
  else d <- Py.float_of_int n ;; Ok (x / d)%float.

(** [level + k] and [level - k] need a number. *)
Definition int_of_level (level : pyval) : result Z :=
  match level with
  | PInt n => Ok n
  | PBool b => Ok (Z.b2z b)
  | _ => Raise TypeError
  end.

(** [rows[-5:]]. *)
Definition last_five {A : Type} (rows : list A) : list A :=
  drop (length rows - 5) rows.

(** The loop over the last rows; [except (ValueError, KeyError)] goes to
    the next row. *)
Fixpoint recent_loop (current_language : string) (rows : list PracticeRow)
    (recent_accuracies : list float) : result (list float) :=
  match rows with
  | [] => Ok recent_accuracies
  | row :: rest =>
    if match p_language row with
       | Some l => String.eqb l current_language
       | None => false
       end
    then
      match p_accuracy row with
      | Accuracy acc =>
        recent_loop current_language rest (recent_accuracies ++ [acc])
      | AccuracyText => recent_loop current_language rest recent_accuracies
      | AccuracyNone => Raise TypeError
      end
    else recent_loop current_language rest recent_accuracies
  end.

Section Adjust.

(** The built-in [sum] on a list of floats. *)
Variable fsum : list float -> float.

(** [adjust_difficulty_based_on_performance(user_config)]:
    [current_language] and [learning_languages] are the two entries of
    [user_config] it reads, [None] when the key is absent;
    [practice_history] is the file, [None] when it does not exist, with
    the outcome of reading it. *)
Definition adjust_difficulty_based_on_performance
    (current_language : option string) (learning_languages : option languages)
    (practice_history : option (result (list PracticeRow))) : result pyval :=
  let current_language := default "英语" current_language in
  let learning_languages := default [] learning_languages in
  match assoc current_language learning_languages with
  | None => Ok (PInt 5)
  | Some language_data =>
    let base_level := default (PInt 5) (assoc "level" language_data) in
    match practice_history with
    | None => Ok base_level
    | Some file =>
      rows <- file ;;
      recent_accuracies <- recent_loop current_language (last_five rows) [] ;;
      match recent_accuracies with
      | [] => Ok base_level
      | _ =>
        avg_accuracy <-
          float_div_int (fsum recent_accuracies)
                        (Z.of_nat (length recent_accuracies)) ;;
        if PrimFloat.leb 90 avg_accuracy then
          b <- int_of_level base_level ;; Ok (PInt (Z.min 10 (b + 2)))
        else if PrimFloat.leb 80 avg_accuracy then
          b <- int_of_level base_level ;; Ok (PInt (Z.min 10 (b + 1)))
        else if PrimFloat.leb avg_accuracy 40 then
          b <- int_of_level base_level ;; Ok (PInt (Z.max 1 (b - 2)))
        else if PrimFloat.leb avg_accuracy 50 then
          b <- int_of_level base_level ;; Ok (PInt (Z.max 1 (b - 1)))
        else Ok base_level
      end
    end
  end.

End Adjust.

End App.

(** ** Predicates of the statements *)

(** A value that is no NaN and carries the sign [s]. *)
Definition signed (s : bool) (x : spec_float) : Prop :=
  match x with
  | S754_zero s' | S754_infinity s' | S754_finite s' _ _ => s' = s
  | S754_nan => False
  end.

(** A value that is no NaN. *)
Definition not_nan (x : spec_float) : Prop := x <> S754_nan.

(** A zero or a finite value. *)
Definition finite (x : spec_float) : Prop :=
  match x with
  | S754_zero _ | S754_finite _ _ _ => True
  | _ => False
  end.

(** The branch rule of SM-2 on the result of a call; [to_int] is the way
    from the product [interval * new_ease_factor] to the new interval. *)
Definition branch_rule (to_int : float -> result Z) (now : datetime)
    (quality interval repetitions : Z) (out : float * Z * Z * datetime) : Prop :=
  let '(new_ef, new_interval, new_repetitions, next_review_date) := out in
  (quality < 3 -> new_repetitions = 0 /\ new_interval = 1) /\
  (3 <= quality ->
     new_repetitions = repetitions + 1 /\
     (new_repetitions = 1 -> new_interval = 1) /\
     (new_repetitions = 2 -> new_interval = 6) /\
     (new_repetitions <> 1 -> new_repetitions <> 2 ->
        exists i, Py.float_of_int interval = Ok i /\
                  to_int (i * new_ef)%float = Ok new_interval)) /\
  add_days now new_interval = Ok next_review_date.

(** A row that the due-word scan keeps: its language is the one asked for,
    its [next_review] is a naive time and is not after [now]. *)
Definition is_due (lang : string) (now : datetime) (row : Row) : bool :=
  String.eqb (language row) lang &&
  match next_review row with
  | Naive t => t <=? now
  | _ => false
  end.

(** A row of the word "cat", due from the instant 7 on. *)
Definition sample_row : Row :=
  {| word := "cat"; language := "en";
     total_attempts := Some 4; correct_attempts := Some 2;
     last_review := Some 5; next_review := Naive 7;
     ease_factor := Some 2.6%float; interval := Some 6;
     mastery_level := Some 0.5%float |}.

(** A row whose [next_review] and [mastery_level] cannot be read. *)
Definition garbled_row : Row :=
  {| word := "dog"; language := "en";
     total_attempts := Some 1; correct_attempts := Some 1;
     last_review := Some 5; next_review := Garbled;
     ease_factor := Some 2.5%float; interval := Some 1;
     mastery_level := None |}.

(** One submitted answer: the arguments of [update_word_progress] and the
    two clock readings of the call. *)
Record Answer : Type := {
  a_word : string;
  a_language : string;
  a_correct : bool;
  a_time : option Py.number;
  a_sched : datetime;
  a_stamp : datetime
}.

(** The store after an answer.  [submit_answer] in [app.py] calls
    [update_word_progress] inside [try ... except Exception] and goes on:
    the file is what the call left. *)
Definition record_answer (rows : list Row) (a : Answer) : list Row :=
  ReviewStrategy.file_after_update rows (a_sched a) (a_stamp a)
    (a_word a) (a_language a) (a_correct a) (a_time a).

Definition record_answers (rows : list Row) (answers : list Answer) : list Row :=
  fold_left record_answer answers rows.

Definition for_word (w lang : string) (a : Answer) : bool :=
  String.eqb (a_word a) w && String.eqb (a_language a) lang.

(** The number of answers to a word, and of the right ones among them. *)
Definition attempts (w lang : string) (answers : list Answer) : Z :=
  Z.of_nat (length (List.filter (for_word w lang) answers)).

Definition successes (w lang : string) (answers : list Answer) : Z :=
  Z.of_nat (length (List.filter a_correct (List.filter (for_word w lang) answers))).


(** The row of a word answered [n] times, [k] times rightly. *)
Definition tallied (n k : Z) (row : Row) : Prop :=
  total_attempts row = Some n /\
  correct_attempts row = Some k /\
  exists m, Py.int_truediv k n = Ok m /\ mastery_level row = Some m.



Definition sample_answers : list Answer :=
  [ {| a_word := "cat"; a_language := "en"; a_correct := true;
       a_time := None; a_sched := 1000; a_stamp := 1001 |};
    {| a_word := "dog"; a_language := "en"; a_correct := false;
       a_time := None; a_sched := 2000; a_stamp := 2001 |};
    {| a_word := "cat"; a_language := "en"; a_correct := false;
       a_time := Some (Py.Int 12); a_sched := 3000; a_stamp := 3001 |};
    {| a_word := "cat"; a_language := "en"; a_correct := true;
       a_time := Some (Py.Float 2.5%float); a_sched := 4000; a_stamp := 4001 |} ].


(** [random.shuffle] rearranges the list. *)
Definition shuffles (f : list pyval -> list pyval) : Prop :=
  forall l, Permutation (f l) l.

(** The due words that [generate] finds, and the review questions it makes
    for them. *)
Definition words_due_of (w : World) (config : user_config) : list Row :=
  catch (rows <- word_progress w ;;
         ReviewStrategy.get_words_due_for_review rows (clock w)
           (default "英语" (config !! "学习语言")) 5)
        (fun _ => []).

Definition review_questions_of (w : World) (config : user_config) : list pyval :=
  match ai_service w with
  | Some ai =>
    QuestionGenerator._generate_review_questions ai (words_due_of w config) config
  | None => []
  end.

(** A question passes the gate. *)
Definition gate_accepted (q : pyval) : Prop :=
  QuestionGenerator._validate_question q = Ok true.

(** A question of type [multiple_choice] has four options, its answer
    among them. *)
Definition well_formed_choice (q : pyval) : Prop :=
  forall ty,
    getitem q "type" = Ok ty ->
    py_eq ty (PStr "multiple_choice") = true ->
    exists options answer,
      getitem q "options" = Ok (PList options) /\
      length options = 4%nat /\
      getitem q "answer" = Ok answer /\
      py_in answer options = true.

(** An item of a reply of the external source, as it came. *)
Definition external_item (w : World) (config : user_config) (q : pyval) : Prop :=
  exists ai, ai_service w = Some ai /\
    ((exists k row items,
        QuestionGenerator.review_reply ai config k row = Ok items /\ In q items) \/
     (exists article n items,
        py_iter (generate_questions ai article config n) = Ok items /\ In q items)).

(** Where a question of a session comes from. *)
Definition admissible (w : World) (config : user_config) (q : pyval) : Prop :=
  In q QuestionGenerator._get_default_questions \/
  (exists row, In row (words_due_of w config) /\
               q = QuestionGenerator._get_default_review_question (word row)) \/
  (external_item w config q /\ gate_accepted q).

(** Is the question tagged with the word? *)
Definition tagged_with (w : string) (q : pyval) : bool :=
  match getitem q "word" with
  | Ok v => py_eq v (PStr w)
  | Raise _ => false
  end.

(** What one due word adds to the review questions. *)
Definition contribution (ai : AIService) (config : user_config) (k : nat)
    (word_data : Row) : list pyval :=
  QuestionGenerator.review_word ai config k word_data [].

(** The questions of a session before they are shuffled. *)
Definition session_pool (w : World) (config : user_config) (count : Z)
  : result (list pyval) :=
  let review := review_questions_of w config in
  let new_count := count - Z.of_nat (length review) in
  if new_count >? 0
  then
    new_questions <- QuestionGenerator._generate_new_questions w config new_count ;;
    Ok (review ++ new_questions)
  else Ok review.

(** No article text: no article file, one that cannot be read, or an
    empty one. *)
Definition no_article (w : World) : Prop :=
  QuestionGenerator.get_random_article w = Ok None \/
  QuestionGenerator.get_random_article w = Ok (Some "").

(** Step 5 of [generate]: a list shorter than [count] is filled from the
    bank. *)
Definition padded (l : list pyval) (count : Z) : list pyval :=
  if Z.of_nat (length l) <? count
  then l ++ slice_to QuestionGenerator._get_default_questions
                     (count - Z.of_nat (length l))
  else l.

(** Some worlds.  A learner of "en" with one due word, [sample_row]. *)
Definition sample_config : user_config := {[ "学习语言" := "en" ]}.

Definition cat_question : pyval :=
  PDict [("type", PStr "fill_blank");
         ("question", PStr "The ___ sat on the mat.");
         ("answer", PStr "cat");
         ("word", PStr "cat")].

(** A source whose review reply holds a valid question and then a number,
    on which the gate raises; it makes no new questions. *)
Definition sample_ai : AIService :=
  {| chat_review := fun _ _ _ => Ok (PList [cat_question; PInt 5]);
     generate_questions := fun _ _ _ => PNone |}.

(** No source, no article. *)
Definition world_offline : World :=
  {| word_progress := Ok [sample_row];
     clock := 10;
     ai_service := None;
     articles_dir := Ok [];
     choice := 0%nat;
     shuffle := @rev pyval |}.

(** The source is there, no article is. *)
Definition world_no_article : World :=
  {| word_progress := Ok [sample_row];
     clock := 10;
     ai_service := Some sample_ai;
     articles_dir := Ok [("notes.md", Ok "not an article")];
     choice := 0%nat;
     shuffle := @rev pyval |}.

(** A source that answers every review request with an empty list. *)
Definition silent_ai : AIService :=
  {| chat_review := fun _ _ _ => Ok (PList []);
     generate_questions := fun _ _ _ => PNone |}.

(** ** Further predicates *)

(** The key of a row, and a store with one row a key. *)
Definition key_of (row : Row) : string * string := (word row, language row).

Definition unique_keys (rows : list Row) : Prop := NoDup (map key_of rows).

(** Every ease factor that can be read is at least 1.3. *)
Definition ease_floor (rows : list Row) : Prop :=
  Forall (fun row =>
            forall ef, ease_factor row = Some ef ->
                       PrimFloat.leb SM2Algorithm.MIN_EF ef = true) rows.

(** A row that the due-word scan looks at: its language is the one asked
    for and its [next_review] is not text that [fromisoformat] rejects. *)
Definition scanned (lang : string) (row : Row) : bool :=
  String.eqb (language row) lang &&
  match next_review row with Garbled => false | _ => true end.

(** A row on which the due-word scan for a language raises. *)
Definition unordered (lang : string) (row : Row) : bool :=
  String.eqb (language row) lang &&
  match next_review row with Aware | Missing => true | _ => false end.

(** A row that the statistics scan counts. *)
Definition counted (lang : option string) (row : Row) : bool :=
  match lang with
  | Some l => String.eqb l "" || String.eqb (language row) l
  | None => true
  end.


(** A row whose stored mastery level reads as at least 0.8. *)
Definition mastered (row : Row) : bool :=
  match mastery_level row with
  | Some m => PrimFloat.leb 0.8 m
  | None => false
  end.

(** The sum [total_mastery] built by [get_mastery_stats], row by row from
    the left. *)
Definition mastery_sum (rows : list Row) : float :=
  fold_left (fun acc row =>
               match mastery_level row with
               | Some m => (acc + m)%float
               | None => acc
               end) rows 0%float.

(** The four required fields are keys of the dict. *)
Definition has_required_fields (kvs : list (string * pyval)) : Prop :=
  Forall (fun field => exists v, assoc field kvs = Some v)
         QuestionGenerator.required_fields.

(** The gate raises on a question. *)
Definition gate_raises (q : pyval) : Prop :=
  exists e, QuestionGenerator._validate_question q = Raise e.

(** The source is there and there is an article text for it. *)
Definition source_reply (w : World) (config : user_config) (count : Z)
    (reply : pyval) : Prop :=
  exists ai article,
    ai_service w = Some ai /\
    QuestionGenerator.get_random_article w = Ok (Some article) /\
    article <> "" /\
    generate_questions ai article config count = reply.

(** A world with one article and a source that answers every request
    for new questions with [reply]. *)
Definition world_with_reply (reply : pyval) : World :=
  {| word_progress := Ok [];
     clock := 10;
     ai_service :=
       Some {| chat_review := fun _ _ _ => Raise ServiceError;
               generate_questions := fun _ _ _ => reply |};
     articles_dir := Ok [("notes.md", Ok "no article");
                         ("story.txt", Ok "A cat sat on the mat.")];
     choice := 0%nat;
     shuffle := @rev pyval |}.

(** The gate returns [True] on a question. *)
Definition passes (q : pyval) : bool :=
  match QuestionGenerator._validate_question q with
  | Ok b => b
  | Raise _ => false
  end.

Definition is_dict (q : pyval) : Prop := exists kvs, q = PDict kvs.

(** A question that lacks its answer. *)
Definition no_answer_question : pyval :=
  PDict [("type", PStr "fill_blank");
         ("question", PStr "The ___ sat on the mat.");
         ("word", PStr "cat")].

(** A row of the practice history that has its language has its accuracy
    too: the accuracy column comes first in the file. *)
Definition language_after_accuracy (row : PracticeRow) : Prop :=
  p_accuracy row = AccuracyNone -> p_language row = None.

(** The level of a language in a profile. *)
Definition level_of (lang : string) (ls : languages) (level : pyval) : Prop :=
  exists language_data,
    assoc lang ls = Some language_data /\
    default (PInt 5) (assoc "level" language_data) = level.

Definition sample_languages : languages :=
  [("en", [("level", PInt 9); ("daily_minutes", PInt 15)])].

Definition sample_history : list PracticeRow :=
  [ {| p_language := Some "en"; p_accuracy := Accuracy 20 |};
    {| p_language := Some "en"; p_accuracy := Accuracy 95 |};
    {| p_language := None; p_accuracy := AccuracyNone |};
    {| p_language := Some "fr"; p_accuracy := Accuracy 10 |};
    {| p_language := Some "en"; p_accuracy := AccuracyText |};
    {| p_language := Some "en"; p_accuracy := Accuracy 100 |} ].

(** The sum of a list of floats from the left, one way to read the
    built-in [sum]. *)
Definition sum_left (l : list float) : float :=
  fold_left PrimFloat.add l 0%float.


(** Text that is read back as it was written: it holds no carriage
    return. *)
Definition plain (s : string) : Prop := universal_newlines s = s.

(** The file after a save that does not raise. *)
Fixpoint stored (rows : list Row) (word_data : Row) : list Row :=
  match rows with
  | [] => [reread word_data]
  | row :: rest =>
    if ReviewStrategy.same_key (word word_data) (language word_data) row
    then rewritten word_data :: map rewritten rest
    else rewritten row :: stored rest word_data
  end.


(** A word with a carriage return, and two right answers to it. *)
Definition cr_word : string := "a" +:+ String CR "b".

Definition lf_word : string := "a" +:+ String LF "b".

Definition cr_answers : list Answer :=
  [ {| a_word := cr_word; a_language := "en"; a_correct := true;
       a_time := None; a_sched := 1000; a_stamp := 1001 |};
    {| a_word := cr_word; a_language := "en"; a_correct := true;
       a_time := None; a_sched := 2000; a_stamp := 2001 |} ].

(** A row whose [next_review] has a UTC offset, and one too short to have
    the cell. *)
Definition aware_row : Row :=
  {| word := "emu"; language := "en";
     total_attempts := Some 1; correct_attempts := Some 1;
     last_review := Some 5; next_review := Aware;
     ease_factor := Some 2.5%float; interval := Some 1;
     mastery_level := Some 1%float |}.

Definition short_row : Row :=
  {| word := "fox"; language := "en";
     total_attempts := Some 1; correct_attempts := Some 1;
     last_review := Some 5; next_review := Missing;
     ease_factor := None; interval := None;
     mastery_level := None |}.


(** The articles directory cannot be listed. *)
Definition world_no_directory : World :=
  {| word_progress := Ok [sample_row];
     clock := 10;
     ai_service := None;
     articles_dir := Raise OSError;
     choice := 0%nat;
     shuffle := @rev pyval |}.

(** The articles directory can be listed. *)
Definition listable (w : World) : Prop :=
  exists entries, articles_dir w = Ok entries.

(** ** The scheduler on some inputs *)

(** A first right answer to a fresh word, a third one in a row, a
    negative interval, and a right answer of quality 3. *)
Example first_correct_answer :
  SM2Algorithm.calculate_next_review 1000 4 2.5%float 0 0
  = Ok (2.5%float, 1, 1, 1000 + MICROSECONDS_PER_DAY).
Proof. vm_compute. reflexivity. Qed.

Example third_correct_answer :
  SM2Algorithm.calculate_next_review 1000 4 2.5%float 6 2
  = Ok (2.5%float, 15, 3, 1000 + 15 * MICROSECONDS_PER_DAY).
Proof. vm_compute. reflexivity. Qed.

Example negative_interval_is_truncated :
  SM2Algorithm.calculate_next_review (100 * MICROSECONDS_PER_DAY) 4 2.5%float (-1) 2
  = Ok (2.5%float, -2, 3, 98 * MICROSECONDS_PER_DAY).
Proof. vm_compute. reflexivity. Qed.

Example hard_recall :
  SM2Algorithm.calculate_next_review 1000 3 2.5%float 6 2
  = Ok (2.36%float, 14, 3, 1000 + 14 * MICROSECONDS_PER_DAY).
Proof. vm_compute. reflexivity. Qed.

(** ** Facts about doubles *)

Section Doubles.



Lemma shr_1_nonneg mrs : 0 <= shr_m mrs -> 0 <= shr_m (shr_1 mrs).
Proof.
  destruct mrs as [m r s]; simpl.
  destruct m as [|[p|p|]|[p|p|]]; simpl; lia.
Qed.

Lemma iter_shr_1_nonneg p : forall mrs,
  0 <= shr_m mrs -> 0 <= shr_m (SpecFloat.iter_pos shr_1 p mrs).
Proof.
  induction p as [p IH|p IH|]; simpl; intros mrs H.
  - apply IH, IH, shr_1_nonneg, H.
  - apply IH, IH, H.
  - apply shr_1_nonneg, H.
Qed.

Lemma shr_fexp_nonneg m e l :
  0 <= m -> 0 <= shr_m (fst (shr_fexp prec emax m e l)).
Proof.
  intros H. unfold shr_fexp, shr.
  assert (H0 : 0 <= shr_m (shr_record_of_loc m l))
    by (destruct l as [|[]]; exact H).
  destruct (fexp prec emax (Zdigits2 m + e) - e); simpl; auto.
  apply iter_shr_1_nonneg, H0.
Qed.

Lemma round_nearest_even_nonneg m l : 0 <= m -> 0 <= round_nearest_even m l.
Proof.
  intros H. destruct l as [|[]]; simpl; try lia.
  destruct (Z.even m); lia.
Qed.

Lemma binary_round_aux_signed s m e l :
  0 <= m -> signed s (binary_round_aux prec emax s m e l).
Proof.
  intros H. unfold binary_round_aux.
  pose proof (shr_fexp_nonneg m e l H) as H1.
  destruct (shr_fexp prec emax m e l) as [mrs' e']; simpl in H1.
  pose proof (shr_fexp_nonneg _ e' loc_Exact
                (round_nearest_even_nonneg _ (loc_of_shr_record mrs') H1)) as H2.
  destruct (shr_fexp prec emax _ e' loc_Exact) as [mrs'' e'']; simpl in H2.
  destruct (shr_m mrs'') as [|p|p]; simpl; [reflexivity| |lia].
  destruct (e'' <=? emax - prec); reflexivity.
Qed.

Lemma binary_round_signed s m e : signed s (binary_round prec emax s m e).
Proof.
  unfold binary_round.
  destruct (shl_align m e _) as [mz ez].
  apply binary_round_aux_signed. lia.
Qed.

Lemma binary_normalize_not_nan m e sz :
  not_nan (binary_normalize prec emax m e sz).
Proof.
  unfold not_nan.
  destruct m as [|p|p]; simpl; [discriminate| |].
  - pose proof (binary_round_signed false p e) as H.
    intros E; rewrite E in H; exact H.
  - pose proof (binary_round_signed true p e) as H.
    intros E; rewrite E in H; exact H.
Qed.


(** A sum is a NaN only when a summand is one or when the two are opposite
    infinities. *)
Lemma SFadd_not_nan x y :
  not_nan x -> finite y -> not_nan (SFadd prec emax x y).
Proof.
  unfold not_nan. intros Hx Hy.
  destruct x as [sx|sx| |sx mx ex]; destruct y as [sy|sy| |sy my ey];
    simpl in *; try contradiction; try discriminate.
  - destruct sx, sy; discriminate.
  - apply binary_normalize_not_nan.
Qed.

End Doubles.

Lemma rbind_ok {A B : Type} (m : result A) (k : A -> result B) b :
  rbind m k = Ok b -> exists a, m = Ok a /\ k a = Ok b.
Proof. destruct m as [a|e]; simpl; [eauto | discriminate]. Qed.

Section EaseFloor.

Import SM2Algorithm.

Lemma leb_not_nan a x : PrimFloat.leb a x = true -> not_nan (Prim2SF x).
Proof.
  rewrite leb_spec. unfold SFleb, SFcompare, not_nan. intros H E.
  rewrite E in H. destruct (Prim2SF a); discriminate.
Qed.

(** Against a positive finite double [c]: [x < c] false and [x] no NaN
    give [c <= x]. *)
Lemma SFltb_false_SFleb m e x :
  not_nan x ->
  SFltb x (S754_finite false m e) = false ->
  SFleb (S754_finite false m e) x = true.
Proof.
  unfold not_nan, SFltb, SFleb. intros Hx H.
  destruct x as [s|s| |s m1 e1]; simpl in *; try congruence.
  - destruct s; [discriminate | reflexivity].
  - destruct s; [discriminate|].
    rewrite (Z.compare_antisym e1 e).
    destruct (e1 ?= e) eqn:He; simpl; try reflexivity; try discriminate.
    change (Pos.compare_cont Eq m m1) with (Pos.compare m m1).
    change (Pos.compare_cont Eq m1 m) with (Pos.compare m1 m) in H.
    rewrite (Pos.compare_antisym m1 m).
    destruct (m1 ?= m)%positive; simpl; try reflexivity; discriminate.
Qed.

Lemma max_MIN_EF_floor x :
  not_nan (Prim2SF x) -> PrimFloat.leb MIN_EF (Py.max x MIN_EF) = true.
Proof.
  intros Hx. unfold Py.max.
  destruct (PrimFloat.ltb x MIN_EF) eqn:E; [vm_compute; reflexivity|].
  rewrite ltb_spec in E. rewrite leb_spec.
  destruct (Prim2SF MIN_EF) as [s|s| |s m e] eqn:Hc;
    vm_compute in Hc; try discriminate.
  injection Hc as <- <- <-.
  apply SFltb_false_SFleb; assumption.
Qed.

(** Against a positive finite double [c], a value that is no NaN is
    above it, below it, or is [c]. *)
Lemma SFltb_cases m e x :
  not_nan x ->
  (SFltb (S754_finite false m e) x = true /\
   SFltb x (S754_finite false m e) = false) \/
  (SFltb (S754_finite false m e) x = false /\
   SFltb x (S754_finite false m e) = true) \/
  (SFltb (S754_finite false m e) x = false /\
   SFltb x (S754_finite false m e) = false /\
   x = S754_finite false m e).
Proof.
  unfold not_nan, SFltb. intros Hx.
  destruct x as [s|s| |s m1 e1]; simpl; try congruence; auto.
  - destruct s; auto.
  - destruct s; auto.
    rewrite (Z.compare_antisym e1 e).
    destruct (e1 ?= e) eqn:He; simpl; auto.
    change (Pos.compare_cont Eq m m1) with (Pos.compare m m1).
    change (Pos.compare_cont Eq m1 m) with (Pos.compare m1 m).
    rewrite (Pos.compare_antisym m1 m).
    destruct (m1 ?= m)%positive eqn:Hm; simpl; auto.
    apply Z.compare_eq in He. apply Pos.compare_eq in Hm. subst.
    right; right. auto.
Qed.

(** The order of the arguments of [max] does not matter when the first is
    no NaN: [max(1.3, x)] of the specification is [max(x, 1.3)] of the
    code. *)
Lemma max_MIN_EF_comm x :
  not_nan (Prim2SF x) -> Py.max MIN_EF x = Py.max x MIN_EF.
Proof.
  intros Hx. unfold Py.max. rewrite !ltb_spec.
  assert (Hinj : Prim2SF x = Prim2SF MIN_EF -> x = MIN_EF) by apply Prim2SF_inj.
  assert (Hc : exists m e, Prim2SF MIN_EF = S754_finite false m e)
    by (vm_compute; eauto).
  destruct Hc as (m & e & Hc). rewrite Hc in *.
  destruct (SFltb_cases m e _ Hx) as [[-> ->]|[[-> ->]|(-> & -> & Heq)]];
    [reflexivity | reflexivity | symmetry; exact (Hinj Heq)].
Qed.

(** The change of the ease factor, [0.1 - d * (0.08 + d * 0.02)], is a
    finite double for every quality from 0 to 5. *)
Lemma ease_change_finite quality d :
  0 <= quality <= 5 ->
  Py.float_of_int (5 - quality) = Ok d ->
  finite (Prim2SF (0.1 - d * (0.08 + d * 0.02))%float).
Proof.
  intros Hq Hd.
  assert (Hcases : quality = 0 \/ quality = 1 \/ quality = 2 \/
                   quality = 3 \/ quality = 4 \/ quality = 5) by lia.
  destruct Hcases as [->|[->|[->|[->|[->| ->]]]]];
    vm_compute in Hd; injection Hd as <-; vm_compute; exact I.
Qed.

End EaseFloor.

Import SM2Algorithm.
(** C3: for a quality from 0 to 5 and an ease factor of at least 1.3 the
    ease factor that [calculate_next_review] returns is
    [max(1.3, ef + (0.1 - d * (0.08 + d * 0.02)))], [d] being
    [5 - quality], and is at least 1.3. *)
Theorem calculate_next_review_ease_floor
    now quality ef interval repetitions ef' i' r' d' :
  0 <= quality <= 5 ->
  PrimFloat.leb 1.3 ef = true ->
  calculate_next_review now quality ef interval repetitions = Ok (ef', i', r', d') ->
  exists d,
    Py.float_of_int (5 - quality) = Ok d /\
    ef' = Py.max 1.3%float (ef + (0.1 - d * (0.08 + d * 0.02)))%float /\
    PrimFloat.leb 1.3 ef' = true.
Proof.
  intros Hq Hef H. unfold calculate_next_review in H.
  apply rbind_ok in H as (d & Hd & H).
  apply rbind_ok in H as ([nr ni] & _ & H).
  apply rbind_ok in H as (nd & _ & H).
  injection H as <- _ _ _.
  assert (Hnn : not_nan (Prim2SF (ef + (0.1 - d * (0.08 + d * 0.02)))%float)).
  { rewrite add_spec. apply SFadd_not_nan.
    - exact (leb_not_nan _ _ Hef).
    - exact (ease_change_finite quality d Hq Hd). }
  exists d. split; [exact Hd|]. split.
  - symmetry. exact (max_MIN_EF_comm _ Hnn).
  - exact (max_MIN_EF_floor _ Hnn).
Qed.

Lemma calculate_next_review_ease_floor_witness :
  exists d,
    Py.float_of_int (5 - 0) = Ok d /\
    1.3%float = Py.max 1.3%float (1.3 + (0.1 - d * (0.08 + d * 0.02)))%float /\
    PrimFloat.leb 1.3 1.3 = true.
Proof.
  apply (calculate_next_review_ease_floor 0 0 1.3%float 7 3 1.3%float 1 0
           MICROSECONDS_PER_DAY).
  - lia.
  - vm_compute; reflexivity.
  - vm_compute; reflexivity.
Defined.


Section Signs.

Lemma SFleb_signed m e x :
  SFleb (S754_finite false m e) x = true -> signed false x.
Proof.
  unfold SFleb. destruct x as [s|s| |s m1 e1]; simpl; try discriminate.
  - destruct s; [discriminate | reflexivity].
  - destruct s; [discriminate | reflexivity].
Qed.

Lemma max_MIN_EF_signed x :
  not_nan (Prim2SF (Py.max x MIN_EF)) -> signed false (Prim2SF (Py.max x MIN_EF)).
Proof.
  unfold Py.max.
  destruct (PrimFloat.ltb x MIN_EF) eqn:E; [intros _; vm_compute; reflexivity|].
  intros Hx. rewrite ltb_spec in E. revert E.
  destruct (Prim2SF MIN_EF) as [s|s| |s m e] eqn:Hc;
    vm_compute in Hc; try discriminate.
  injection Hc as <- <- <-. intros E.
  eapply SFleb_signed, SFltb_false_SFleb; eassumption.
Qed.

Lemma SFmul_signed x y :
  signed false x -> signed false y ->
  not_nan (SFmul prec emax x y) -> signed false (SFmul prec emax x y).
Proof.
  intros Hx Hy H.
  destruct x as [sx|sx| |sx mx ex]; destruct y as [sy|sy| |sy my ey];
    simpl in Hx, Hy; try contradiction; subst; unfold not_nan in H;
    simpl in *; try congruence.
  apply binary_round_aux_signed. lia.
Qed.

(** The double of a non-negative [int] is not negative. *)
Lemma SF2Prim_signed x : signed false x -> signed false (Prim2SF (SF2Prim x)).
Proof.
  destruct x as [s|s| |s m e]; cbn [signed]; try contradiction; intros ->.
  - vm_compute; reflexivity.
  - vm_compute; reflexivity.
  - cbn [SF2Prim]. rewrite Z_ldexp_spec, of_uint63_spec.
    destruct (Uint63.to_Z (Uint63.of_Z (Z.pos m))) as [|p|p] eqn:Hz;
      cbn [binary_normalize SFldexp].
    + reflexivity.
    + pose proof (binary_round_signed false p 0) as H.
      destruct (binary_round prec emax false p 0) as [s'|s'| |s' m' e'];
        cbn [signed SFldexp] in *; try contradiction; try assumption.
      subst s'. apply binary_round_signed.
    + pose proof (Uint63.to_Z_bounded (Uint63.of_Z (Z.pos m))). lia.
Qed.

Lemma float_of_int_signed n x :
  0 <= n -> Py.float_of_int n = Ok x -> signed false (Prim2SF x).
Proof.
  intros Hn. unfold Py.float_of_int.
  destruct n as [|p|p]; try lia; cbn [binary_normalize].
  - intros H; injection H as <-. vm_compute; reflexivity.
  - pose proof (binary_round_signed false p 0) as H.
    destruct (binary_round prec emax false p 0) as [s'|s'| |s' m' e'] eqn:E;
      cbn [signed] in H; try contradiction; try discriminate; subst s';
      intros H'.
    + assert (Hx : x = SF2Prim (S754_zero false)) by congruence.
      rewrite Hx. exact (SF2Prim_signed (S754_zero false) eq_refl).
    + assert (Hx : x = SF2Prim (S754_finite false m' e')) by congruence.
      rewrite Hx. exact (SF2Prim_signed (S754_finite false m' e') eq_refl).
Qed.

Lemma trunc_is_floor x n :
  signed false (Prim2SF x) ->
  Py.int_of_float x = Ok n -> Py.floor_of_float x = Ok n.
Proof.
  unfold Py.int_of_float, Py.floor_of_float.
  destruct (Prim2SF x) as [s|s| |s m e]; simpl; try contradiction; auto.
  intros ->. unfold Py.trunc_finite, Py.floor_finite. destruct e; auto.
Qed.

End Signs.

Lemma SFmul_not_nan_r x y : not_nan (SFmul prec emax x y) -> not_nan y.
Proof.
  unfold not_nan. intros H E. subst y. apply H.
  destruct x; reflexivity.
Qed.

Lemma int_of_float_not_nan x n : Py.int_of_float x = Ok n -> not_nan (Prim2SF x).
Proof.
  unfold Py.int_of_float, not_nan. intros H E. rewrite E in H. discriminate.
Qed.

Lemma add_days_in_range t n :
  -999999999 <= n <= 999999999 ->
  0 <= t + n * MICROSECONDS_PER_DAY < DATETIME_END ->
  add_days t n = Ok (t + n * MICROSECONDS_PER_DAY).
Proof.
  intros Hn Ht. unfold add_days.
  replace (n <? -999999999) with false by (symmetry; apply Z.ltb_ge; lia).
  replace (999999999 <? n) with false by (symmetry; apply Z.ltb_ge; lia).
  cbn [orb].
  replace (0 <=? t + n * MICROSECONDS_PER_DAY) with true
    by (symmetry; apply Z.leb_le; lia).
  replace (t + n * MICROSECONDS_PER_DAY <? DATETIME_END) with true
    by (symmetry; apply Z.ltb_lt; lia).
  reflexivity.
Qed.

Lemma add_days_ok t n d :
  add_days t n = Ok d -> d = t + n * MICROSECONDS_PER_DAY.
Proof.
  unfold add_days.
  destruct ((n <? -999999999) || (999999999 <? n)); [discriminate|].
  destruct ((0 <=? _) && _); [|discriminate].
  congruence.
Qed.

Lemma float_of_quality quality :
  0 <= quality <= 5 -> exists d, Py.float_of_int (5 - quality) = Ok d.
Proof.
  intros Hq.
  assert (Hcases : quality = 0 \/ quality = 1 \/ quality = 2 \/
                   quality = 3 \/ quality = 4 \/ quality = 5) by lia.
  destruct Hcases as [->|[->|[->|[->|[->| ->]]]]];
    eexists; vm_compute; reflexivity.
Qed.

(** What a returning call of [calculate_next_review] computes. *)
Lemma calculate_next_review_inv now quality ef interval repetitions out :
  calculate_next_review now quality ef interval repetitions = Ok out ->
  branch_rule Py.int_of_float now quality interval repetitions out.
Proof.
  destruct out as [[[ef' i'] r'] d']. intros H.
  unfold calculate_next_review in H.
  apply rbind_ok in H as (d & Hd & H).
  apply rbind_ok in H as ([nr ni] & Hs & H).
  apply rbind_ok in H as (nd & Hdate & H).
  injection H as <- <- <- <-.
  destruct (quality <? 3) eqn:Hq.
  - apply Z.ltb_lt in Hq. injection Hs as <- <-.
    unfold branch_rule. repeat split; auto; lia.
  - apply Z.ltb_ge in Hq.
    destruct (repetitions + 1 =? 1) eqn:H1.
    { apply Z.eqb_eq in H1. injection Hs as <- <-.
      unfold branch_rule. repeat split; auto; lia. }
    apply Z.eqb_neq in H1.
    destruct (repetitions + 1 =? 2) eqn:H2.
    { apply Z.eqb_eq in H2. injection Hs as <- <-.
      unfold branch_rule. repeat split; auto; lia. }
    apply Z.eqb_neq in H2.
    apply rbind_ok in Hs as (fi & Hfi & Hs).
    apply rbind_ok in Hs as (n & Hn & Hs).
    injection Hs as <- <-.
    unfold branch_rule. split; [lia|]. split; [|exact Hdate].
    intros _. repeat split; try lia.
    intros _ _. exists fi. auto.
Qed.

(** The call returns in the reset branch and in the first step when one
    more day stays in range, in the second step when six days do. *)
Lemma calculate_next_review_returns now quality ef interval repetitions :
  0 <= quality <= 5 ->
  0 <= now ->
  (quality < 3 \/ repetitions = 0 ->
   now + MICROSECONDS_PER_DAY < DATETIME_END ->
   exists out,
     calculate_next_review now quality ef interval repetitions = Ok out) /\
  (3 <= quality -> repetitions = 1 ->
   now + 6 * MICROSECONDS_PER_DAY < DATETIME_END ->
   exists out,
     calculate_next_review now quality ef interval repetitions = Ok out).
Proof.
  intros Hq Hnow.
  destruct (float_of_quality quality Hq) as [d Hd].
  unfold calculate_next_review. rewrite Hd. cbn [rbind].
  split.
  - intros Hbranch Hend.
    assert (H1 : add_days now 1 = Ok (now + 1 * MICROSECONDS_PER_DAY))
      by (apply add_days_in_range; unfold MICROSECONDS_PER_DAY in *; lia).
    destruct (quality <? 3) eqn:Hlt; cbn [rbind].
    + rewrite H1. cbn [rbind]. eauto.
    + apply Z.ltb_ge in Hlt. destruct Hbranch as [Hb| ->]; [lia|].
      change (0 + 1 =? 1) with true. cbn [rbind].
      rewrite H1. cbn [rbind]. eauto.
  - intros Hq3 -> Hend.
    assert (H6 : add_days now 6 = Ok (now + 6 * MICROSECONDS_PER_DAY))
      by (apply add_days_in_range; unfold MICROSECONDS_PER_DAY in *; lia).
    replace (quality <? 3) with false by (symmetry; apply Z.ltb_ge; lia).
    change (1 + 1 =? 1) with false. change (1 + 1 =? 2) with true.
    cbn [rbind]. rewrite H6. cbn [rbind]. eauto.
Qed.

(** With [repetitions = 0] the new interval is one day. *)
Lemma calculate_next_review_fresh now quality ef interval ef' i' r' d' :
  calculate_next_review now quality ef interval 0 = Ok (ef', i', r', d') ->
  i' = 1 /\ (r' = 0 \/ r' = 1) /\ d' = now + MICROSECONDS_PER_DAY.
Proof.
  intros H. apply calculate_next_review_inv in H.
  destruct H as (Hlow & Hhigh & Hdate).
  assert (Hi : i' = 1 /\ (r' = 0 \/ r' = 1)).
  { destruct (Z.lt_ge_cases quality 3) as [Hq|Hq].
    - destruct (Hlow Hq) as [-> ->]. auto.
    - destruct (Hhigh Hq) as (Hr & H1 & _). split; [apply H1|]; lia. }
  destruct Hi as [-> Hr]. repeat split; auto.
  apply add_days_ok in Hdate. lia.
Qed.

Lemma calculate_next_review_fresh_returns now quality ef interval :
  0 <= quality <= 5 ->
  0 <= now -> now + MICROSECONDS_PER_DAY < DATETIME_END ->
  exists out, calculate_next_review now quality ef interval 0 = Ok out.
Proof.
  intros Hq Hnow Hend.
  destruct (float_of_quality quality Hq) as [d Hd].
  unfold calculate_next_review. rewrite Hd. cbn [rbind].
  assert (H1 : add_days now 1 = Ok (now + 1 * MICROSECONDS_PER_DAY))
    by (apply add_days_in_range; unfold MICROSECONDS_PER_DAY in *; lia).
  destruct (quality <? 3) eqn:Hlt; cbn [rbind].
  - rewrite H1. cbn [rbind]. eauto.
  - change (0 + 1 =? 1) with true. cbn [rbind].
    rewrite H1. cbn [rbind]. eauto.
Qed.

(** C1: a returning call follows the SM-2 branch rule.  A quality below
    3 gives no repetitions and the interval 1; otherwise the repetitions
    are one more, the interval is 1 at the first, 6 at the second, and
    then [int(interval * new_ease_factor)], which for an interval that is
    not negative, as every stored interval is, is the floor of the
    product.  The next review date is the clock reading plus
    [new_interval] days.  For a quality from 0 to 5 the call returns in
    the reset branch and at the first repetition when one more day stays
    in the range of dates, at the second when six days do. *)
Theorem calculate_next_review_branch_rule
    now quality ef interval repetitions :
  (forall out,
     calculate_next_review now quality ef interval repetitions = Ok out ->
     branch_rule Py.int_of_float now quality interval repetitions out /\
     (0 <= interval ->
      branch_rule Py.floor_of_float now quality interval repetitions out)) /\
  (0 <= quality <= 5 ->
   0 <= now ->
   (quality < 3 \/ repetitions = 0 ->
    now + MICROSECONDS_PER_DAY < DATETIME_END ->
    exists out,
      calculate_next_review now quality ef interval repetitions = Ok out) /\
   (3 <= quality -> repetitions = 1 ->
    now + 6 * MICROSECONDS_PER_DAY < DATETIME_END ->
    exists out,
      calculate_next_review now quality ef interval repetitions = Ok out)).
Proof.
  split; [|apply calculate_next_review_returns].
  intros out H. pose proof (calculate_next_review_inv _ _ _ _ _ _ H) as Hrule.
  split; [exact Hrule|]. intros Hi.
  destruct out as [[[ef' i'] r'] d'].
  assert (Hef : exists d, ef' = Py.max (ef + (0.1 - d * (0.08 + d * 0.02)))%float MIN_EF).
  { unfold calculate_next_review in H.
    apply rbind_ok in H as (d & _ & H).
    apply rbind_ok in H as ([nr ni] & _ & H).
    apply rbind_ok in H as (nd & _ & H).
    injection H as <- _ _ _. eauto. }
  destruct Hef as [d ->].
  destruct Hrule as (Hlow & Hhigh & Hdate).
  unfold branch_rule. split; [exact Hlow|]. split; [|exact Hdate].
  intros Hq. destruct (Hhigh Hq) as (Hr & Hone & Htwo & Hm).
  split; [exact Hr|]. split; [exact Hone|]. split; [exact Htwo|].
  intros H1 H2.
  destruct (Hm H1 H2) as (fi & Hfi & Hn).
  exists fi. split; [exact Hfi|].
  apply trunc_is_floor; [|exact Hn].
  pose proof (int_of_float_not_nan _ _ Hn) as Hnn.
  rewrite mul_spec in *. unfold SF64mul in *.
  apply SFmul_signed; [| |exact Hnn].
  - exact (float_of_int_signed _ _ Hi Hfi).
  - apply max_MIN_EF_signed. exact (SFmul_not_nan_r _ _ Hnn).
Qed.

Lemma calculate_next_review_branch_rule_witness :
  branch_rule Py.floor_of_float 1000 4 6 2
    (2.5%float, 15, 3, 1000 + 15 * MICROSECONDS_PER_DAY) /\
  (exists out, calculate_next_review 1000 2 2.5%float 6 2 = Ok out) /\
  (exists out, calculate_next_review 1000 4 2.5%float 1 1 = Ok out).
Proof.
  destruct (calculate_next_review_branch_rule 1000 4 2.5%float 6 2) as [Ha _].
  destruct (Ha (2.5%float, 15, 3, 1000 + 15 * MICROSECONDS_PER_DAY)) as [_ H2].
  { vm_compute; reflexivity. }
  split; [apply H2; lia|].
  destruct (calculate_next_review_branch_rule 1000 2 2.5%float 6 2) as [_ Hb].
  destruct (calculate_next_review_branch_rule 1000 4 2.5%float 1 1) as [_ Hc].
  destruct (Hb ltac:(lia) ltac:(lia)) as [Hreset _].
  destruct (Hc ltac:(lia) ltac:(lia)) as [_ Hsecond].
  split.
  - apply Hreset; [left; lia | vm_compute; reflexivity].
  - apply Hsecond; [lia | reflexivity | vm_compute; reflexivity].
Defined.

(** ** The store: lookup and save *)

Section Store.

Import ReviewStrategy.

Lemma same_key_true w lang row :
  same_key w lang row = true <-> word row = w /\ language row = lang.
Proof.
  unfold same_key. rewrite andb_true_iff, !String.eqb_eq. reflexivity.
Qed.

Lemma same_key_refl row : same_key (word row) (language row) row = true.
Proof. apply same_key_true. auto. Qed.

Lemma _get_word_data_key rows w lang row :
  _get_word_data rows w lang = Some row -> word row = w /\ language row = lang.
Proof.
  induction rows as [|r rows IH]; simpl; [discriminate|].
  destruct (same_key w lang r) eqn:E; [|exact IH].
  intros H; injection H as <-. apply same_key_true, E.
Qed.

Lemma _get_word_data_In rows w lang row :
  _get_word_data rows w lang = Some row -> In row rows.
Proof.
  induction rows as [|r rows IH]; simpl; [discriminate|].
  destruct (same_key w lang r).
  - intros H; injection H as <-. left. reflexivity.
  - intros H. right. apply IH, H.
Qed.

(** *** Text read back *)

Lemma reread_plain row :
  plain (word row) -> plain (language row) -> reread row = rewritten row.
Proof.
  unfold plain, reread, rewritten. intros -> ->. reflexivity.
Qed.

(** A row that has its [next_review] is read again as it was. *)
Lemma rewritten_read row : next_review row <> Missing -> rewritten row = row.
Proof.
  destruct row as [w l n c lr nr ef i m]. unfold rewritten. cbn.
  intros H. destruct nr; [reflexivity.. | congruence].
Qed.

Lemma rewritten_naive row t : next_review row = Naive t -> rewritten row = row.
Proof. intros H. apply rewritten_read. rewrite H. discriminate. Qed.

Lemma same_key_rewritten w lang row :
  same_key w lang (rewritten row) = same_key w lang row.
Proof. reflexivity. Qed.


Lemma same_key_reread w lang row :
  same_key w lang (reread row)
  = String.eqb (universal_newlines (word row)) w &&
    String.eqb (universal_newlines (language row)) lang.
Proof. reflexivity. Qed.

(** *** Numbers that can be printed *)

Lemma one_digit : 1 < 10 ^ MAX_STR_DIGITS.
Proof. apply Z.pow_gt_1; unfold MAX_STR_DIGITS; lia. Qed.

Lemma str_raises_small n :
  Z.abs n < 10 ^ MAX_STR_DIGITS -> str_raises (Some n) = false.
Proof. intros H. unfold str_raises. apply Z.leb_gt, H. Qed.

Lemma unprintable_cells row :
  unprintable row = false <->
  str_raises (total_attempts row) = false /\
  str_raises (correct_attempts row) = false /\
  str_raises (interval row) = false.
Proof.
  unfold unprintable. rewrite !orb_false_iff. tauto.
Qed.

(** *** The save *)

(** A row that can be printed is stored and the call returns. *)
Lemma _save_word_data_printable rows word_data :
  unprintable word_data = false ->
  _save_word_data rows word_data = (stored rows word_data, None).
Proof.
  intros Hp. induction rows as [|r rows IH]; cbn [_save_word_data stored].
  - rewrite Hp. reflexivity.
  - destruct (same_key (word word_data) (language word_data) r).
    + rewrite Hp. reflexivity.
    + rewrite IH. reflexivity.
Qed.

(** One that cannot be printed stops the writer: the rows before its
    place are in the file, the others are lost. *)
Lemma _save_word_data_unprintable rows word_data :
  unprintable word_data = true ->
  exists n,
    _save_word_data rows word_data
    = (map rewritten (take n rows), Some ValueError).
Proof.
  intros Hp. induction rows as [|r rows IH]; cbn [_save_word_data].
  - rewrite Hp. exists 0%nat. reflexivity.
  - destruct (same_key (word word_data) (language word_data) r).
    + rewrite Hp. exists 0%nat. reflexivity.
    + destruct IH as [n ->]. exists (S n). reflexivity.
Qed.

(** A known key: the row takes the place of the old one. *)
Lemma _get_word_data_stored_known rows word_data old :
  _get_word_data rows (word word_data) (language word_data) = Some old ->
  _get_word_data (stored rows word_data) (word word_data) (language word_data)
  = Some (rewritten word_data).
Proof.
  induction rows as [|r rows IH]; cbn [_get_word_data stored]; [discriminate|].
  destruct (same_key (word word_data) (language word_data) r) eqn:E.
  - intros _. cbn [_get_word_data].
    rewrite same_key_rewritten, same_key_refl. reflexivity.
  - intros H. cbn [_get_word_data]. rewrite same_key_rewritten, E. apply IH, H.
Qed.

(** A new key: the row goes to the end, as it is read back. *)
Lemma stored_new rows word_data :
  _get_word_data rows (word word_data) (language word_data) = None ->
  stored rows word_data = map rewritten rows ++ [reread word_data].
Proof.
  induction rows as [|r rows IH]; cbn [_get_word_data stored app map];
    [reflexivity|].
  destruct (same_key (word word_data) (language word_data) r); [discriminate|].
  intros H. rewrite (IH H). reflexivity.
Qed.



(** What holds of the rows, and goes on holding of a row read again,
    holds of the stored rows when it holds of the new one. *)
Lemma stored_Forall (P : Row -> Prop) rows word_data :
  (forall row, P row -> P (rewritten row)) ->
  Forall P rows -> P word_data -> P (reread word_data) ->
  Forall P (stored rows word_data).
Proof.
  intros Hkeep Hall Hwd Hre.
  induction rows as [|r rows IH]; cbn [stored].
  - constructor; [exact Hre | constructor].
  - apply Forall_cons in Hall as [Hr Hall].
    destruct (same_key (word word_data) (language word_data) r).
    + constructor; [apply Hkeep, Hwd|].
      apply Forall_map. eapply Forall_impl; [exact Hall | exact Hkeep].
    + constructor; [apply Hkeep, Hr | apply IH, Hall].
Qed.

Lemma stored_length rows word_data :
  (length rows <= length (stored rows word_data) <= S (length rows))%nat.
Proof.
  induction rows as [|r rows IH]; cbn [stored length]; [lia|].
  destruct (same_key (word word_data) (language word_data) r); cbn [length];
    rewrite ?length_map; lia.
Qed.

Lemma quality_from_performance_range is_correct time_spent :
  2 <= SM2Algorithm.quality_from_performance is_correct time_spent <= 5.
Proof.
  unfold SM2Algorithm.quality_from_performance.
  destruct is_correct; simpl; [|lia].
  destruct time_spent as [t|]; [|lia].
  destruct (Py.lt_int t 3); [lia|].
  destruct (Py.lt_int t 10); lia.
Qed.

(** The row that [update_word_progress] makes. *)
Lemma new_word_data_inv rows t_sched t_stamp w lang is_correct time_spent word_data :
  new_word_data rows t_sched t_stamp w lang is_correct time_spent = Ok word_data ->
  word word_data = w /\ language word_data = lang /\
  last_review word_data = Some t_stamp /\
  interval word_data = Some 1 /\
  next_review word_data = Naive (t_sched + MICROSECONDS_PER_DAY) /\
  (exists ef, ease_factor word_data = Some ef) /\
  match _get_word_data rows w lang with
  | None =>
    total_attempts word_data = Some 1 /\
    correct_attempts word_data = Some (Z.b2z is_correct) /\
    mastery_level word_data = Some (if is_correct then 1 else 0)%float
  | Some old =>
    exists n c m,
      total_attempts old = Some n /\ correct_attempts old = Some c /\
      total_attempts word_data = Some (n + 1) /\
      correct_attempts word_data = Some (c + Z.b2z is_correct) /\
      Py.int_truediv (c + Z.b2z is_correct) (n + 1) = Ok m /\
      mastery_level word_data = Some m
  end.
Proof.
  unfold new_word_data. intros Hwd.
  destruct (_get_word_data rows w lang) as [old|] eqn:Hget.
  - apply _get_word_data_key in Hget as [Hw Hl].
    apply rbind_ok in Hwd as (n & Hn & Hwd).
    apply rbind_ok in Hwd as (c & Hc & Hwd).
    apply rbind_ok in Hwd as (m & Hm & Hwd).
    apply rbind_ok in Hwd as (old_ef & Hef & Hwd).
    apply rbind_ok in Hwd as (old_i & Hi & Hwd).
    apply rbind_ok in Hwd as ([[[ef' i'] r'] d'] & Hs & Hwd).
    apply calculate_next_review_fresh in Hs as (-> & _ & ->).
    injection Hwd as <-. cbn.
    repeat split; eauto.
    exists n, c, m.
    destruct (total_attempts old); [|discriminate].
    destruct (correct_attempts old); [|discriminate].
    injection Hn as ->. injection Hc as ->.
    destruct is_correct; repeat split; auto.
  - apply rbind_ok in Hwd as ([[[ef' i'] r'] d'] & Hs & Hwd).
    apply calculate_next_review_fresh in Hs as (-> & _ & ->).
    injection Hwd as <-. cbn.
    destruct is_correct; repeat split; eauto.
Qed.

(** A returning update made a row, could print it and stored it. *)
Lemma update_word_progress_stored rows t_sched t_stamp w lang is_correct time_spent rows' :
  update_word_progress rows t_sched t_stamp w lang is_correct time_spent = Ok rows' ->
  exists word_data,
    new_word_data rows t_sched t_stamp w lang is_correct time_spent = Ok word_data /\
    unprintable word_data = false /\
    rows' = stored rows word_data.
Proof.
  unfold update_word_progress. intros H.
  apply rbind_ok in H as (word_data & Hwd & H).
  exists word_data. split; [exact Hwd|].
  destruct (unprintable word_data) eqn:Hp.
  - destruct (_save_word_data_unprintable rows word_data Hp) as [n Hs].
    rewrite Hs in H. discriminate.
  - rewrite (_save_word_data_printable _ _ Hp) in H.
    injection H as <-. auto.
Qed.

Lemma update_word_progress_inv rows t_sched t_stamp w lang is_correct time_spent rows' :
  update_word_progress rows t_sched t_stamp w lang is_correct time_spent = Ok rows' ->
  exists word_data,
    rows' = stored rows word_data /\
    word word_data = w /\ language word_data = lang /\
    last_review word_data = Some t_stamp /\
    interval word_data = Some 1 /\
    next_review word_data = Naive (t_sched + MICROSECONDS_PER_DAY) /\
    (exists ef, ease_factor word_data = Some ef) /\
    match _get_word_data rows w lang with
    | None =>
      total_attempts word_data = Some 1 /\
      correct_attempts word_data = Some (Z.b2z is_correct) /\
      mastery_level word_data = Some (if is_correct then 1 else 0)%float
    | Some old =>
      exists n c m,
        total_attempts old = Some n /\ correct_attempts old = Some c /\
        total_attempts word_data = Some (n + 1) /\
        correct_attempts word_data = Some (c + Z.b2z is_correct) /\
        Py.int_truediv (c + Z.b2z is_correct) (n + 1) = Ok m /\
        mastery_level word_data = Some m
    end.
Proof.
  intros H.
  apply update_word_progress_stored in H as (word_data & Hwd & _ & ->).
  exists word_data. split; [reflexivity|].
  exact (new_word_data_inv _ _ _ _ _ _ _ _ Hwd).
Qed.

(** When an update returns: the clock leaves room for a day, the old
    row, if there is one, can be read, and its counts can still be
    printed when one is added. *)
Lemma update_word_progress_returns rows t_sched t_stamp w lang is_correct time_spent :
  0 <= t_sched -> t_sched + MICROSECONDS_PER_DAY < DATETIME_END ->
  match _get_word_data rows w lang with
  | None => True
  | Some old =>
    exists n c ef i,
      total_attempts old = Some n /\ correct_attempts old = Some c /\
      ease_factor old = Some ef /\ interval old = Some i /\
      is_ok (Py.int_truediv (c + Z.b2z is_correct) (n + 1)) = true /\
      Z.abs (n + 1) < 10 ^ MAX_STR_DIGITS /\
      Z.abs (c + Z.b2z is_correct) < 10 ^ MAX_STR_DIGITS
  end ->
  exists rows',
    update_word_progress rows t_sched t_stamp w lang is_correct time_spent = Ok rows'.
Proof.
  intros Ht0 Ht1 Hold.
  pose proof (quality_from_performance_range is_correct time_spent) as Hq.
  pose proof one_digit as H1.
  assert (Hwd : exists word_data,
            new_word_data rows t_sched t_stamp w lang is_correct time_spent
            = Ok word_data /\ unprintable word_data = false).
  { unfold new_word_data.
    destruct (_get_word_data rows w lang) as [old|].
    - destruct Hold as (n & c & ef & i & -> & -> & -> & -> & Hdiv & Hn & Hc).
      cbn [read rbind].
      replace (c + (if is_correct then 1 else 0)) with (c + Z.b2z is_correct)
        by (destruct is_correct; reflexivity).
      destruct (Py.int_truediv (c + Z.b2z is_correct) (n + 1)) as [m|];
        [|discriminate]. cbn [rbind].
      destruct (calculate_next_review_fresh_returns t_sched
                  (SM2Algorithm.quality_from_performance is_correct time_spent)
                  ef i ltac:(lia) Ht0 Ht1) as [[[[ef' i'] r'] d'] Hs].
      rewrite Hs. cbn [rbind].
      apply calculate_next_review_fresh in Hs as (-> & _ & _).
      eexists. split; [reflexivity|].
      apply unprintable_cells.
      cbn [total_attempts correct_attempts interval].
      split; [|split]; apply str_raises_small;
        [exact Hn | exact Hc | simpl; lia].
    - destruct (calculate_next_review_fresh_returns t_sched
                  (SM2Algorithm.quality_from_performance is_correct time_spent)
                  2.5%float 0 ltac:(lia) Ht0 Ht1) as [[[[ef' i'] r'] d'] Hs].
      rewrite Hs. cbn [rbind].
      apply calculate_next_review_fresh in Hs as (-> & _ & _).
      eexists. split; [reflexivity|].
      apply unprintable_cells.
      cbn [total_attempts correct_attempts interval].
      split; [|split]; apply str_raises_small;
        destruct is_correct; simpl; lia. }
  destruct Hwd as (word_data & Hwd & Hp).
  unfold update_word_progress. rewrite Hwd. cbn [rbind].
  rewrite (_save_word_data_printable _ _ Hp). eauto.
Qed.

(** The file after a call: the old file when the call raised before the
    save, a prefix of it, written again, when it raised in the save, and
    the stored rows when it returned. *)
Lemma file_after_update_cases rows t_sched t_stamp w lang is_correct time_spent :
  file_after_update rows t_sched t_stamp w lang is_correct time_spent = rows \/
  (exists n,
     file_after_update rows t_sched t_stamp w lang is_correct time_spent
     = map rewritten (take n rows)) \/
  update_word_progress rows t_sched t_stamp w lang is_correct time_spent
  = Ok (file_after_update rows t_sched t_stamp w lang is_correct time_spent).
Proof.
  unfold file_after_update, update_word_progress.
  destruct (new_word_data _ _ _ _ _ _ _) as [word_data|e]; cbn [rbind].
  - destruct (unprintable word_data) eqn:Hp.
    + destruct (_save_word_data_unprintable rows word_data Hp) as [n ->].
      right. left. exists n. reflexivity.
    + rewrite (_save_word_data_printable _ _ Hp). right. right. reflexivity.
  - left. reflexivity.
Qed.

End Store.

(** C2: the row that [update_word_progress] saves, for a new word or a
    known one, a right or a wrong answer and any [time_spent], has
    interval 1 and its next review one day after the clock reading of the
    scheduler, because the scheduler is called with [repetitions = 0] and
    then stays out of its 6-day and multiplying branches.  The row of a
    known word takes the place of the old one; the row of a new word is
    the last of the file, after the rows that were there, written again,
    and its word and language are as they are read back.
    The call returns whenever the date stays in range and the old row,
    if there is one, can be read, divided and, with one answer more,
    printed. *)
Theorem update_word_progress_one_day
    rows t_sched t_stamp w lang is_correct time_spent :
  (forall rows',
     ReviewStrategy.update_word_progress rows t_sched t_stamp w lang
       is_correct time_spent = Ok rows' ->
     exists row,
       In row rows' /\
       interval row = Some 1 /\
       next_review row = Naive (t_sched + MICROSECONDS_PER_DAY) /\
       last_review row = Some t_stamp /\
       match ReviewStrategy._get_word_data rows w lang with
       | Some old => ReviewStrategy._get_word_data rows' w lang = Some row
       | None =>
         rows' = map rewritten rows ++ [row] /\
         word row = universal_newlines w /\
         language row = universal_newlines lang
       end) /\
  (forall quality ef old_interval ef' i' r' d',
     SM2Algorithm.calculate_next_review t_sched quality ef old_interval 0
       = Ok (ef', i', r', d') ->
     i' = 1 /\ (r' = 0 \/ r' = 1) /\ d' = t_sched + MICROSECONDS_PER_DAY) /\
  (0 <= t_sched -> t_sched + MICROSECONDS_PER_DAY < DATETIME_END ->
   match ReviewStrategy._get_word_data rows w lang with
   | None => True
   | Some old =>
     exists n c ef i,
       total_attempts old = Some n /\ correct_attempts old = Some c /\
       ease_factor old = Some ef /\ interval old = Some i /\
       is_ok (Py.int_truediv (c + Z.b2z is_correct) (n + 1)) = true /\
       Z.abs (n + 1) < 10 ^ MAX_STR_DIGITS /\
       Z.abs (c + Z.b2z is_correct) < 10 ^ MAX_STR_DIGITS
   end ->
   exists rows',
     ReviewStrategy.update_word_progress rows t_sched t_stamp w lang
       is_correct time_spent = Ok rows').
Proof.
  split; [|split; [|apply update_word_progress_returns]].
  - intros rows' H.
    apply update_word_progress_inv in H
      as (word_data & -> & Hw & Hl & Hs & Hi & Hn & _ & _).
    destruct (ReviewStrategy._get_word_data rows w lang) as [old|] eqn:Hget.
    + exists word_data. subst w lang.
      pose proof (_get_word_data_stored_known _ _ _ Hget) as Hfound.
      rewrite (rewritten_naive _ _ Hn) in Hfound.
      split; [exact (_get_word_data_In _ _ _ _ Hfound)|].
      split; [exact Hi|]. split; [exact Hn|]. split; [exact Hs|].
      exact Hfound.
    + exists (reread word_data). subst w lang.
      rewrite (stored_new _ _ Hget).
      split; [apply in_or_app; right; left; reflexivity|].
      split; [exact Hi|].
      split; [cbn [reread next_review]; rewrite Hn; reflexivity|].
      split; [exact Hs|].
      split; [reflexivity|]. split; reflexivity.
  - intros quality ef old_interval ef' i' r' d'.
    apply calculate_next_review_fresh.
Qed.

Lemma update_word_progress_one_day_witness :
  (exists row,
     In row [{| word := "cat"; language := "en";
                total_attempts := Some 5; correct_attempts := Some 3;
                last_review := Some 1001;
                next_review := Naive (1000 + MICROSECONDS_PER_DAY);
                ease_factor := Some 2.6%float; interval := Some 1;
                mastery_level := Some 0.6%float |}] /\
     interval row = Some 1 /\
     next_review row = Naive (1000 + MICROSECONDS_PER_DAY) /\
     last_review row = Some 1001 /\
     ReviewStrategy._get_word_data
       [{| word := "cat"; language := "en";
           total_attempts := Some 5; correct_attempts := Some 3;
           last_review := Some 1001;
           next_review := Naive (1000 + MICROSECONDS_PER_DAY);
           ease_factor := Some 2.6%float; interval := Some 1;
           mastery_level := Some 0.6%float |}] "cat" "en" = Some row) /\
  (1 = 1 /\ (1 = 0 \/ 1 = 1) /\
   1000 + MICROSECONDS_PER_DAY = 1000 + MICROSECONDS_PER_DAY) /\
  exists rows',
    ReviewStrategy.update_word_progress [sample_row] 1000 1001 "cat" "en"
      true None = Ok rows'.
Proof.
  destruct (update_word_progress_one_day [sample_row] 1000 1001 "cat" "en"
              true None) as (Ha & Hs & Hb).
  split; [|split].
  - apply Ha. vm_compute. reflexivity.
  - apply (Hs 4 2.6%float 6 2.6%float 1 1 (1000 + MICROSECONDS_PER_DAY)).
    vm_compute. reflexivity.
  - apply Hb; [lia | vm_compute; reflexivity |].
    exists 4, 2, 2.6%float, 6.
    repeat split; try (vm_compute; reflexivity).
Defined.

(** ** True division of integers *)

Section Division.

Lemma digits2_pos_size p : digits2_pos p = Pos.size p.
Proof. induction p; simpl; congruence. Qed.

Lemma Zdigits2_nonneg m : 0 <= Zdigits2 m.
Proof. destruct m; simpl; lia. Qed.

Lemma Zdigits2_gt m : 0 <= m -> m < 2 ^ Zdigits2 m.
Proof.
  destruct m as [|p|p]; simpl; try lia. intros _.
  rewrite digits2_pos_size.
  pose proof (Pos.size_gt p) as H.
  rewrite <- Pos2Z.inj_pow. lia.
Qed.

Lemma Zdigits2_le m k : 0 <= m < 2 ^ k -> 0 <= k -> Zdigits2 m <= k.
Proof.
  intros [H0 Hk] Hk0.
  destruct m as [|p|p]; simpl; try lia.
  rewrite digits2_pos_size.
  pose proof (Pos.size_le p) as H.
  destruct (Z.le_gt_cases (Z.pos (Pos.size p)) k) as [|Hgt]; [assumption|].
  exfalso.
  assert (H2 : 2 ^ (k + 1) <= 2 ^ Z.pos (Pos.size p))
    by (apply Z.pow_le_mono_r; lia).
  rewrite Z.pow_add_r in H2 by lia.
  assert (H3 : 2 ^ Z.pos (Pos.size p) <= Z.pos p~0)
    by (rewrite <- Pos2Z.inj_pow; lia).
  lia.
Qed.

Lemma Zdigits2_succ m : 0 <= m -> Zdigits2 (m + 1) <= Zdigits2 m + 1.
Proof.
  intros H. pose proof (Zdigits2_gt m H). pose proof (Zdigits2_nonneg m).
  apply Zdigits2_le; [|lia].
  rewrite Z.pow_add_r by lia. lia.
Qed.

Lemma round_nearest_even_digits m l :
  0 <= m -> Zdigits2 (round_nearest_even m l) <= Zdigits2 m + 1.
Proof.
  intros H. pose proof (Zdigits2_succ m H).
  destruct l as [|[]]; simpl; try lia.
  destruct (Z.even m); lia.
Qed.

Lemma shr_1_digits mrs :
  0 <= shr_m mrs ->
  Zdigits2 (shr_m (shr_1 mrs)) = Z.max 0 (Zdigits2 (shr_m mrs) - 1).
Proof.
  destruct mrs as [m r s]; simpl.
  destruct m as [|[p|p|]|[p|p|]]; simpl; lia.
Qed.

Lemma iter_shr_1_digits p : forall k d mrs,
  0 <= k -> 0 <= shr_m mrs ->
  Zdigits2 (shr_m mrs) <= Z.max 0 (d - k) ->
  Zdigits2 (shr_m (SpecFloat.iter_pos shr_1 p mrs)) <= Z.max 0 (d - (k + Z.pos p)).
Proof.
  assert (Hstep : forall k d mrs, 0 <= k -> 0 <= shr_m mrs ->
            Zdigits2 (shr_m mrs) <= Z.max 0 (d - k) ->
            Zdigits2 (shr_m (shr_1 mrs)) <= Z.max 0 (d - (k + 1))).
  { intros k d mrs Hk H0 H. rewrite shr_1_digits by exact H0. lia. }
  induction p as [p IH|p IH|]; intros k d mrs Hk H0 H; simpl.
  - replace (k + Z.pos p~1) with ((k + 1 + Z.pos p) + Z.pos p) by lia.
    apply IH; [lia | apply iter_shr_1_nonneg, shr_1_nonneg, H0 |].
    apply IH; [lia | apply shr_1_nonneg, H0 |].
    apply Hstep; assumption.
  - replace (k + Z.pos p~0) with ((k + Z.pos p) + Z.pos p) by lia.
    apply IH; [lia | apply iter_shr_1_nonneg, H0 |].
    apply IH; assumption.
  - apply Hstep; assumption.
Qed.

(** The exponent and the size of the mantissa after [shr_fexp]. *)
Lemma shr_fexp_bounds m e l mrs e' :
  0 <= m ->
  shr_fexp prec emax m e l = (mrs, e') ->
  0 <= shr_m mrs /\
  e' = Z.max e (fexp prec emax (Zdigits2 m + e)) /\
  Zdigits2 (shr_m mrs) + e' <= Z.max (Zdigits2 m + e) e'.
Proof.
  intros Hm H.
  pose proof (shr_fexp_nonneg m e l Hm) as Hn. rewrite H in Hn. simpl in Hn.
  split; [exact Hn|].
  unfold shr_fexp, shr in H.
  assert (Hrec : shr_m (shr_record_of_loc m l) = m) by (destruct l as [|[]]; reflexivity).
  destruct (fexp prec emax (Zdigits2 m + e) - e) as [|n|n] eqn:Hsh;
    injection H as <- <-.
  - rewrite Hrec. lia.
  - split; [lia|].
    pose proof (iter_shr_1_digits n 0 (Zdigits2 m) (shr_record_of_loc m l)
                  ltac:(lia) ltac:(rewrite Hrec; exact Hm)
                  ltac:(rewrite Hrec; pose proof (Zdigits2_nonneg m); lia)) as Hd.
    lia.
  - rewrite Hrec. lia.
Qed.

(** Rounding a value below [2^1023] does not overflow. *)
Lemma binary_round_aux_finite s m e l :
  0 <= m -> Zdigits2 m + e <= 1023 -> e <= 971 ->
  finite (binary_round_aux prec emax s m e l).
Proof.
  intros Hm HD He. unfold binary_round_aux.
  destruct (shr_fexp prec emax m e l) as [mrs' e'] eqn:H1.
  apply shr_fexp_bounds in H1 as (Hn1 & He' & Hd1); [|exact Hm].
  set (m1 := round_nearest_even (shr_m mrs') (loc_of_shr_record mrs')).
  assert (Hm1 : 0 <= m1) by (apply round_nearest_even_nonneg, Hn1).
  pose proof (round_nearest_even_digits (shr_m mrs') (loc_of_shr_record mrs') Hn1) as Hr.
  fold m1 in Hr.
  destruct (shr_fexp prec emax m1 e' loc_Exact) as [mrs'' e''] eqn:H2.
  apply shr_fexp_bounds in H2 as (Hn2 & He'' & _); [|exact Hm1].
  assert (Hle : e'' <= 971).
  { unfold fexp, SpecFloat.emin, prec, emax in *. lia. }
  destruct (shr_m mrs'') as [|p|p]; [exact I| |lia].
  replace (e'' <=? emax - prec) with true
    by (symmetry; apply Z.leb_le; unfold emax, prec; lia).
  exact I.
Qed.



End Division.

(** ** The two scans of the store *)

Section Scans.

Import ReviewStrategy.

(** With a limit of at least one the scan raises [TypeError] or returns
    the first [limit] due rows, in file order; rows whose [next_review]
    is garbled are passed over. *)
Lemma due_loop_cases lang now limit rows : forall words_due,
  Z.of_nat (length words_due) < limit ->
  due_loop lang now limit rows words_due
  = Ok (words_due ++ take (Z.to_nat limit - length words_due)
                          (List.filter (is_due lang now) rows)) \/
  due_loop lang now limit rows words_due = Raise TypeError.
Proof.
  induction rows as [|row rest IH]; intros acc Hacc; cbn [due_loop List.filter].
  - left. rewrite take_nil, app_nil_r. reflexivity.
  - unfold is_due at 1.
    destruct (String.eqb (language row) lang); cbn [negb andb]; [|apply IH, Hacc].
    destruct (next_review row) as [t| | |]; [|apply IH, Hacc|right; reflexivity..].
    destruct (t <=? now) eqn:Ht.
    + rewrite length_app. simpl length.
      destruct (Z.of_nat (length acc + 1) >=? limit) eqn:Hl.
      * left. apply Z.geb_le in Hl.
        replace (Z.to_nat limit - length acc)%nat with 1%nat by lia.
        simpl. rewrite take_0. reflexivity.
      * rewrite Z.geb_leb in Hl. apply Z.leb_gt in Hl.
        destruct (IH (acc ++ [row])) as [-> | ->];
          [rewrite length_app; simpl; lia | left | right; reflexivity].
        rewrite length_app. simpl length.
        replace (Z.to_nat limit - length acc)%nat
          with (S (Z.to_nat limit - (length acc + 1)))%nat by lia.
        simpl. rewrite <- app_assoc. reflexivity.
    + replace (Z.of_nat (length acc) >=? limit) with false
        by (symmetry; rewrite Z.geb_leb; apply Z.leb_gt; lia).
      apply IH, Hacc.
Qed.

(** Without a row of the language whose [next_review] is missing or has
    an offset the scan returns. *)
Lemma due_loop_returns lang now limit rows : forall words_due,
  Forall (fun row => unordered lang row = false) rows ->
  exists l, due_loop lang now limit rows words_due = Ok l.
Proof.
  induction rows as [|row rest IH]; intros acc Hall; cbn [due_loop].
  - eauto.
  - apply Forall_cons in Hall as [Hrow Hall]. unfold unordered in Hrow.
    destruct (String.eqb (language row) lang); cbn [negb andb] in *;
      [|apply IH, Hall].
    destruct (next_review row) as [t| | |]; try discriminate; [|apply IH, Hall].
    destruct (Z.of_nat (length _) >=? limit); [eauto | apply IH, Hall].
Qed.

Lemma get_words_due_for_review_spec rows now lang limit words_due :
  1 <= limit ->
  get_words_due_for_review rows now lang limit = Ok words_due ->
  words_due = take (Z.to_nat limit) (List.filter (is_due lang now) rows).
Proof.
  intros Hl. unfold get_words_due_for_review.
  destruct (due_loop_cases lang now limit rows []) as [-> | ->];
    [simpl; lia | | discriminate].
  intros H. injection H as <-.
  simpl. rewrite Nat.sub_0_r. reflexivity.
Qed.

Lemma get_words_due_for_review_returns rows now lang limit :
  Forall (fun row => unordered lang row = false) rows ->
  exists words_due, get_words_due_for_review rows now lang limit = Ok words_due.
Proof. apply due_loop_returns. Qed.

(** So, for a limit of at least one: at most [limit] rows, every one of
    the language asked for and due, in file order. *)
Lemma get_words_due_for_review_bound rows now lang limit words_due :
  1 <= limit ->
  get_words_due_for_review rows now lang limit = Ok words_due ->
  Z.of_nat (length words_due) <= limit.
Proof.
  intros Hl H. rewrite (get_words_due_for_review_spec _ _ _ _ _ Hl H).
  rewrite length_take. lia.
Qed.

Lemma is_due_spec lang now row :
  is_due lang now row = true <->
  language row = lang /\ exists t, next_review row = Naive t /\ t <= now.
Proof.
  unfold is_due. rewrite andb_true_iff, String.eqb_eq.
  destruct (next_review row) as [t| | |].
  - rewrite Z.leb_le. split.
    + intros [H1 H2]. eauto.
    + intros (H1 & t' & Ht & Hle). injection Ht as <-. auto.
  - split; [intros [_ H]; discriminate|].
    intros (_ & t & Ht & _). discriminate.
  - split; [intros [_ H]; discriminate|].
    intros (_ & t & Ht & _). discriminate.
  - split; [intros [_ H]; discriminate|].
    intros (_ & t & Ht & _). discriminate.
Qed.

Lemma get_words_due_for_review_due rows now lang limit words_due row :
  1 <= limit ->
  get_words_due_for_review rows now lang limit = Ok words_due ->
  In row words_due ->
  In row rows /\ language row = lang /\
  exists t, next_review row = Naive t /\ t <= now.
Proof.
  intros Hl Hq. rewrite (get_words_due_for_review_spec _ _ _ _ _ Hl Hq).
  intros H. apply list_elem_of_In, elem_of_take in H as (i & H & _).
  apply list_elem_of_lookup_2, list_elem_of_In, filter_In in H as [Hin Hdue].
  split; [exact Hin|]. apply is_due_spec, Hdue.
Qed.

Lemma filter_sublist {A : Type} (f : A -> bool) (l : list A) :
  sublist (List.filter f l) l.
Proof.
  induction l as [|x l IH]; cbn [List.filter]; [constructor|].
  destruct (f x); [apply sublist_skip | apply sublist_cons]; exact IH.
Qed.

(** A row whose mastery cannot be read stops the statistics scan. *)
Lemma stats_loop_raises lang rows : forall acc,
  Exists (fun row =>
            mastery_level row = None /\
            match lang with
            | Some l => l = "" \/ language row = l
            | None => True
            end) rows ->
  exists e, stats_loop lang rows acc = Raise e.
Proof.
  induction rows as [|row rest IH]; intros acc Hex.
  - apply Exists_nil in Hex. contradiction.
  - destruct acc as [[[tw mw] lw] tm]. cbn [stats_loop].
    destruct (match lang with
              | Some l => negb (String.eqb l "") && negb (String.eqb (language row) l)
              | None => false
              end) eqn:Hskip.
    + apply IH. apply Exists_cons in Hex as [[_ Hl]|Hex]; [|exact Hex].
      exfalso. destruct lang as [l|]; [|discriminate].
      apply andb_true_iff in Hskip as [H1 H2].
      apply negb_true_iff in H1, H2.
      apply String.eqb_neq in H1, H2. destruct Hl; congruence.
    + destruct (mastery_level row) as [m|] eqn:Hm; cbn [read rbind].
      * apply Exists_cons in Hex as [[Hnone _]|Hex]; [congruence|].
        destruct (PrimFloat.leb 0.8 m); apply IH, Hex.
      * eauto.
Qed.

Lemma get_mastery_stats_raises round1 rows lang :
  Exists (fun row =>
            mastery_level row = None /\
            match lang with
            | Some l => l = "" \/ language row = l
            | None => True
            end) rows ->
  exists e, get_mastery_stats round1 rows lang = Raise e.
Proof.
  intros H. unfold get_mastery_stats.
  destruct (stats_loop_raises lang rows (0, 0, 0, 0%float) H) as [e ->].
  eauto.
Qed.

End Scans.

(** C8: for a limit of at least one, as the composer passes it, a
    returning due-word query gives at most [limit] rows, each of them a
    row of the language asked for whose [next_review] is not after [now],
    in the order of the file and not sorted: they are the first due rows.
    The query returns when no row of the language has a [next_review]
    that is missing or has a UTC offset. *)
Theorem get_words_due_for_review_in_order rows now lang limit :
  1 <= limit ->
  (forall words_due,
     ReviewStrategy.get_words_due_for_review rows now lang limit = Ok words_due ->
     Z.of_nat (length words_due) <= limit /\
     Forall (fun row =>
               language row = lang /\
               exists t, next_review row = Naive t /\ t <= now) words_due /\
     sublist words_due rows /\
     exists later, List.filter (is_due lang now) rows = words_due ++ later) /\
  (Forall (fun row => unordered lang row = false) rows ->
   exists words_due,
     ReviewStrategy.get_words_due_for_review rows now lang limit = Ok words_due).
Proof.
  intros Hl. split; [|apply get_words_due_for_review_returns].
  intros words_due H.
  split; [exact (get_words_due_for_review_bound _ _ _ _ _ Hl H)|].
  split; [|split].
  - apply Forall_forall. intros row Hrow.
    apply (get_words_due_for_review_due _ _ _ _ _ _ Hl H), list_elem_of_In, Hrow.
  - rewrite (get_words_due_for_review_spec _ _ _ _ _ Hl H).
    etransitivity; [apply sublist_take | apply filter_sublist].
  - rewrite (get_words_due_for_review_spec _ _ _ _ _ Hl H).
    eexists. symmetry. apply take_drop.
Qed.

Lemma get_words_due_for_review_in_order_witness :
  Z.of_nat (length [sample_row; sample_row]) <= 2 /\
  Forall (fun row =>
            language row = "en" /\
            exists t, next_review row = Naive t /\ t <= 10)
         [sample_row; sample_row] /\
  sublist [sample_row; sample_row]
          [sample_row; garbled_row; sample_row; sample_row] /\
  exists later,
    List.filter (is_due "en" 10)
      [sample_row; garbled_row; sample_row; sample_row]
    = [sample_row; sample_row] ++ later.
Proof.
  destruct (get_words_due_for_review_in_order
              [sample_row; garbled_row; sample_row; sample_row] 10 "en" 2)
    as [H _]; [lia|].
  apply H. vm_compute. reflexivity.
Defined.

(** At the limit 0, which no caller passes, the scan adds the first due
    row before it looks at the limit, and returns one row. *)
Example get_words_due_for_review_limit_zero :
  ReviewStrategy.get_words_due_for_review [sample_row; sample_row] 10 "en" 0
  = Ok [sample_row].
Proof. vm_compute. reflexivity. Qed.

(** C4 on the statistics scan: [float(row['mastery_level'])] is outside
    any [try], so one row that cannot be read ends the scan with
    [ValueError], the rows before and after it notwithstanding. *)
Lemma get_mastery_stats_garbled_row (round1 : float -> float) :
  ReviewStrategy.get_mastery_stats round1 [sample_row; garbled_row; sample_row]
    (Some "en") = Raise ValueError.
Proof. vm_compute. reflexivity. Qed.

(** The due-word scan passes over the same row. *)
Example get_words_due_for_review_garbled_row :
  ReviewStrategy.get_words_due_for_review
    [garbled_row; sample_row; garbled_row; sample_row] 10 "en" 5
  = Ok [sample_row; sample_row].
Proof. vm_compute. reflexivity. Qed.

(** It stops, with [TypeError], at a row of the language that is too
    short to have its [next_review] or whose [next_review] has a UTC
    offset. *)
Example get_words_due_for_review_short_row :
  ReviewStrategy.get_words_due_for_review [sample_row; short_row] 10 "en" 5
  = Raise TypeError /\
  ReviewStrategy.get_words_due_for_review [sample_row; aware_row] 10 "en" 5
  = Raise TypeError.
Proof. split; vm_compute; reflexivity. Qed.

(** ** Mastery as the ratio of right answers *)

Section Mastery.

Import ReviewStrategy.

Lemma stored_In rows word_data :
  In (rewritten word_data) (stored rows word_data) \/
  In (reread word_data) (stored rows word_data).
Proof.
  induction rows as [|r rows IH]; cbn [stored].
  - right. left. reflexivity.
  - destruct (same_key _ _ r).
    + left. left. reflexivity.
    + destruct IH as [H|H]; [left | right]; right; exact H.
Qed.

(** The row that a returning update saves has the ratio of its counts
    as its mastery. *)
Lemma update_word_progress_tallied rows t_sched t_stamp w lang is_correct time_spent rows' :
  update_word_progress rows t_sched t_stamp w lang is_correct time_spent = Ok rows' ->
  exists row n k, In row rows' /\ tallied n k row.
Proof.
  intros H.
  apply update_word_progress_inv in H
    as (wd & -> & <- & <- & _ & _ & _ & _ & Hold).
  assert (Htal : exists n k, tallied n k wd).
  { destruct (_get_word_data rows (word wd) (language wd)) as [old|].
    - destruct Hold as (n & c & m & _ & _ & Ht & Hc & Hm & Hl).
      exists (n + 1), (c + Z.b2z is_correct). unfold tallied. eauto.
    - destruct Hold as (Ht & Hc & Hm).
      exists 1, (Z.b2z is_correct).
      unfold tallied. split; [exact Ht|]. split; [exact Hc|].
      destruct is_correct; eexists; (split; [vm_compute; reflexivity | exact Hm]). }
  destruct Htal as (n & k & Htal).
  destruct (stored_In rows wd) as [Hin|Hin].
  - exists (rewritten wd), n, k. split; [exact Hin | exact Htal].
  - exists (reread wd), n, k. split; [exact Hin | exact Htal].
Qed.

(** *** Room for more answers *)










End Mastery.

(** C9 on a word with a carriage return: the file is written with
    [newline=''] and read without it, so the word is read back with a
    line feed and is not found again.  Two right answers to the word
    leave two rows, each with one attempt, where the claim has one row
    with two. *)
Lemma mastery_level_carriage_return :
  attempts cr_word "en" cr_answers = 2 /\
  successes cr_word "en" cr_answers = 2 /\
  ReviewStrategy._get_word_data (record_answers [] cr_answers) cr_word "en"
  = None /\
  map (fun row => (word row, total_attempts row, correct_attempts row))
      (record_answers [] cr_answers)
  = [(lf_word, Some 1, Some 1); (lf_word, Some 1, Some 1)].
Proof. repeat split; vm_compute; reflexivity. Qed.

(** ** The session composer *)

Section Composer.

Import QuestionGenerator.

Lemma slice_to_incl {A : Type} (l : list A) k x :
  In x (slice_to l k) -> In x l.
Proof.
  unfold slice_to. intros H.
  destruct (k <? 0);
    apply list_elem_of_In, elem_of_take in H as (i & H & _);
    apply list_elem_of_In; eapply list_elem_of_lookup_2; exact H.
Qed.

Lemma slice_to_length {A : Type} (l : list A) k :
  0 <= k ->
  Z.of_nat (length (slice_to l k)) = Z.min k (Z.of_nat (length l)).
Proof.
  intros Hk. unfold slice_to.
  replace (k <? 0) with false by (symmetry; apply Z.ltb_ge; lia).
  rewrite length_take. lia.
Qed.

Lemma Forall_slice_to {A : Type} (P : A -> Prop) (l : list A) k :
  Forall P l -> Forall P (slice_to l k).
Proof.
  intros H. apply Forall_forall. intros x Hx.
  apply list_elem_of_In, slice_to_incl in Hx.
  rewrite Forall_forall in H. apply H, list_elem_of_In, Hx.
Qed.

(** *** The gate *)

(** What the gate lets through is a dict with the four required fields
    and, when of type [multiple_choice], four options and its answer among
    them. *)
Lemma gate_accepted_inv q :
  gate_accepted q ->
  (exists kvs, q = PDict kvs /\
     Forall (fun field => exists v, assoc field kvs = Some v) required_fields) /\
  well_formed_choice q.
Proof.
  unfold gate_accepted, _validate_question. intros H.
  apply rbind_ok in H as (missing & Hmiss & H).
  destruct missing; [discriminate|].
  apply rbind_ok in H as (ty & Hty & H).
  destruct q as [| | | | |kvs]; try discriminate.
  split.
  - exists kvs. split; [reflexivity|].
    unfold required_fields in *. cbn [missing_field has_field rbind] in Hmiss.
    repeat match type of Hmiss with
    | context [assoc ?f kvs] =>
      let E := fresh "E" in
      destruct (assoc f kvs) eqn:E; cbn [negb rbind] in Hmiss; [|discriminate]
    end.
    repeat constructor; eauto.
  - intros ty' Hty' Hmc.
    assert (ty' = ty) by congruence. subst ty'.
    rewrite Hmc in H.
    apply rbind_ok in H as (has & Hhas & H).
    destruct has; [|discriminate]. cbn [negb] in H.
    apply rbind_ok in H as (options & Hopt & H).
    destruct options as [| | | |l|]; try discriminate.
    destruct (length l =? 4)%nat eqn:Hlen; [|discriminate]. cbn [negb] in H.
    apply rbind_ok in H as (answer & Hans & H).
    destruct (py_in answer l) eqn:Hin; [|discriminate].
    exists l, answer. repeat split; auto.
    apply Nat.eqb_eq, Hlen.
Qed.

Lemma default_questions_accepted : Forall gate_accepted _get_default_questions.
Proof. repeat constructor. Qed.

Lemma default_review_question_accepted w :
  gate_accepted (_get_default_review_question w).
Proof.
  unfold gate_accepted, _validate_question, _get_default_review_question,
    multiple_choice.
  cbn. rewrite String.eqb_refl. reflexivity.
Qed.

Lemma default_review_question_tagged w :
  getitem (_get_default_review_question w) "word" = Ok (PStr w).
Proof. reflexivity. Qed.

(** *** The two validation loops *)

(** [accept_valid] adds to the list, in order, items of the reply that
    pass the gate. *)
Lemma accept_valid_spec items : forall acc,
  exists accepted,
    fst (accept_valid items acc) = acc ++ accepted /\
    Forall (fun q => In q items /\ gate_accepted q) accepted.
Proof.
  induction items as [|q items IH]; intros acc; cbn [accept_valid].
  - exists []. rewrite app_nil_r. auto.
  - destruct (_validate_question q) as [[|]|e] eqn:Hq.
    + destruct (IH (acc ++ [q])) as (accepted & Heq & Hall).
      exists (q :: accepted). rewrite Heq, <- app_assoc. split; [reflexivity|].
      constructor; [split; [left; reflexivity | exact Hq]|].
      eapply Forall_impl; [exact Hall|]. intros x [Hx Hg]. split; [right|]; auto.
    + destruct (IH acc) as (accepted & Heq & Hall).
      exists accepted. split; [exact Heq|].
      eapply Forall_impl; [exact Hall|]. intros x [Hx Hg]. split; [right|]; auto.
    + exists []. rewrite app_nil_r. auto.
Qed.

Lemma validate_all_spec items : forall acc validated,
  validate_all items acc = Ok validated ->
  exists accepted,
    validated = acc ++ accepted /\
    Forall (fun q => In q items /\ gate_accepted q) accepted.
Proof.
  induction items as [|q items IH]; intros acc validated H; cbn [validate_all] in H.
  - injection H as <-. exists []. rewrite app_nil_r. auto.
  - apply rbind_ok in H as (ok & Hq & H).
    apply IH in H as (accepted & -> & Hall).
    destruct ok.
    + exists (q :: accepted). rewrite <- app_assoc. split; [reflexivity|].
      constructor; [split; [left; reflexivity | exact Hq]|].
      eapply Forall_impl; [exact Hall|]. intros x [Hx Hg]. split; [right|]; auto.
    + exists accepted. split; [reflexivity|].
      eapply Forall_impl; [exact Hall|]. intros x [Hx Hg]. split; [right|]; auto.
Qed.

Lemma accept_valid_app items : forall acc,
  accept_valid items acc
  = (acc ++ fst (accept_valid items []), snd (accept_valid items [])).
Proof.
  induction items as [|q items IH]; intros acc; cbn [accept_valid].
  - rewrite app_nil_r. reflexivity.
  - destruct (_validate_question q) as [[|]|e].
    + rewrite (IH (acc ++ [q])), (IH ([] ++ [q])). cbn [fst snd].
      rewrite <- app_assoc. reflexivity.
    + apply IH.
    + rewrite app_nil_r. reflexivity.
Qed.

(** *** Review questions *)

Lemma review_word_app ai config k word_data acc :
  review_word ai config k word_data acc = acc ++ contribution ai config k word_data.
Proof.
  unfold contribution, review_word.
  destruct (review_reply ai config k word_data) as [items|e]; [|reflexivity].
  rewrite (accept_valid_app items acc).
  destruct (accept_valid items []) as [a [e|]]; cbn [fst snd app].
  - rewrite <- app_assoc. reflexivity.
  - reflexivity.
Qed.

Lemma review_loop_spec ai config words_due : forall k acc,
  review_loop ai config k words_due acc
  = acc ++ concat (imap (fun i => contribution ai config (k + i)) words_due).
Proof.
  induction words_due as [|row rest IH]; intros k acc; cbn [review_loop].
  - simpl. rewrite app_nil_r. reflexivity.
  - rewrite IH, review_word_app. cbn [imap concat].
    rewrite Nat.add_0_r, <- app_assoc. do 3 f_equal.
    apply imap_ext. intros i x _. cbn. f_equal. lia.
Qed.

Lemma _generate_review_questions_spec ai config words_due :
  _generate_review_questions ai words_due config
  = concat (imap (contribution ai config) words_due).
Proof.
  unfold _generate_review_questions. rewrite review_loop_spec. reflexivity.
Qed.

(** A failed request leaves the default review question alone; a reply
    leaves the items the gate accepts, and the default review question
    after them when going through the reply raises. *)
Lemma contribution_raise ai config k word_data e :
  review_reply ai config k word_data = Raise e ->
  contribution ai config k word_data
  = [_get_default_review_question (word word_data)].
Proof.
  intros H. unfold contribution, review_word. rewrite H. reflexivity.
Qed.

Lemma contribution_reply ai config k word_data items :
  review_reply ai config k word_data = Ok items ->
  exists accepted,
    Forall (fun q => In q items /\ gate_accepted q) accepted /\
    contribution ai config k word_data
    = match snd (accept_valid items []) with
      | Some _ => accepted ++ [_get_default_review_question (word word_data)]
      | None => accepted
      end.
Proof.
  intros H. unfold contribution, review_word. rewrite H.
  destruct (accept_valid_spec items []) as (accepted & Heq & Hall).
  exists accepted. split; [exact Hall|].
  destruct (accept_valid items []) as [a [e|]]; cbn [fst snd] in *;
    subst a; reflexivity.
Qed.

Lemma contribution_admissible w config ai k row :
  ai_service w = Some ai ->
  In row (words_due_of w config) ->
  Forall (admissible w config) (contribution ai config k row).
Proof.
  intros Hai Hrow.
  assert (Hdef : admissible w config (_get_default_review_question (word row)))
    by (right; left; eauto).
  destruct (review_reply ai config k row) as [items|e] eqn:Hreply.
  - destruct (contribution_reply _ _ _ _ _ Hreply) as (accepted & Hall & ->).
    assert (Hacc : Forall (admissible w config) accepted).
    { eapply Forall_impl; [exact Hall|]. intros q [Hq Hg].
      right; right. split; [|exact Hg].
      exists ai. split; [exact Hai|]. left. eauto. }
    destruct (snd (accept_valid items [])); [|exact Hacc].
    apply Forall_app. split; [exact Hacc|]. constructor; [exact Hdef|constructor].
  - rewrite (contribution_raise _ _ _ _ _ Hreply).
    constructor; [exact Hdef|constructor].
Qed.

Lemma review_questions_admissible w config :
  Forall (admissible w config) (review_questions_of w config).
Proof.
  unfold review_questions_of.
  destruct (ai_service w) as [ai|] eqn:Hai; [|constructor].
  rewrite _generate_review_questions_spec.
  apply Forall_concat, Forall_forall. intros c Hc.
  apply elem_of_lookup_imap_1 in Hc as (k & row & -> & Hrow).
  apply (contribution_admissible w config ai k row Hai).
  apply list_elem_of_In. eapply list_elem_of_lookup_2. exact Hrow.
Qed.

(** *** New questions *)

Lemma bank_admissible w config :
  Forall (admissible w config) _get_default_questions.
Proof. apply Forall_forall. intros q Hq. left. apply list_elem_of_In, Hq. Qed.

Lemma get_random_article_listable w :
  listable w -> exists article, get_random_article w = Ok article.
Proof.
  intros [entries H]. unfold get_random_article. rewrite H. cbn [rbind].
  destruct (filter _ entries); [eauto|].
  destruct (_ !! _) as [[name [content|e]]|]; eauto.
Qed.

Lemma get_random_article_unlisted w e :
  articles_dir w = Raise e -> get_random_article w = Raise e.
Proof. intros H. unfold get_random_article. rewrite H. reflexivity. Qed.

(** The new questions are made whenever the directory can be listed;
    the exception of a listing that fails leaves the call. *)
Lemma new_questions_returns w config count :
  listable w -> exists l, _generate_new_questions w config count = Ok l.
Proof.
  intros Hl. destruct (get_random_article_listable w Hl) as [article H].
  unfold _generate_new_questions. rewrite H. cbn [rbind].
  destruct article as [article|]; [|eauto].
  destruct (String.eqb article ""); [eauto|].
  destruct (ai_service w); eauto.
Qed.

Lemma new_questions_unlisted w config count e :
  articles_dir w = Raise e -> _generate_new_questions w config count = Raise e.
Proof.
  intros H. unfold _generate_new_questions.
  rewrite (get_random_article_unlisted _ _ H). reflexivity.
Qed.

Lemma new_questions_from_bank w config count l :
  no_article w \/ ai_service w = None ->
  _generate_new_questions w config count = Ok l ->
  l = slice_to _get_default_questions count.
Proof.
  unfold no_article, _generate_new_questions.
  intros [[->| ->]|Hai]; cbn [rbind].
  - intros H. injection H as <-. reflexivity.
  - cbn [String.eqb]. intros H. injection H as <-. reflexivity.
  - destruct (get_random_article w) as [[article|]|e]; cbn [rbind].
    + destruct (String.eqb article "");
        [intros H; injection H as <-; reflexivity|].
      rewrite Hai. intros H. injection H as <-. reflexivity.
    + intros H. injection H as <-. reflexivity.
    + discriminate.
Qed.

(** The outcome of the [try] block of [_generate_new_questions]. *)
Lemma new_questions_cases w config count l :
  _generate_new_questions w config count = Ok l ->
  l = slice_to _get_default_questions count \/
  exists ai article items accepted,
    ai_service w = Some ai /\
    py_iter (generate_questions ai article config count) = Ok items /\
    Forall (fun q => In q items /\ gate_accepted q) accepted /\
    l = slice_to
          (if Z.of_nat (length accepted) <? count
           then accepted ++ slice_to _get_default_questions
                              (count - Z.of_nat (length accepted))
           else accepted)
          count.
Proof.
  unfold _generate_new_questions.
  destruct (get_random_article w) as [[article|]|e]; cbn [rbind];
    [|intros H; injection H as <-; left; reflexivity|discriminate].
  destruct (String.eqb article "");
    [intros H; injection H as <-; left; reflexivity|].
  destruct (ai_service w) as [ai|];
    [|intros H; injection H as <-; left; reflexivity].
  intros H. injection H as <-.
  match goal with |- context [catch ?m _] => destruct m as [qs|e] eqn:Hm end;
    [|left; reflexivity].
  cbn [catch].
  apply rbind_ok in Hm as (nonempty & _ & Hm).
  destruct nonempty; [|injection Hm as <-; left; reflexivity].
  apply rbind_ok in Hm as (items & Hitems & Hm).
  apply rbind_ok in Hm as (validated & Hval & Hm).
  injection Hm as <-.
  apply validate_all_spec in Hval as (accepted & -> & Hall).
  right. exists ai, article, items, accepted. cbn [app]. auto.
Qed.

Lemma new_questions_admissible w config count l :
  _generate_new_questions w config count = Ok l ->
  Forall (admissible w config) l.
Proof.
  intros H.
  destruct (new_questions_cases w config count l H)
    as [->|(ai & article & items & accepted & Hai & Hitems & Hall & ->)].
  - apply Forall_slice_to, bank_admissible.
  - assert (Hacc : Forall (admissible w config) accepted).
    { eapply Forall_impl; [exact Hall|]. intros q [Hq Hg].
      right; right. split; [|exact Hg].
      exists ai. split; [exact Hai|]. right. eauto. }
    apply Forall_slice_to.
    destruct (Z.of_nat (length accepted) <? count); [|exact Hacc].
    apply Forall_app. split; [exact Hacc|].
    apply Forall_slice_to, bank_admissible.
Qed.

Lemma default_questions_length : length _get_default_questions = 15%nat.
Proof. reflexivity. Qed.

(** For a positive [count] there are [count] new questions when the bank
    can fill the gap, and never more. *)
Lemma new_questions_length w config count l :
  0 < count ->
  _generate_new_questions w config count = Ok l ->
  Z.min count 15 <= Z.of_nat (length l) <= count.
Proof.
  intros Hc H.
  destruct (new_questions_cases w config count l H)
    as [->|(ai & article & items & accepted & _ & _ & _ & ->)].
  - rewrite slice_to_length, default_questions_length by lia. lia.
  - rewrite slice_to_length by lia.
    destruct (Z.of_nat (length accepted) <? count) eqn:Hlt.
    + apply Z.ltb_lt in Hlt.
      rewrite length_app, Nat2Z.inj_add, slice_to_length,
        default_questions_length by lia. lia.
    + apply Z.ltb_ge in Hlt. lia.
Qed.

(** *** The session *)

Lemma generate_eq w config count :
  generate w config count
  = (pool <- session_pool w config count ;;
     Ok (slice_to (padded (shuffle w pool) count) count)).
Proof.
  unfold generate, session_pool, padded, review_questions_of.
  fold (words_due_of w config).
  assert (Hrev :
    match ai_service w with
    | Some ai =>
      if (0 <? length (words_due_of w config))%nat
      then _generate_review_questions ai (words_due_of w config) config
      else []
    | None => []
    end
    = match ai_service w with
      | Some ai => _generate_review_questions ai (words_due_of w config) config
      | None => []
      end).
  { destruct (ai_service w) as [ai|]; [|reflexivity].
    destruct (words_due_of w config); reflexivity. }
  rewrite Hrev. reflexivity.
Qed.

(** A returning call shuffled its pool, filled it up and cut it. *)
Lemma generate_ok w config count session :
  generate w config count = Ok session ->
  exists pool,
    session_pool w config count = Ok pool /\
    session = slice_to (padded (shuffle w pool) count) count.
Proof.
  rewrite generate_eq. intros H.
  apply rbind_ok in H as (pool & Hpool & H). injection H as <-. eauto.
Qed.

(** The call returns when the directory can be listed, and when the
    review questions are enough; otherwise the exception of the listing
    leaves it. *)
Lemma session_pool_returns w config count :
  listable w \/ count <= Z.of_nat (length (review_questions_of w config)) ->
  exists pool, session_pool w config count = Ok pool.
Proof.
  unfold session_pool. intros H.
  destruct (_ >? 0) eqn:Hnew; [|eauto].
  destruct H as [Hl|Hc]; [|apply Z.gtb_lt in Hnew; lia].
  destruct (new_questions_returns w config
              (count - Z.of_nat (length (review_questions_of w config))) Hl)
    as [l ->].
  cbn [rbind]. eauto.
Qed.

Lemma generate_returns w config count :
  listable w \/ count <= Z.of_nat (length (review_questions_of w config)) ->
  exists session, generate w config count = Ok session.
Proof.
  intros H. rewrite generate_eq.
  destruct (session_pool_returns w config count H) as [pool ->].
  cbn [rbind]. eauto.
Qed.

Lemma generate_unlisted w config count e :
  articles_dir w = Raise e ->
  Z.of_nat (length (review_questions_of w config)) < count ->
  generate w config count = Raise e.
Proof.
  intros Hdir Hc. rewrite generate_eq. unfold session_pool.
  replace (_ >? 0) with true by (symmetry; apply Z.gtb_lt; lia).
  rewrite (new_questions_unlisted _ _ _ _ Hdir). reflexivity.
Qed.

Lemma session_pool_admissible w config count pool :
  session_pool w config count = Ok pool ->
  Forall (admissible w config) pool.
Proof.
  unfold session_pool.
  destruct (_ >? 0).
  - intros H. apply rbind_ok in H as (l & Hl & H). injection H as <-.
    apply Forall_app. split;
      eauto using review_questions_admissible, new_questions_admissible.
  - intros H. injection H as <-. apply review_questions_admissible.
Qed.

Lemma generate_admissible w config count session :
  shuffles (shuffle w) ->
  generate w config count = Ok session ->
  Forall (admissible w config) session.
Proof.
  intros Hsh H.
  apply generate_ok in H as (pool & Hpool & ->).
  apply Forall_slice_to. unfold padded.
  assert (H : Forall (admissible w config) (shuffle w pool)).
  { rewrite (Hsh _). exact (session_pool_admissible _ _ _ _ Hpool). }
  destruct (_ <? count); [|exact H].
  apply Forall_app. split; [exact H|].
  apply Forall_slice_to, bank_admissible.
Qed.

Lemma admissible_accepted w config q : admissible w config q -> gate_accepted q.
Proof.
  intros [Hbank|[(row & _ & ->)|[_ Hg]]].
  - pose proof default_questions_accepted as H.
    rewrite Forall_forall in H. apply H, list_elem_of_In, Hbank.
  - apply default_review_question_accepted.
  - exact Hg.
Qed.

(** The length of a session. *)
Lemma session_pool_length w config count pool :
  session_pool w config count = Ok pool ->
  let r := Z.of_nat (length (review_questions_of w config)) in
  let n := Z.of_nat (length pool) in
  (count <= r -> n = r) /\
  (r < count -> r + Z.min (count - r) 15 <= n <= count).
Proof.
  cbv zeta. unfold session_pool.
  set (r := Z.of_nat (length (review_questions_of w config))).
  destruct (count - r >? 0) eqn:Hnc.
  - apply Z.gtb_lt in Hnc. intros H.
    apply rbind_ok in H as (l & Hl & H). injection H as <-.
    pose proof (new_questions_length w config (count - r) l Hnc Hl).
    rewrite length_app, Nat2Z.inj_add. fold r. lia.
  - rewrite Z.gtb_ltb in Hnc. apply Z.ltb_ge in Hnc.
    intros H. injection H as <-. fold r. lia.
Qed.

Lemma padded_length pool count (f : list pyval -> list pyval) :
  shuffles f -> 0 <= count ->
  Z.of_nat (length (slice_to (padded (f pool) count) count))
  = Z.min count (Z.of_nat (length pool) + 15).
Proof.
  intros Hsh Hc. rewrite slice_to_length by exact Hc.
  unfold padded. rewrite (Permutation_length (Hsh _)).
  set (n := Z.of_nat (length pool)).
  destruct (n <? count) eqn:Hlt.
  - apply Z.ltb_lt in Hlt.
    rewrite length_app, Nat2Z.inj_add, slice_to_length,
      default_questions_length by lia.
    rewrite (Permutation_length (Hsh _)). fold n. clearbody n. lia.
  - apply Z.ltb_ge in Hlt.
    rewrite (Permutation_length (Hsh _)). fold n. clearbody n. lia.
Qed.

Lemma generate_length w config count session :
  shuffles (shuffle w) ->
  0 <= count ->
  generate w config count = Ok session ->
  Z.of_nat (length session) <= count /\
  (count <= 30 -> Z.of_nat (length session) = count).
Proof.
  intros Hsh Hc H.
  apply generate_ok in H as (pool & Hpool & ->).
  rewrite (padded_length _ _ _ Hsh Hc).
  split; [lia|]. intros H30.
  destruct (session_pool_length w config count pool Hpool) as [Hfull Hpart].
  set (r := Z.of_nat (length (review_questions_of w config))) in *.
  set (n := Z.of_nat (length pool)) in *.
  assert (Hr : 0 <= r) by (unfold r; lia).
  assert (Hn : count <= n \/ count - 15 <= n < count).
  { destruct (Z.le_gt_cases count r) as [Hle|Hgt].
    - left. rewrite (Hfull Hle). exact Hle.
    - pose proof (Hpart Hgt). lia. }
  clearbody n r. lia.
Qed.

End Composer.

(** ** The claims on the session composer *)

Lemma shuffles_rev : shuffles (@rev pyval).
Proof. intros l. symmetry. apply Permutation_rev. Qed.

Example words_due_of_world_offline :
  words_due_of world_offline sample_config = [sample_row].
Proof. vm_compute. reflexivity. Qed.

(** C5, as it holds of the code: with the source at hand the review
    questions are, due word after due word, what each word adds; when the
    request for a word raises (a source error, a reply that cannot be
    decoded or iterated, a mastery that cannot be read) that is exactly
    the default review question of the word, and when going through the
    reply raises it is the items accepted so far and then that one
    default question.  Without the source the review step is left out.
    The default review question is tagged with its word, and the session
    is made of the review questions and the new ones. *)
Theorem review_questions_placeholder w config count :
  (ai_service w = None -> review_questions_of w config = []) /\
  (forall ai, ai_service w = Some ai ->
     review_questions_of w config
     = concat (imap (contribution ai config) (words_due_of w config)) /\
     forall k row,
       (forall e,
          QuestionGenerator.review_reply ai config k row = Raise e ->
          contribution ai config k row
          = [QuestionGenerator._get_default_review_question (word row)]) /\
       (forall items e,
          QuestionGenerator.review_reply ai config k row = Ok items ->
          snd (QuestionGenerator.accept_valid items []) = Some e ->
          exists accepted,
            Forall (fun q => In q items /\ gate_accepted q) accepted /\
            contribution ai config k row
            = accepted ++
              [QuestionGenerator._get_default_review_question (word row)])) /\
  (forall word,
     tagged_with word (QuestionGenerator._get_default_review_question word) = true) /\
  QuestionGenerator.generate w config count
  = (pool <- session_pool w config count ;;
     Ok (slice_to (padded (shuffle w pool) count) count)).
Proof.
  split; [|split; [|split]].
  - unfold review_questions_of. intros ->. reflexivity.
  - intros ai Hai. split.
    + unfold review_questions_of. rewrite Hai.
      apply _generate_review_questions_spec.
    + intros k row. split.
      * apply contribution_raise.
      * intros items e Hreply Hraise.
        destruct (contribution_reply _ _ _ _ _ Hreply) as (accepted & Hall & Hc).
        rewrite Hraise in Hc. eauto.
  - intros word. unfold tagged_with.
    rewrite default_review_question_tagged. apply String.eqb_refl.
  - apply generate_eq.
Qed.

Lemma review_questions_placeholder_witness :
  review_questions_of world_no_article sample_config
  = [cat_question; QuestionGenerator._get_default_review_question "cat"] /\
  (exists accepted,
     Forall (fun q => In q [cat_question; PInt 5] /\ gate_accepted q) accepted /\
     contribution sample_ai sample_config 0 sample_row
     = accepted ++ [QuestionGenerator._get_default_review_question "cat"]) /\
  review_questions_of world_offline sample_config = [].
Proof.
  destruct (review_questions_placeholder world_no_article sample_config 15)
    as (_ & Hai & _).
  destruct (Hai sample_ai eq_refl) as [Heq Hword].
  destruct (review_questions_placeholder world_offline sample_config 15)
    as (Hnone & _).
  split; [|split; [|apply Hnone; reflexivity]].
  - rewrite Heq. vm_compute. reflexivity.
  - destruct (Hword 0%nat sample_row) as [_ Hreply].
    apply (Hreply [cat_question; PInt 5] TypeError); reflexivity.
Defined.

(** C5 as the specification states it fails without the source: the due
    word "cat" gets no question at all, the session comes from the bank. *)
Lemma review_questions_placeholder_counterexample :
  ai_service world_offline = None /\
  words_due_of world_offline sample_config = [sample_row] /\
  word sample_row = "cat" /\
  exists session,
    QuestionGenerator.generate world_offline sample_config 15 = Ok session /\
    existsb (tagged_with "cat") session = false.
Proof.
  split; [reflexivity|]. split; [vm_compute; reflexivity|].
  split; [reflexivity|].
  eexists. split; vm_compute; reflexivity.
Qed.

(** A reply without a valid item and without an exception adds nothing
    for its word. *)
Example contribution_empty_reply :
  contribution silent_ai sample_config 0 sample_row = [].
Proof. reflexivity. Qed.

(** C6, as it holds of the code: [generate] returns whenever the
    articles directory can be listed or the review questions reach
    [count], whatever the source and the store do.  Of a session that it returns: without the source every question
    is from the bank; without an article text every question is from the
    bank or is a review question of a due word; in both cases the new
    questions are the first ones of the bank.  When the directory cannot
    be listed and the review questions are fewer than [count], the
    exception of the listing leaves [generate]. *)
Theorem generate_falls_back w config count :
  shuffles (shuffle w) ->
  (listable w \/ count <= Z.of_nat (length (review_questions_of w config)) ->
   exists session, QuestionGenerator.generate w config count = Ok session) /\
  (forall session,
     QuestionGenerator.generate w config count = Ok session ->
     (ai_service w = None ->
      Forall (fun q => In q QuestionGenerator._get_default_questions) session) /\
     (no_article w ->
      Forall (fun q => In q QuestionGenerator._get_default_questions \/
                       In q (review_questions_of w config)) session)) /\
  (no_article w \/ ai_service w = None ->
   forall n new_questions,
     QuestionGenerator._generate_new_questions w config n = Ok new_questions ->
     new_questions = slice_to QuestionGenerator._get_default_questions n) /\
  (forall e,
     articles_dir w = Raise e ->
     Z.of_nat (length (review_questions_of w config)) < count ->
     QuestionGenerator.generate w config count = Raise e).
Proof.
  intros Hsh.
  assert (Hnew : forall session,
    QuestionGenerator.generate w config count = Ok session ->
    no_article w \/ ai_service w = None ->
    Forall (fun q => In q QuestionGenerator._get_default_questions \/
                     In q (review_questions_of w config)) session).
  { intros session Hgen Hcase.
    apply generate_ok in Hgen as (pool & Hpool & ->).
    assert (Hbank : Forall (fun q => In q QuestionGenerator._get_default_questions \/
                                     In q (review_questions_of w config))
                           QuestionGenerator._get_default_questions).
    { apply Forall_forall. intros q Hq. left. apply list_elem_of_In, Hq. }
    assert (Hrev : Forall (fun q => In q QuestionGenerator._get_default_questions \/
                                    In q (review_questions_of w config))
                          (review_questions_of w config)).
    { apply Forall_forall. intros q Hq. right. apply list_elem_of_In, Hq. }
    apply Forall_slice_to. unfold padded.
    assert (Hp : Forall (fun q => In q QuestionGenerator._get_default_questions \/
                                  In q (review_questions_of w config))
                        (shuffle w pool)).
    { rewrite (Hsh _). unfold session_pool in Hpool.
      destruct (_ >? 0).
      - apply rbind_ok in Hpool as (l & Hl & Hpool). injection Hpool as <-.
        apply Forall_app. split; [exact Hrev|].
        rewrite (new_questions_from_bank w config _ l Hcase Hl).
        apply Forall_slice_to, Hbank.
      - injection Hpool as <-. exact Hrev. }
    destruct (_ <? count); [|exact Hp].
    apply Forall_app. split; [exact Hp|].
    apply Forall_slice_to, Hbank. }
  split; [|split; [|split]].
  - apply generate_returns.
  - intros session Hgen. split.
    + intros Hai. eapply Forall_impl; [apply (Hnew _ Hgen); right; exact Hai|].
      intros q [Hq|Hq]; [exact Hq|].
      unfold review_questions_of in Hq. rewrite Hai in Hq. destruct Hq.
    + intros Hart. apply (Hnew _ Hgen). left. exact Hart.
  - intros Hcase n l. apply new_questions_from_bank, Hcase.
  - intros e. apply generate_unlisted.
Qed.

Lemma generate_falls_back_witness :
  (exists session,
     QuestionGenerator.generate world_offline sample_config 15 = Ok session) /\
  (forall session,
     QuestionGenerator.generate world_offline sample_config 15 = Ok session ->
     Forall (fun q => In q QuestionGenerator._get_default_questions) session) /\
  (forall session,
     QuestionGenerator.generate world_no_article sample_config 15 = Ok session ->
     Forall (fun q => In q QuestionGenerator._get_default_questions \/
                      In q (review_questions_of world_no_article sample_config))
            session) /\
  QuestionGenerator.generate world_no_directory sample_config 15 = Raise OSError.
Proof.
  destruct (generate_falls_back world_offline sample_config 15 shuffles_rev)
    as (Hret & Hbank & _).
  destruct (generate_falls_back world_no_article sample_config 15 shuffles_rev)
    as (_ & Hrev & _).
  destruct (generate_falls_back world_no_directory sample_config 15 shuffles_rev)
    as (_ & _ & _ & Hraise).
  split; [apply Hret; left; eexists; reflexivity|].
  split; [intros session H; apply (Hbank session H); reflexivity|].
  split; [intros session H; apply (Hrev session H); left; reflexivity|].
  apply Hraise; [reflexivity | vm_compute; reflexivity].
Defined.

(** C6 as the specification states it fails twice.  When only the
    article is missing the source is asked for review questions, and
    the session holds one that is not from the bank.  And without the
    source, when the articles directory cannot be listed, [generate]
    raises. *)
Lemma generate_falls_back_counterexample :
  (no_article world_no_article /\
   exists session,
     QuestionGenerator.generate world_no_article sample_config 15 = Ok session /\
     ~ Forall (fun q => In q QuestionGenerator._get_default_questions) session) /\
  (ai_service world_no_directory = None /\
   QuestionGenerator.generate world_no_directory sample_config 15
   = Raise OSError).
Proof.
  split; [|split; vm_compute; reflexivity].
  split; [left; reflexivity|].
  eexists. split; [vm_compute; reflexivity|].
  intros H.
  match type of H with Forall _ ?l => set (session := l) in * end.
  assert (Hcat : existsb (tagged_with "cat") session = true)
    by (vm_compute; reflexivity).
  apply existsb_exists in Hcat as (q & Hq & Htag).
  rewrite Forall_forall in H. apply list_elem_of_In, H in Hq.
  assert (Hbank : existsb (tagged_with "cat")
                    QuestionGenerator._get_default_questions = false)
    by (vm_compute; reflexivity).
  assert (Hex : existsb (tagged_with "cat")
                  QuestionGenerator._get_default_questions = true)
    by (apply existsb_exists; eauto).
  congruence.
Qed.

(** C7, as it holds of the code: for a count from 0 to 30, so for 15,
    the one that is passed, a returning [generate] gives exactly
    [count] questions, whatever the source and the store give; for any
    count from 0 on it gives at most [count].  When no word is due and
    the source gives no item that passes the gate, all of them are from
    the bank.  The call returns when the articles directory can be
    listed or the review questions reach [count]. *)
Theorem generate_count w config count :
  shuffles (shuffle w) ->
  0 <= count ->
  (listable w \/ count <= Z.of_nat (length (review_questions_of w config)) ->
   exists session, QuestionGenerator.generate w config count = Ok session) /\
  (forall session,
     QuestionGenerator.generate w config count = Ok session ->
     Z.of_nat (length session) <= count /\
     (count <= 30 -> Z.of_nat (length session) = count) /\
     (words_due_of w config = [] ->
      (forall q, external_item w config q -> ~ gate_accepted q) ->
      Forall (fun q => In q QuestionGenerator._get_default_questions) session)).
Proof.
  intros Hsh Hc.
  split; [apply generate_returns|].
  intros session Hgen.
  destruct (generate_length w config count session Hsh Hc Hgen) as [Hle Heq].
  split; [exact Hle|]. split; [exact Heq|].
  intros Hdue Hext.
  eapply Forall_impl; [exact (generate_admissible _ _ _ _ Hsh Hgen)|].
  intros q [Hbank|[(row & Hrow & _)|[He Hg]]].
  - exact Hbank.
  - rewrite Hdue in Hrow. destruct Hrow.
  - destruct (Hext q He Hg).
Qed.

Lemma generate_count_witness :
  exists session,
    QuestionGenerator.generate world_no_article sample_config 15 = Ok session /\
    Z.of_nat (length session) = 15.
Proof.
  destruct (generate_count world_no_article sample_config 15 shuffles_rev)
    as [Hret Hlen]; [lia|].
  destruct Hret as [session Hgen]; [left; eexists; reflexivity|].
  exists session. split; [exact Hgen|].
  apply (Hlen session Hgen). lia.
Defined.

(** C7 past 30: step 5 of [generate] makes up the number of questions
    until the bank is used up; it holds 15 and is drawn on twice at
    most, so without source and articles a call for 31 questions returns
    30.  And a call for 15 returns no list when the articles directory
    cannot be listed. *)
Lemma generate_count_past_bank :
  shuffles (shuffle world_offline) /\
  (exists session,
     QuestionGenerator.generate world_offline sample_config 31 = Ok session /\
     length session = 30%nat) /\
  QuestionGenerator.generate world_no_directory sample_config 15
  = Raise OSError.
Proof.
  split; [apply shuffles_rev|]. split; [|vm_compute; reflexivity].
  eexists. split; vm_compute; reflexivity.
Qed.

(** C10: every question of a session is from the bank, or the default
    review question of a due word, or an item of a reply of the source,
    kept as it came because it passes the gate; and each one, when of type
    [multiple_choice], has four options and its answer among them.  The
    gate lets through only dicts with [type], [question], [answer] and
    [word]. *)
Theorem generate_well_formed w config count :
  shuffles (shuffle w) ->
  (forall session,
     QuestionGenerator.generate w config count = Ok session ->
     Forall (fun q => admissible w config q /\ gate_accepted q /\
                      well_formed_choice q) session) /\
  (forall q, gate_accepted q ->
     (exists kvs, q = PDict kvs /\
        Forall (fun field => exists v, assoc field kvs = Some v)
               QuestionGenerator.required_fields) /\
     well_formed_choice q).
Proof.
  intros Hsh. split; [|apply gate_accepted_inv].
  intros session Hgen.
  eapply Forall_impl; [exact (generate_admissible _ _ _ _ Hsh Hgen)|].
  intros q Hq. pose proof (admissible_accepted _ _ _ Hq) as Hg.
  split; [exact Hq|]. split; [exact Hg|]. apply gate_accepted_inv, Hg.
Qed.

Lemma generate_well_formed_witness :
  exists session,
    QuestionGenerator.generate world_no_article sample_config 15 = Ok session /\
    Forall (fun q => admissible world_no_article sample_config q /\
                     gate_accepted q /\ well_formed_choice q) session.
Proof.
  eexists. split; [vm_compute; reflexivity|].
  apply (generate_well_formed world_no_article sample_config 15 shuffles_rev).
  vm_compute. reflexivity.
Defined.

(** ** More on the store *)

Section Upsert.

Import ReviewStrategy.

Lemma same_key_key_of w lang row :
  same_key w lang row = true <-> key_of row = (w, lang).
Proof.
  rewrite same_key_true. unfold key_of. split.
  - intros [-> ->]. reflexivity.
  - intros H. injection H as -> ->. auto.
Qed.


Lemma _get_word_data_None rows w lang :
  _get_word_data rows w lang = None <-> ~ In (w, lang) (map key_of rows).
Proof.
  induction rows as [|r rows IH]; simpl.
  - tauto.
  - destruct (same_key w lang r) eqn:E.
    + apply same_key_key_of in E. split; [discriminate|]. intros H. destruct H. auto.
    + rewrite IH. split.
      * intros H [Hk|Hin]; [|auto].
        apply same_key_key_of in Hk. congruence.
      * intros H Hin. apply H. auto.
Qed.

Lemma rewritten_keys rows : map key_of (map rewritten rows) = map key_of rows.
Proof. rewrite map_map. reflexivity. Qed.


Lemma stored_keys rows word_data old :
  _get_word_data rows (word word_data) (language word_data) = Some old ->
  map key_of (stored rows word_data) = map key_of rows.
Proof.
  induction rows as [|r rows IH]; cbn [_get_word_data stored map]; [discriminate|].
  destruct (same_key (word word_data) (language word_data) r) eqn:E; cbn [map].
  - intros _. rewrite rewritten_keys. f_equal.
    apply same_key_key_of in E. rewrite E. reflexivity.
  - intros H. rewrite (IH H). reflexivity.
Qed.


Lemma stored_unique rows word_data :
  plain (word word_data) -> plain (language word_data) ->
  unique_keys rows -> unique_keys (stored rows word_data).
Proof.
  unfold unique_keys. intros Hw Hl Hu.
  destruct (_get_word_data rows (word word_data) (language word_data)) as [old|] eqn:Hget.
  - rewrite (stored_keys _ _ _ Hget). exact Hu.
  - rewrite (stored_new _ _ Hget), (reread_plain _ Hw Hl), map_app,
      rewritten_keys.
    simpl.
    apply NoDup_app. split; [exact Hu|]. split.
    + intros k Hk Hk'. apply list_elem_of_In in Hk, Hk'.
      destruct Hk' as [<-|[]].
      apply _get_word_data_None in Hget. apply Hget. exact Hk.
    + apply NoDup_singleton.
Qed.

Lemma unique_keys_take n rows :
  unique_keys rows -> unique_keys (map rewritten (take n rows)).
Proof.
  unfold unique_keys. intros H. rewrite rewritten_keys.
  rewrite <- (take_drop n rows), map_app in H.
  apply NoDup_app in H as [H _]. exact H.
Qed.

End Upsert.



Section Updates.

Import ReviewStrategy SM2Algorithm.

(** The row that a returning update saves, and the call of the scheduler
    behind it. *)
Lemma new_word_data_scheduled rows t_sched t_stamp w lang is_correct time_spent word_data :
  new_word_data rows t_sched t_stamp w lang is_correct time_spent = Ok word_data ->
  exists ef0 i0 ef' i' r' d',
    key_of word_data = (w, lang) /\
    ease_factor word_data = Some ef' /\
    calculate_next_review t_sched (quality_from_performance is_correct time_spent)
      ef0 i0 0 = Ok (ef', i', r', d') /\
    match _get_word_data rows w lang with
    | None => ef0 = 2.5%float
    | Some old => ease_factor old = Some ef0
    end.
Proof.
  unfold new_word_data. intros Hwd.
  destruct (_get_word_data rows w lang) as [old|] eqn:Hget.
  - apply _get_word_data_key in Hget as [Hw Hl].
    apply rbind_ok in Hwd as (n & Hn & Hwd).
    apply rbind_ok in Hwd as (c & Hc & Hwd).
    apply rbind_ok in Hwd as (m & Hm & Hwd).
    apply rbind_ok in Hwd as (old_ef & Hef & Hwd).
    apply rbind_ok in Hwd as (old_i & Hi & Hwd).
    apply rbind_ok in Hwd as ([[[ef' i'] r'] d'] & Hs & Hwd).
    injection Hwd as <-.
    exists old_ef, old_i, ef', i', r', d'.
    repeat split; auto.
    + unfold key_of. cbn. congruence.
    + destruct (ease_factor old); [|discriminate]. injection Hef as ->. reflexivity.
  - apply rbind_ok in Hwd as ([[[ef' i'] r'] d'] & Hs & Hwd).
    injection Hwd as <-.
    exists 2.5%float, 0, ef', i', r', d'.
    repeat split; eauto.
Qed.

Lemma update_word_progress_saved rows t_sched t_stamp w lang is_correct time_spent rows' :
  update_word_progress rows t_sched t_stamp w lang is_correct time_spent = Ok rows' ->
  exists word_data ef0 i0 ef' i' r' d',
    rows' = stored rows word_data /\
    key_of word_data = (w, lang) /\
    ease_factor word_data = Some ef' /\
    calculate_next_review t_sched (quality_from_performance is_correct time_spent)
      ef0 i0 0 = Ok (ef', i', r', d') /\
    match _get_word_data rows w lang with
    | None => ef0 = 2.5%float
    | Some old => ease_factor old = Some ef0
    end.
Proof.
  intros H.
  apply update_word_progress_stored in H as (word_data & Hwd & _ & ->).
  apply new_word_data_scheduled in Hwd
    as (ef0 & i0 & ef' & i' & r' & d' & H).
  exists word_data, ef0, i0, ef', i', r', d'. split; [reflexivity | exact H].
Qed.

(** One step keeps the floor of the ease factor. *)
Lemma calculate_next_review_keeps_floor now quality ef interval repetitions ef' i' r' d' :
  0 <= quality <= 5 ->
  PrimFloat.leb MIN_EF ef = true ->
  calculate_next_review now quality ef interval repetitions = Ok (ef', i', r', d') ->
  PrimFloat.leb MIN_EF ef' = true.
Proof.
  intros Hq Hef H. unfold calculate_next_review in H.
  apply rbind_ok in H as (d & Hd & H).
  apply rbind_ok in H as ([nr ni] & _ & H).
  apply rbind_ok in H as (nd & _ & H).
  injection H as <- _ _ _.
  apply max_MIN_EF_floor. rewrite add_spec. apply SFadd_not_nan.
  - exact (leb_not_nan _ _ Hef).
  - exact (ease_change_finite quality d Hq Hd).
Qed.

Lemma update_word_progress_ease_floor rows t_sched t_stamp w lang is_correct time_spent rows' :
  ease_floor rows ->
  update_word_progress rows t_sched t_stamp w lang is_correct time_spent = Ok rows' ->
  ease_floor rows'.
Proof.
  intros Hfloor H.
  apply update_word_progress_saved in H
    as (wd & ef0 & i0 & ef' & i' & r' & d' & -> & _ & Hef & Hs & Hold).
  assert (Hwd : forall ef, ease_factor wd = Some ef ->
                           PrimFloat.leb MIN_EF ef = true).
  { intros ef Hef'. assert (ef = ef') by congruence. subst ef.
    pose proof (quality_from_performance_range is_correct time_spent) as Hq.
    assert (Hq' : 0 <= quality_from_performance is_correct time_spent <= 5) by lia.
    apply (calculate_next_review_keeps_floor _ _ ef0 _ _ _ _ _ _ Hq') in Hs;
      [exact Hs|].
    destruct (_get_word_data rows w lang) as [old|] eqn:Hget.
    - apply _get_word_data_In in Hget.
      unfold ease_floor in Hfloor. rewrite Forall_forall in Hfloor.
      apply (Hfloor old); [apply list_elem_of_In, Hget | exact Hold].
    - subst ef0. vm_compute. reflexivity. }
  apply stored_Forall; [intros row H; exact H | exact Hfloor | exact Hwd | exact Hwd].
Qed.

(** The file after an answer: the file as it was or a prefix of it,
    written again, when the call raised, the file of the call when it
    returned. *)
Lemma record_answer_cases rows a :
  record_answer rows a = rows \/
  (exists n, record_answer rows a = map rewritten (take n rows)) \/
  update_word_progress rows (a_sched a) (a_stamp a) (a_word a) (a_language a)
    (a_correct a) (a_time a) = Ok (record_answer rows a).
Proof. apply file_after_update_cases. Qed.

Lemma update_word_progress_unique rows t_sched t_stamp w lang is_correct time_spent rows' :
  plain w -> plain lang ->
  unique_keys rows ->
  update_word_progress rows t_sched t_stamp w lang is_correct time_spent = Ok rows' ->
  unique_keys rows' /\ (length rows <= length rows' <= S (length rows))%nat.
Proof.
  intros Hw Hl Hu H.
  apply update_word_progress_saved in H
    as (wd & ? & ? & ? & ? & ? & ? & -> & Hkey & _).
  unfold key_of in Hkey.
  assert (word wd = w) by congruence. assert (language wd = lang) by congruence.
  subst w lang.
  split; [apply stored_unique; assumption | apply stored_length].
Qed.

End Updates.



(** X3: Answers to words without a carriage return never make a second
    row for a key, and no answer adds more than one row. *)
Theorem record_answers_unique_keys rows answers :
  unique_keys rows ->
  Forall (fun a => plain (a_word a) /\ plain (a_language a)) answers ->
  unique_keys (record_answers rows answers) /\
  (length (record_answers rows answers) <= length rows + length answers)%nat.
Proof.
  revert rows.
  induction answers as [|a answers IH]; intros rows Hu Hplain; cbn.
  - split; [exact Hu | lia].
  - apply Forall_cons in Hplain as [[Hw Hl] Hplain].
    assert (Hstep : unique_keys (record_answer rows a) /\
                    (length (record_answer rows a) <= S (length rows))%nat).
    { destruct (record_answer_cases rows a) as [-> | [[n ->]|H]].
      - split; [exact Hu | lia].
      - split; [apply unique_keys_take, Hu|].
        rewrite length_map, length_take. lia.
      - destruct (update_word_progress_unique _ _ _ _ _ _ _ _ Hw Hl Hu H).
        split; [assumption | lia]. }
    destruct Hstep as [Hu' Hlen].
    destruct (IH _ Hu' Hplain) as [Hu'' Hlen'].
    unfold record_answers in *. split; [exact Hu'' | lia].
Qed.

Lemma record_answers_unique_keys_witness :
  unique_keys (record_answers [] sample_answers) /\
  (length (record_answers [] sample_answers)
   <= length (@nil Row) + length sample_answers)%nat.
Proof.
  apply (record_answers_unique_keys [] sample_answers).
  - constructor.
  - repeat constructor.
Defined.

(** With a carriage return in the word they do: the word is read back
    with a line feed and is new each time. *)
Example record_answers_duplicate_keys :
  map key_of (record_answers [] cr_answers) = [(lf_word, "en"); (lf_word, "en")].
Proof. vm_compute. reflexivity. Qed.

(** X4: No answer brings a readable ease factor below 1.3. *)
Theorem record_answers_ease_floor rows answers :
  ease_floor rows -> ease_floor (record_answers rows answers).
Proof.
  revert rows.
  induction answers as [|a answers IH]; intros rows Hfloor; cbn.
  - exact Hfloor.
  - apply IH.
    destruct (record_answer_cases rows a) as [-> | [[n ->]|H]].
    + exact Hfloor.
    + apply Forall_map. apply Forall_take.
      eapply Forall_impl; [exact Hfloor|]. intros row Hrow. exact Hrow.
    + exact (update_word_progress_ease_floor _ _ _ _ _ _ _ _ Hfloor H).
Qed.

Lemma record_answers_ease_floor_witness :
  ease_floor (record_answers [sample_row] sample_answers).
Proof.
  apply (record_answers_ease_floor [sample_row] sample_answers).
  constructor; [|constructor].
  intros ef H. injection H as <-. vm_compute. reflexivity.
Defined.



(** ** More on the two scans *)

Section MoreScans.

Import ReviewStrategy.

(** The scan goes past the rows of other languages and the rows whose
    [next_review] is text that is no date without looking at the limit,
    so they can be left out beforehand. *)
Lemma due_loop_scanned lang now limit rows : forall words_due,
  due_loop lang now limit rows words_due
  = due_loop lang now limit (List.filter (scanned lang) rows) words_due.
Proof.
  induction rows as [|row rest IH]; intros acc; [reflexivity|].
  cbn [List.filter]. unfold scanned at 1.
  cbn [due_loop].
  destruct (String.eqb (language row) lang) eqn:El; cbn [negb andb]; [|apply IH].
  destruct (next_review row) as [t| | |] eqn:Et; cbn [negb]; [|apply IH| |];
    cbn [due_loop]; rewrite El, Et; cbn [negb]; try reflexivity.
  destruct (Z.of_nat (length (if t <=? now then acc ++ [row] else acc)) >=? limit);
    [reflexivity | apply IH].
Qed.


End MoreScans.

(** X6: For a limit of at least one a returning due-word query gives the
    first [limit] due rows of the language in file order: never more than
    [limit], each of them due, and all of them when they are fewer.  The
    query returns when no row of the language has a [next_review] that
    is missing or has a UTC offset. *)
Theorem get_words_due_for_review_first_due rows now lang limit :
  1 <= limit ->
  (forall words_due,
     ReviewStrategy.get_words_due_for_review rows now lang limit = Ok words_due ->
     words_due = take (Z.to_nat limit) (List.filter (is_due lang now) rows) /\
     Z.of_nat (length words_due) <= limit /\
     (forall row,
        In row words_due ->
        In row rows /\ language row = lang /\
        exists t, next_review row = Naive t /\ t <= now) /\
     (Z.of_nat (length (List.filter (is_due lang now) rows)) <= limit ->
      forall row,
        In row rows -> is_due lang now row = true -> In row words_due)) /\
  (Forall (fun row => unordered lang row = false) rows ->
   ReviewStrategy.get_words_due_for_review rows now lang limit
   = Ok (take (Z.to_nat limit) (List.filter (is_due lang now) rows))).
Proof.
  intros Hl. split.
  - intros words_due H.
    pose proof (get_words_due_for_review_spec rows now lang limit _ Hl H) as Hspec.
    split; [exact Hspec|]. split; [|split].
    + rewrite Hspec, length_take. lia.
    + intros row Hrow.
      exact (get_words_due_for_review_due _ _ _ _ _ _ Hl H Hrow).
    + intros Hfew row Hin Hdue. rewrite Hspec, take_ge by lia.
      apply filter_In. auto.
  - intros Hall.
    destruct (get_words_due_for_review_returns rows now lang limit Hall)
      as [words_due H].
    rewrite H. f_equal.
    exact (get_words_due_for_review_spec _ _ _ _ _ Hl H).
Qed.

Lemma get_words_due_for_review_first_due_witness :
  ReviewStrategy.get_words_due_for_review
    [sample_row; garbled_row; sample_row; sample_row] 10 "en" 2
  = Ok (take 2 (List.filter (is_due "en" 10)
                  [sample_row; garbled_row; sample_row; sample_row])).
Proof.
  destruct (get_words_due_for_review_first_due
              [sample_row; garbled_row; sample_row; sample_row] 10 "en" 2)
    as [_ H]; [lia|].
  apply H. repeat constructor.
Defined.

(** X7: Whatever the limit, rows of other languages and rows whose
    [next_review] is text that is no date change nothing in the outcome
    of the due-word query, list or exception: the scan goes on past
    them.  A row of the language whose [next_review] is missing or has a
    UTC offset is not passed over: when only rows of the first kind come
    before it, it ends the query with [TypeError]. *)
Theorem get_words_due_for_review_skips rows now lang limit :
  ReviewStrategy.get_words_due_for_review rows now lang limit
  = ReviewStrategy.get_words_due_for_review
      (List.filter (scanned lang) rows) now lang limit /\
  (forall row rest,
     Forall (fun r => scanned lang r = false) rows ->
     unordered lang row = true ->
     ReviewStrategy.get_words_due_for_review (rows ++ row :: rest) now lang limit
     = Raise TypeError).
Proof.
  split; [apply due_loop_scanned|].
  intros row rest Hall Hrow.
  unfold ReviewStrategy.get_words_due_for_review.
  rewrite due_loop_scanned, List.filter_app.
  replace (List.filter (scanned lang) rows) with (@nil Row).
  - unfold unordered in Hrow. apply andb_true_iff in Hrow as [El Hcell].
    cbn [app List.filter]. unfold scanned at 1. rewrite El.
    destruct (next_review row) eqn:Et; try discriminate;
      cbn [andb negb ReviewStrategy.due_loop]; rewrite El, Et; reflexivity.
  - symmetry. induction Hall as [|r rows Hr Hall IH]; [reflexivity|].
    cbn [List.filter]. rewrite Hr. exact IH.
Qed.

Lemma get_words_due_for_review_skips_witness :
  ReviewStrategy.get_words_due_for_review
    ([garbled_row] ++ short_row :: [sample_row]) 10 "en" 5
  = Raise TypeError.
Proof.
  destruct (get_words_due_for_review_skips [garbled_row] 10 "en" 5) as [_ H].
  apply H; [repeat constructor | reflexivity].
Defined.



(** ** The statistics of readable files *)

Section MoreStats.

Import ReviewStrategy.

Lemma shift_pos_digits d m :
  Z.pos (digits2_pos (Pos.iter xO m d)) = Z.pos (digits2_pos m) + Z.pos d.
Proof.
  induction d as [|d IH] using Pos.peano_ind.
  - simpl. lia.
  - rewrite Pos.iter_succ. simpl. rewrite Pos2Z.inj_succ, IH. lia.
Qed.

(** An integer below [2^1023] has a double. *)
Lemma float_of_int_ok n :
  0 <= n < 2 ^ 1023 -> exists x, Py.float_of_int n = Ok x.
Proof.
  intros [H0 Hn]. unfold Py.float_of_int.
  assert (Hfin : finite (binary_normalize prec emax n 0 false)).
  { destruct n as [|p|p]; [exact I| |lia].
    cbn [binary_normalize]. unfold binary_round, shl_align.
    assert (Hd : Z.pos (digits2_pos p) <= 1023)
      by (apply (Zdigits2_le (Z.pos p)); lia).
    destruct (fexp prec emax (Z.pos (digits2_pos p) + 0) - 0) as [|s|s] eqn:Hs.
    - apply binary_round_aux_finite; [lia | simpl; lia | lia].
    - apply binary_round_aux_finite; [lia | simpl; lia | lia].
    - apply binary_round_aux_finite; [lia | |lia].
      cbn [Zdigits2]. rewrite shift_pos_digits. lia. }
  destruct (binary_normalize prec emax n 0 false); simpl in Hfin;
    try contradiction; eauto.
Qed.

Lemma counted_skip lang row :
  match lang with
  | Some l => negb (String.eqb l "") && negb (String.eqb (language row) l)
  | None => false
  end = negb (counted lang row).
Proof.
  unfold counted. destruct lang as [l|]; [|reflexivity].
  rewrite negb_orb. reflexivity.
Qed.

Lemma stats_loop_spec lang rows : forall tw mw lw tm,
  Forall (fun row => counted lang row = true -> mastery_level row <> None) rows ->
  stats_loop lang rows (tw, mw, lw, tm)
  = Ok (tw + Z.of_nat (length (List.filter (counted lang) rows)),
        mw + Z.of_nat (length (List.filter
                                 (fun row => counted lang row && mastered row) rows)),
        lw + Z.of_nat (length (List.filter
                                 (fun row => counted lang row && negb (mastered row)) rows)),
        fold_left (fun acc row =>
                     match mastery_level row with
                     | Some m => (acc + m)%float
                     | None => acc
                     end) (List.filter (counted lang) rows) tm).
Proof.
  induction rows as [|row rest IH]; intros tw mw lw tm Hall.
  - cbn. rewrite !Z.add_0_r. reflexivity.
  - apply Forall_cons in Hall as [Hrow Hall].
    cbn [stats_loop List.filter]. rewrite counted_skip.
    destruct (counted lang row) eqn:Hc; cbn [negb andb].
    + destruct (mastery_level row) as [m|] eqn:Hm; [|exfalso; exact (Hrow eq_refl eq_refl)].
      cbn [read rbind].
      assert (Hmast : mastered row = PrimFloat.leb 0.8 m)
        by (unfold mastered; rewrite Hm; reflexivity).
      rewrite Hmast.
      destruct (PrimFloat.leb 0.8 m); cbn [negb];
        rewrite (IH _ _ _ _ Hall); cbn [length fold_left]; rewrite Hm;
        f_equal; (apply f_equal2; [apply f_equal2; [apply f_equal2|]|]);
        solve [lia | reflexivity].
    + rewrite (IH _ _ _ _ Hall). reflexivity.
Qed.

Lemma filter_split_length {A} (f g : A -> bool) (l : list A) :
  (length (List.filter (fun x => f x && g x) l)
   + length (List.filter (fun x => f x && negb (g x)) l)
   = length (List.filter f l))%nat.
Proof.
  induction l as [|x l IH]; [reflexivity|].
  cbn [List.filter]. destruct (f x), (g x); cbn [andb negb length]; lia.
Qed.

Lemma stats_loop_empty_language rows : forall acc,
  stats_loop (Some "") rows acc = stats_loop None rows acc.
Proof.
  induction rows as [|row rest IH]; intros [[[tw mw] lw] tm]; [reflexivity|].
  cbn [stats_loop]. cbn [String.eqb negb andb].
  destruct (mastery_level row) as [m|]; cbn [read rbind]; [|reflexivity].
  destruct (PrimFloat.leb 0.8 m); apply IH.
Qed.

End MoreStats.

(** X9: On a file whose counted rows all have a readable mastery level (and
    of fewer than [2^1023] rows) the statistics are returned: the total is
    the number of rows of the language, the mastered words are those of
    them with a level of at least 0.8, the words being learned are the
    others, so the two make up the total, and the average is the rounded
    hundredfold of the sum of the levels over the total when there is a
    row, of zero when there is none. *)
Theorem get_mastery_stats_counts round1 rows lang :
  Forall (fun row => counted lang row = true -> mastery_level row <> None) rows ->
  Z.of_nat (length rows) < 2 ^ 1023 ->
  exists stats,
    ReviewStrategy.get_mastery_stats round1 rows lang = Ok stats /\
    total_words stats = Z.of_nat (length (List.filter (counted lang) rows)) /\
    mastered_words stats
    = Z.of_nat (length (List.filter
                          (fun row => counted lang row && mastered row) rows)) /\
    learning_words stats
    = Z.of_nat (length (List.filter
                          (fun row => counted lang row && negb (mastered row)) rows)) /\
    total_words stats = mastered_words stats + learning_words stats /\
    (total_words stats = 0 ->
     average_mastery stats = round1 (0 * 100)%float) /\
    (0 < total_words stats ->
     exists n,
       Py.float_of_int (total_words stats) = Ok n /\
       average_mastery stats
       = round1 (mastery_sum (List.filter (counted lang) rows) / n * 100)%float).
Proof.
  intros Hall Hlen. unfold ReviewStrategy.get_mastery_stats.
  rewrite (stats_loop_spec _ _ _ _ _ _ Hall). cbn [rbind].
  rewrite !Z.add_0_l.
  pose proof (filter_length (counted lang) rows) as Hle.
  pose proof (filter_split_length (counted lang) mastered rows) as Hsplit.
  set (total := length (List.filter (counted lang) rows)) in *.
  destruct (Z.of_nat total >? 0) eqn:Hpos.
  - destruct (float_of_int_ok (Z.of_nat total) ltac:(lia)) as [n Hn].
    rewrite Hn. cbn [rbind]. eexists. split; [reflexivity|].
    cbn [total_words mastered_words learning_words average_mastery].
    split; [reflexivity|]. split; [reflexivity|]. split; [reflexivity|].
    split; [lia|]. split; [lia|].
    intros _. exists n. split; [exact Hn | reflexivity].
  - cbn [rbind]. eexists. split; [reflexivity|].
    cbn [total_words mastered_words learning_words average_mastery].
    split; [reflexivity|]. split; [reflexivity|]. split; [reflexivity|].
    split; [lia|]. split; [reflexivity|]. lia.
Qed.

Lemma get_mastery_stats_counts_witness :
  exists stats,
    ReviewStrategy.get_mastery_stats (fun x => x)
      [sample_row; sample_row] (Some "en") = Ok stats.
Proof.
  destruct (get_mastery_stats_counts (fun x => x)
              [sample_row; sample_row] (Some "en")) as (stats & H & _).
  - repeat constructor; discriminate.
  - vm_compute. reflexivity.
  - exists stats. exact H.
Defined.

(** X10: An empty language name selects nothing: the statistics are those of
    all languages. *)
Theorem get_mastery_stats_empty_language round1 rows :
  ReviewStrategy.get_mastery_stats round1 rows (Some "")
  = ReviewStrategy.get_mastery_stats round1 rows None.
Proof.
  unfold ReviewStrategy.get_mastery_stats.
  rewrite stats_loop_empty_language. reflexivity.
Qed.

(** ** Answers of quality 4 *)

Section Quality4.

Import SM2Algorithm.

Lemma SFleb_SFltb_false m e x :
  SFleb (S754_finite false m e) x = true ->
  SFltb x (S754_finite false m e) = false.
Proof.
  unfold SFltb, SFleb.
  destruct x as [s|s| |s m1 e1]; simpl; try congruence.
  - destruct s; [discriminate | reflexivity].
  - destruct s; [discriminate|].
    rewrite (Z.compare_antisym e1 e).
    destruct (e1 ?= e) eqn:He; simpl; try reflexivity; try discriminate.
    change (Pos.compare_cont Eq m m1) with (Pos.compare m m1).
    change (Pos.compare_cont Eq m1 m) with (Pos.compare m1 m).
    rewrite (Pos.compare_antisym m1 m).
    destruct (m1 ?= m)%positive; simpl; try reflexivity; discriminate.
Qed.

(** Adding the double [0.0] to a double that is at least 1.3 gives it
    back. *)
Lemma add_zero_above_floor ef :
  PrimFloat.leb MIN_EF ef = true -> (ef + 0)%float = ef.
Proof.
  intros H. apply Prim2SF_inj. rewrite add_spec.
  rewrite leb_spec in H.
  assert (Hc : exists m e, Prim2SF MIN_EF = S754_finite false m e)
    by (vm_compute; eauto).
  destruct Hc as (m & e & Hc). rewrite Hc in H.
  apply SFleb_signed in H.
  change (Prim2SF 0) with (S754_zero false).
  destruct (Prim2SF ef) as [s|s| |s m1 e1]; simpl in H; try contradiction;
    subst; reflexivity.
Qed.

Lemma max_above_floor ef :
  PrimFloat.leb MIN_EF ef = true -> Py.max ef MIN_EF = ef.
Proof.
  intros H. unfold Py.max. rewrite ltb_spec. rewrite leb_spec in H.
  assert (Hc : exists m e, Prim2SF MIN_EF = S754_finite false m e)
    by (vm_compute; eauto).
  destruct Hc as (m & e & Hc). rewrite Hc in *.
  rewrite (SFleb_SFltb_false _ _ _ H). reflexivity.
Qed.

Lemma calculate_next_review_same_ease now ef interval repetitions ef' i' r' d' :
  PrimFloat.leb MIN_EF ef = true ->
  calculate_next_review now 4 ef interval repetitions = Ok (ef', i', r', d') ->
  ef' = ef.
Proof.
  intros Hef H. unfold calculate_next_review in H.
  change (Py.float_of_int (5 - 4)) with (Py.float_of_int 1) in H.
  assert (Hone : Py.float_of_int 1 = Ok 1%float) by (vm_compute; reflexivity).
  rewrite Hone in H. cbn [rbind] in H.
  assert (Hzero : (0.1 - 1 * (0.08 + 1 * 0.02))%float = 0%float)
    by (vm_compute; reflexivity).
  rewrite Hzero, (add_zero_above_floor _ Hef), (max_above_floor _ Hef) in H.
  apply rbind_ok in H as ([r i] & _ & H).
  apply rbind_ok in H as (d & _ & H).
  congruence.
Qed.

End Quality4.

(** X11: An answer of quality 4 leaves an ease factor of at least 1.3 as it
    is: the change [0.1 - 1 * (0.08 + 1 * 0.02)] is the double zero. *)
Theorem calculate_next_review_quality_4
    now ef interval repetitions ef' i' r' d' :
  PrimFloat.leb SM2Algorithm.MIN_EF ef = true ->
  SM2Algorithm.calculate_next_review now 4 ef interval repetitions
  = Ok (ef', i', r', d') ->
  ef' = ef.
Proof. apply calculate_next_review_same_ease. Qed.

Lemma calculate_next_review_quality_4_witness :
  PrimFloat.leb SM2Algorithm.MIN_EF 2.5 = true /\
  SM2Algorithm.calculate_next_review 1000 4 2.5 6 2
  = Ok (2.5%float, 15, 3, 1000 + 15 * MICROSECONDS_PER_DAY) /\
  2.5%float = 2.5%float.
Proof.
  split; [vm_compute; reflexivity|].
  split; [vm_compute; reflexivity|].
  apply (calculate_next_review_quality_4 1000 2.5%float 6 2 2.5%float 15 3
           (1000 + 15 * MICROSECONDS_PER_DAY));
    vm_compute; reflexivity.
Defined.

(** X12: A right answer without a time, or with a time from 3 up to 10
    seconds, to a known word whose ease factor is at least 1.3 stores
    the same ease factor again. *)
Theorem update_word_progress_keeps_ease
    rows t_sched t_stamp w lang is_correct time_spent old ef rows' :
  ReviewStrategy._get_word_data rows w lang = Some old ->
  ease_factor old = Some ef ->
  PrimFloat.leb SM2Algorithm.MIN_EF ef = true ->
  SM2Algorithm.quality_from_performance is_correct time_spent = 4 ->
  ReviewStrategy.update_word_progress rows t_sched t_stamp w lang
    is_correct time_spent = Ok rows' ->
  exists row,
    ReviewStrategy._get_word_data rows' w lang = Some row /\
    ease_factor row = Some ef.
Proof.
  intros Hget Hold Hfloor Hq H.
  apply update_word_progress_saved in H
    as (wd & ef0 & i0 & ef' & i' & r' & d' & -> & Hkey & Href & Hcalc & Hef0).
  rewrite Hget in Hef0. rewrite Hq in Hcalc.
  assert (ef0 = ef) by congruence. subst ef0.
  apply (calculate_next_review_same_ease _ _ _ _ _ _ _ _ Hfloor) in Hcalc.
  subst ef'. exists (rewritten wd). split; [|exact Href].
  unfold key_of in Hkey.
  assert (Hw : word wd = w) by congruence.
  assert (Hl : language wd = lang) by congruence.
  subst w lang. exact (_get_word_data_stored_known _ _ _ Hget).
Qed.

Lemma update_word_progress_keeps_ease_witness :
  exists row,
    ReviewStrategy._get_word_data
      (record_answers [sample_row]
         [{| a_word := "cat"; a_language := "en"; a_correct := true;
             a_time := None; a_sched := 1000; a_stamp := 1001 |}])
      "cat" "en" = Some row /\
    ease_factor row = Some 2.6%float.
Proof.
  apply (update_word_progress_keeps_ease [sample_row] 1000 1001 "cat" "en"
           true None sample_row 2.6%float);
    vm_compute; reflexivity.
Defined.

(** ** More on the gate and on the new questions *)

Section MoreGate.

Import QuestionGenerator.

Lemma missing_field_dict kvs :
  missing_field required_fields (PDict kvs)
  = Ok (negb (forallb (fun field =>
                         match assoc field kvs with
                         | Some _ => true
                         | None => false
                         end) required_fields)).
Proof.
  unfold required_fields. cbn [missing_field has_field rbind forallb].
  destruct (assoc "type" kvs); cbn [negb andb]; [|reflexivity].
  destruct (assoc "question" kvs); cbn [negb andb]; [|reflexivity].
  destruct (assoc "answer" kvs); cbn [negb andb]; [|reflexivity].
  destruct (assoc "word" kvs); reflexivity.
Qed.

Lemma has_required_fields_forallb kvs :
  has_required_fields kvs ->
  forallb (fun field =>
             match assoc field kvs with
             | Some _ => true
             | None => false
             end) required_fields = true.
Proof.
  unfold has_required_fields. intros H.
  apply forallb_forall. intros field Hin.
  rewrite Forall_forall in H.
  destruct (H field (proj2 (list_elem_of_In _ _) Hin)) as [v ->]. reflexivity.
Qed.

Lemma gate_returns_on_dict kvs :
  exists b, _validate_question (PDict kvs) = Ok b.
Proof.
  unfold _validate_question. rewrite missing_field_dict. cbn [rbind].
  destruct (forallb _ required_fields) eqn:Hall; cbn [negb]; [|eauto].
  assert (Hty : exists ty, assoc "type" kvs = Some ty).
  { rewrite forallb_forall in Hall.
    specialize (Hall "type" ltac:(left; reflexivity)).
    destruct (assoc "type" kvs); [eauto | discriminate]. }
  assert (Hans : exists a, assoc "answer" kvs = Some a).
  { rewrite forallb_forall in Hall.
    specialize (Hall "answer" ltac:(right; right; left; reflexivity)).
    destruct (assoc "answer" kvs); [eauto | discriminate]. }
  destruct Hty as [ty Hty]. destruct Hans as [a Ha].
  cbn [getitem has_field]. rewrite Hty, Ha. cbn [rbind].
  destruct (py_eq ty (PStr "multiple_choice")); [|eauto].
  destruct (assoc "options" kvs) as [options|]; cbn [negb rbind]; [|eauto].
  destruct options as [| | | |l|]; eauto.
  destruct (negb (length l =? 4)%nat); [eauto|]. cbn [rbind].
  destruct (negb (py_in a l)); eauto.
Qed.

Lemma gate_accepts_dict kvs :
  has_required_fields kvs -> well_formed_choice (PDict kvs) ->
  gate_accepted (PDict kvs).
Proof.
  intros Hreq Hwf. unfold gate_accepted, _validate_question.
  rewrite missing_field_dict, (has_required_fields_forallb _ Hreq).
  cbn [negb rbind].
  assert (Hty : exists ty, assoc "type" kvs = Some ty).
  { unfold has_required_fields in Hreq. rewrite Forall_forall in Hreq.
    apply Hreq. apply list_elem_of_In. left. reflexivity. }
  destruct Hty as [ty Hty].
  assert (Hget : getitem (PDict kvs) "type" = Ok ty)
    by (cbn [getitem]; rewrite Hty; reflexivity).
  rewrite Hget. cbn [rbind].
  destruct (py_eq ty (PStr "multiple_choice")) eqn:Hmc; [|reflexivity].
  destruct (Hwf ty Hget Hmc) as (options & answer & Hopt & Hlen & Hans & Hin).
  rewrite Hopt, Hans. cbn [getitem] in Hopt.
  cbn [has_field].
  destruct (assoc "options" kvs); [|discriminate]. cbn [negb rbind].
  rewrite Hlen, Hin. reflexivity.
Qed.

Lemma gate_on_other_values q :
  (forall kvs, q <> PDict kvs) ->
  _validate_question q = Ok false \/ _validate_question q = Raise TypeError.
Proof.
  intros Hq. unfold _validate_question.
  destruct q as [|b|n|s|l|kvs]; try (right; reflexivity);
    [| |exfalso; exact (Hq kvs eq_refl)].
  - destruct (missing_field required_fields (PStr s)) as [[|]|e] eqn:Hm;
      cbn [rbind getitem]; auto.
    exfalso. unfold required_fields in Hm.
    cbn [missing_field has_field rbind] in Hm.
    repeat match type of Hm with
           | context [negb ?b] => destruct b; cbn [negb] in Hm
           end; discriminate.
  - destruct (missing_field required_fields (PList l)) as [[|]|e] eqn:Hm;
      cbn [rbind getitem]; auto.
    exfalso. unfold required_fields in Hm.
    cbn [missing_field has_field rbind] in Hm.
    repeat match type of Hm with
           | context [negb ?b] => destruct b; cbn [negb] in Hm
           end; discriminate.
Qed.

(** A list of accepted items goes through the validation loop as it
    is. *)
Lemma validate_all_accepted items : forall acc,
  Forall gate_accepted items -> validate_all items acc = Ok (acc ++ items).
Proof.
  induction items as [|q items IH]; intros acc Hall; cbn [validate_all].
  - rewrite app_nil_r. reflexivity.
  - apply Forall_cons in Hall as [Hq Hall].
    unfold gate_accepted in Hq. rewrite Hq. cbn [rbind].
    rewrite (IH _ Hall), <- app_assoc. reflexivity.
Qed.

(** The loop filters the items when the gate raises on none. *)
Lemma validate_all_filter items : forall acc,
  Forall (fun q => exists b, _validate_question q = Ok b) items ->
  validate_all items acc
  = Ok (acc ++ List.filter
                 (fun q => match _validate_question q with
                           | Ok b => b
                           | Raise _ => false
                           end) items).
Proof.
  induction items as [|q items IH]; intros acc Hall; cbn [validate_all List.filter].
  - rewrite app_nil_r. reflexivity.
  - apply Forall_cons in Hall as [[b Hq] Hall].
    rewrite Hq. cbn [rbind]. rewrite (IH _ Hall).
    destruct b; [rewrite <- app_assoc|]; reflexivity.
Qed.

(** One item on which the gate raises makes the whole loop raise. *)
Lemma validate_all_raises items : forall acc,
  Exists gate_raises items -> exists e, validate_all items acc = Raise e.
Proof.
  induction items as [|q items IH]; intros acc Hex.
  - apply Exists_nil in Hex. contradiction.
  - cbn [validate_all].
    destruct (_validate_question q) as [b|e] eqn:Hq; cbn [rbind]; [|eauto].
    apply Exists_cons in Hex as [[e He]|Hex]; [|apply IH, Hex].
    unfold gate_raises in *. congruence.
Qed.

Lemma new_questions_reply w config count items :
  source_reply w config count (PList items) ->
  _generate_new_questions w config count
  = Ok (catch
      (if match items with [] => false | _ => true end
       then
         validated_questions <- validate_all items [] ;;
         Ok (slice_to (padded validated_questions count) count)
       else Ok (slice_to _get_default_questions count))
      (fun _ => slice_to _get_default_questions count)).
Proof.
  intros (ai & article & Hai & Hart & Hne & Hreply).
  unfold _generate_new_questions. rewrite Hart. cbn [rbind].
  apply String.eqb_neq in Hne. rewrite Hne, Hai, Hreply.
  cbn [truthy py_len py_iter rbind].
  destruct items as [|q items]; [reflexivity|].
  cbn [rbind length].
  replace (Z.of_nat (S (length items)) >? 0) with true
    by (symmetry; apply Z.gtb_lt; lia).
  cbn [rbind]. reflexivity.
Qed.

End MoreGate.

Section MoreNewQuestions.

Import QuestionGenerator.

Lemma validate_all_no_dict items : forall acc,
  Forall (fun q => forall kvs, q <> PDict kvs) items ->
  validate_all items acc = Ok acc \/ exists e, validate_all items acc = Raise e.
Proof.
  induction items as [|q items IH]; intros acc Hall; cbn [validate_all].
  - left. reflexivity.
  - apply Forall_cons in Hall as [Hq Hall].
    destruct (gate_on_other_values q Hq) as [-> | ->]; cbn [rbind].
    + apply IH, Hall.
    + right. eauto.
Qed.

Lemma slice_to_all {A : Type} (l : list A) k :
  Z.of_nat (length l) <= k -> slice_to l k = l.
Proof.
  intros H. unfold slice_to.
  replace (k <? 0) with false by (symmetry; apply Z.ltb_ge; lia).
  apply take_ge. lia.
Qed.

Lemma padded_nil count :
  0 < count ->
  slice_to (padded [] count) count = slice_to _get_default_questions count.
Proof.
  intros Hc. unfold padded. cbn [length app].
  replace (Z.of_nat 0 <? count) with true by (symmetry; apply Z.ltb_lt; lia).
  replace (count - Z.of_nat 0) with count by lia.
  apply slice_to_all. rewrite slice_to_length by lia. lia.
Qed.

Lemma new_questions_from_dicts w config count items :
  source_reply w config count (PList items) ->
  0 < count ->
  Forall is_dict items ->
  _generate_new_questions w config count
  = Ok (slice_to (padded (List.filter passes items) count) count).
Proof.
  intros Hsrc Hc Hall.
  rewrite (new_questions_reply _ _ _ _ Hsrc). f_equal.
  destruct items as [|q items]; [cbn [List.filter catch]; symmetry; apply padded_nil, Hc|].
  rewrite validate_all_filter.
  - reflexivity.
  - eapply Forall_impl; [exact Hall|].
    intros x [kvs ->]. apply gate_returns_on_dict.
Qed.

Lemma new_questions_dropped w config count reply :
  source_reply w config count reply ->
  0 < count ->
  (forall items, reply = PList items -> Exists gate_raises items) ->
  _generate_new_questions w config count
  = Ok (slice_to _get_default_questions count).
Proof.
  intros Hsrc Hc Hbad.
  destruct reply as [|b|n|s|l|kvs].
  1-4, 6: destruct Hsrc as (ai & article & Hai & Hart & Hne & Hreply);
    unfold _generate_new_questions; rewrite Hart; cbn [rbind];
    apply String.eqb_neq in Hne; rewrite Hne, Hai, Hreply;
    apply (f_equal Ok).
  - reflexivity.
  - destruct b; reflexivity.
  - cbn [truthy py_len]. destruct (negb (n =? 0)); reflexivity.
  - cbn [truthy py_len py_iter].
    destruct (negb (String.eqb s "")); [|reflexivity]. cbn [rbind].
    destruct (Z.of_nat (String.length s) >? 0); [|reflexivity]. cbn [rbind].
    destruct (validate_all_no_dict
                (map (fun a => PStr (String a EmptyString))
                     (String.list_ascii_of_string s)) [])
      as [-> | [e ->]]; [| |reflexivity].
    + apply Forall_forall. intros x Hx kvs ->.
      apply list_elem_of_In, in_map_iff in Hx as (a & Hx & _). discriminate.
    + cbn [rbind catch]. apply (padded_nil count Hc).
  - cbn [truthy py_len py_iter].
    destruct kvs as [|kv kvs]; [reflexivity|]. cbn [rbind].
    destruct (Z.of_nat (length (kv :: kvs)) >? 0); [|reflexivity]. cbn [rbind].
    destruct (validate_all_no_dict (map (fun kv => PStr (fst kv)) (kv :: kvs)) [])
      as [-> | [e ->]]; [| |reflexivity].
    + apply Forall_forall. intros x Hx kvs' ->.
      apply list_elem_of_In, in_map_iff in Hx as (a & Hx & _). discriminate.
    + cbn [rbind catch]. apply (padded_nil count Hc).
  - rewrite (new_questions_reply _ _ _ _ Hsrc). f_equal.
    specialize (Hbad l eq_refl).
    destruct l as [|q l]; [apply Exists_nil in Hbad; contradiction|].
    destruct (validate_all_raises (q :: l) [] Hbad) as [e ->]. reflexivity.
Qed.

End MoreNewQuestions.

(** X13: The gate on a dict: it returns and never raises, and it accepts
    exactly the dicts that have the four required fields and, when their
    type is [multiple_choice], four options with the answer among them.
    Nothing else is looked at: any other type is accepted as it is. *)
Theorem _validate_question_dict kvs :
  (exists b, QuestionGenerator._validate_question (PDict kvs) = Ok b) /\
  (gate_accepted (PDict kvs) <->
   has_required_fields kvs /\ well_formed_choice (PDict kvs)).
Proof.
  split; [apply gate_returns_on_dict|]. split.
  - intros H. apply gate_accepted_inv in H as [(kvs' & Heq & Hreq) Hwf].
    injection Heq as <-. split; assumption.
  - intros [Hreq Hwf]. apply gate_accepts_dict; assumption.
Qed.

Lemma _validate_question_dict_witness : gate_accepted cat_question.
Proof.
  apply (_validate_question_dict
           [("type", PStr "fill_blank");
            ("question", PStr "The ___ sat on the mat.");
            ("answer", PStr "cat");
            ("word", PStr "cat")]).
  split.
  - repeat constructor; eexists; reflexivity.
  - intros ty Hty Hmc. cbn in Hty. injection Hty as <-. discriminate.
Defined.

(** X14: The gate on what is no dict: it rejects it or raises [TypeError],
    and raises on [None], booleans and numbers. *)
Theorem _validate_question_not_dict q :
  (forall kvs, q <> PDict kvs) ->
  (QuestionGenerator._validate_question q = Ok false \/
   QuestionGenerator._validate_question q = Raise TypeError) /\
  (match q with
   | PNone | PBool _ | PInt _ => True
   | _ => False
   end -> QuestionGenerator._validate_question q = Raise TypeError).
Proof.
  intros Hq. split; [apply gate_on_other_values, Hq|].
  destruct q; try contradiction; reflexivity.
Qed.

Lemma _validate_question_not_dict_witness :
  QuestionGenerator._validate_question (PStr "type question answer word")
  = Raise TypeError /\
  QuestionGenerator._validate_question (PStr "cat") = Ok false /\
  QuestionGenerator._validate_question (PInt 5) = Raise TypeError.
Proof.
  split; [reflexivity|]. split; [reflexivity|].
  apply (_validate_question_not_dict (PInt 5)); [discriminate | exact I].
Defined.

(** X15: With an article and the source at hand, a reply that is a list of
    dicts gives the new questions: the items the gate accepts, in the
    order of the reply, cut to [count], or filled up from the start of
    the bank when they are fewer. *)
Theorem _generate_new_questions_from_reply w config count items :
  source_reply w config count (PList items) ->
  0 < count ->
  Forall is_dict items ->
  QuestionGenerator._generate_new_questions w config count
  = Ok (slice_to (padded (List.filter passes items) count) count) /\
  (count <= Z.of_nat (length (List.filter passes items)) ->
   QuestionGenerator._generate_new_questions w config count
   = Ok (take (Z.to_nat count) (List.filter passes items))) /\
  (Z.of_nat (length (List.filter passes items)) < count ->
   QuestionGenerator._generate_new_questions w config count
   = Ok (List.filter passes items
         ++ slice_to QuestionGenerator._get_default_questions
              (count - Z.of_nat (length (List.filter passes items))))).
Proof.
  intros Hsrc Hc Hall.
  rewrite (new_questions_from_dicts _ _ _ _ Hsrc Hc Hall).
  split; [reflexivity|]. unfold padded. split; intros Hlen; f_equal.
  - replace (_ <? count) with false by (symmetry; apply Z.ltb_ge; lia).
    unfold slice_to.
    replace (count <? 0) with false by (symmetry; apply Z.ltb_ge; lia).
    reflexivity.
  - replace (_ <? count) with true by (symmetry; apply Z.ltb_lt; lia).
    apply slice_to_all.
    rewrite length_app, Nat2Z.inj_add, slice_to_length by lia. lia.
Qed.

Lemma _generate_new_questions_from_reply_witness :
  QuestionGenerator._generate_new_questions
    (world_with_reply (PList [no_answer_question; cat_question]))
    sample_config 2
  = Ok (cat_question :: slice_to QuestionGenerator._get_default_questions 1).
Proof.
  apply (_generate_new_questions_from_reply
           (world_with_reply (PList [no_answer_question; cat_question]))
           sample_config 2 [no_answer_question; cat_question]).
  - eexists _, _. repeat split. discriminate.
  - lia.
  - repeat constructor; eexists; reflexivity.
  - vm_compute. reflexivity.
Defined.

(** X16: With an article and the source at hand, a reply that is no list, or
    a list with an item on which the gate raises, is dropped as a whole:
    the new questions are the first [count] of the bank, also when other
    items of the list were valid. *)
Theorem _generate_new_questions_drops_reply w config count reply :
  source_reply w config count reply ->
  0 < count ->
  (forall items, reply = PList items -> Exists gate_raises items) ->
  QuestionGenerator._generate_new_questions w config count
  = Ok (slice_to QuestionGenerator._get_default_questions count).
Proof. apply new_questions_dropped. Qed.

Lemma _generate_new_questions_drops_reply_witness :
  QuestionGenerator._generate_new_questions
    (world_with_reply (PList [cat_question; PInt 5])) sample_config 2
  = Ok (slice_to QuestionGenerator._get_default_questions 2).
Proof.
  apply (_generate_new_questions_drops_reply
           (world_with_reply (PList [cat_question; PInt 5]))
           sample_config 2 (PList [cat_question; PInt 5])).
  - eexists _, _. repeat split. discriminate.
  - lia.
  - intros items H. injection H as <-.
    apply Exists_cons_tl, Exists_cons_hd. exists TypeError. reflexivity.
Defined.

(** ** Words always or never answered rightly *)

Section Extremes.




End Extremes.



(** ** More on sessions *)

Section MoreSessions.

Import QuestionGenerator.

Lemma get_random_article_Some w content :
  get_random_article w = Ok (Some content) ->
  exists entries name,
    articles_dir w = Ok entries /\
    In (name, Ok content) entries /\ endswith name ".txt" = true.
Proof.
  unfold get_random_article.
  destruct (articles_dir w) as [entries|e]; cbn [rbind]; [|discriminate].
  set (articles := filter (fun f => endswith (fst f) ".txt" = true) entries).
  destruct articles as [|a rest] eqn:Ha; [discriminate|].
  rewrite <- Ha.
  destruct (articles !! (choice w mod length articles)%nat) as [[name [c|e]]|] eqn:Hl;
    try discriminate.
  intros H. injection H as <-.
  apply list_elem_of_lookup_2 in Hl. unfold articles in Hl.
  apply list_elem_of_filter in Hl as [Hend Hin].
  exists entries, name.
  split; [reflexivity|]. split; [apply list_elem_of_In, Hin | exact Hend].
Qed.

Lemma get_random_article_None w entries :
  articles_dir w = Ok entries ->
  Forall (fun f => endswith (fst f) ".txt" = false) entries ->
  get_random_article w = Ok None.
Proof.
  intros Hdir Hall. unfold get_random_article. rewrite Hdir. cbn [rbind].
  destruct (filter _ entries) as [|a rest] eqn:Ha; [reflexivity|].
  exfalso.
  assert (Hin : a ∈ filter (fun f => endswith (fst f) ".txt" = true) entries)
    by (rewrite Ha; left).
  apply list_elem_of_filter in Hin as [Hend Hin].
  rewrite Forall_forall in Hall. rewrite (Hall _ Hin) in Hend. discriminate.
Qed.

Lemma get_random_article_readable w entries :
  articles_dir w = Ok entries ->
  Forall (fun f => endswith (fst f) ".txt" = true -> is_ok (snd f) = true)
         entries ->
  Exists (fun f => endswith (fst f) ".txt" = true) entries ->
  exists content, get_random_article w = Ok (Some content).
Proof.
  intros Hdir Hall Hex. unfold get_random_article. rewrite Hdir. cbn [rbind].
  remember (filter (fun f => endswith (fst f) ".txt" = true) entries)
    as articles eqn:Hart.
  assert (Hsub : forall f, f ∈ articles ->
            endswith (fst f) ".txt" = true /\ f ∈ entries)
    by (intros f Hf; subst articles; apply list_elem_of_filter in Hf; exact Hf).
  assert (Hne : articles <> []).
  { apply Exists_exists in Hex as (f & Hin & Hend).
    assert (Hf : f ∈ articles) by (subst articles; apply list_elem_of_filter; auto).
    intros ->. inversion Hf. }
  clear Hart.
  destruct articles as [|a rest]; [congruence|].
  assert (Hlt : (choice w mod length (a :: rest) < length (a :: rest))%nat)
    by (apply Nat.mod_upper_bound; discriminate).
  apply lookup_lt_is_Some in Hlt as [[name r] Hl].
  rewrite Hl.
  apply list_elem_of_lookup_2, Hsub in Hl as [Hend Hin].
  rewrite Forall_forall in Hall. specialize (Hall _ Hin Hend).
  destruct r as [content|e]; [eauto | discriminate].
Qed.

Lemma shuffles_nil f : shuffles f -> f [] = [].
Proof. intros H. apply Permutation_nil. symmetry. apply H. Qed.

Lemma session_pool_offline w config count pool :
  ai_service w = None -> 0 <= count ->
  session_pool w config count = Ok pool ->
  pool = slice_to _get_default_questions count.
Proof.
  intros Hai Hc. unfold session_pool, review_questions_of. rewrite Hai.
  cbn [length app]. replace (count - Z.of_nat 0) with count by lia.
  destruct (count >? 0) eqn:Hpos.
  - intros H. apply rbind_ok in H as (l & Hl & H). injection H as <-.
    cbn [app]. apply (new_questions_from_bank w config count); [|exact Hl].
    right. exact Hai.
  - assert (count = 0) by (rewrite Z.gtb_ltb in Hpos; apply Z.ltb_ge in Hpos; lia).
    subst count. intros H. injection H as <-. reflexivity.
Qed.

Lemma offline_session_eq w config count session :
  shuffles (shuffle w) -> ai_service w = None -> 0 <= count ->
  generate w config count = Ok session ->
  (count <= 15 ->
   session = shuffle w (slice_to _get_default_questions count)) /\
  (15 <= count ->
   session
   = shuffle w _get_default_questions
     ++ slice_to _get_default_questions (count - 15)).
Proof.
  intros Hsh Hai Hc H.
  apply generate_ok in H as (pool & Hpool & ->).
  rewrite (session_pool_offline _ _ _ _ Hai Hc Hpool).
  unfold padded. split; intros Hcount.
  - rewrite (Permutation_length (Hsh _)), slice_to_length by lia.
    rewrite default_questions_length.
    replace (Z.min count (Z.of_nat 15) <? count) with false
      by (symmetry; apply Z.ltb_ge; lia).
    apply slice_to_all.
    rewrite (Permutation_length (Hsh _)), slice_to_length by lia.
    rewrite default_questions_length. lia.
  - assert (Hbank : slice_to _get_default_questions count = _get_default_questions)
      by (apply slice_to_all; rewrite default_questions_length; lia).
    rewrite Hbank, (Permutation_length (Hsh _)), default_questions_length.
    destruct (Z.of_nat 15 <? count) eqn:Hlt.
    + replace (count - Z.of_nat 15) with (count - 15) by lia.
      apply slice_to_all.
      rewrite length_app, Nat2Z.inj_add, (Permutation_length (Hsh _)),
        default_questions_length, slice_to_length by lia.
      lia.
    + assert (count = 15) by (apply Z.ltb_ge in Hlt; lia). subst count.
      change (slice_to _get_default_questions (15 - 15)) with (@nil pyval).
      rewrite app_nil_r. apply slice_to_all.
      rewrite (Permutation_length (Hsh _)), default_questions_length. lia.
Qed.

Lemma review_questions_offline w config :
  ai_service w = None -> review_questions_of w config = [].
Proof. intros H. unfold review_questions_of. rewrite H. reflexivity. Qed.

End MoreSessions.

(** X18: The article that is drawn is the text of an entry of the articles
    directory whose name ends in [.txt] and that could be read; a
    directory without such a name gives no article, and one where every
    such entry can be read and there is one gives an article.  When the
    directory cannot be listed the exception of the listing leaves the
    call. *)
Theorem get_random_article_entries w :
  (forall content,
     QuestionGenerator.get_random_article w = Ok (Some content) ->
     exists entries name,
       articles_dir w = Ok entries /\
       In (name, Ok content) entries /\ endswith name ".txt" = true) /\
  (forall entries,
     articles_dir w = Ok entries ->
     Forall (fun f => endswith (fst f) ".txt" = false) entries ->
     QuestionGenerator.get_random_article w = Ok None) /\
  (forall entries,
     articles_dir w = Ok entries ->
     Forall (fun f => endswith (fst f) ".txt" = true -> is_ok (snd f) = true)
            entries ->
     Exists (fun f => endswith (fst f) ".txt" = true) entries ->
     exists content, QuestionGenerator.get_random_article w = Ok (Some content)) /\
  (forall e,
     articles_dir w = Raise e ->
     QuestionGenerator.get_random_article w = Raise e).
Proof.
  split; [apply get_random_article_Some|].
  split; [apply get_random_article_None|].
  split; [apply get_random_article_readable | apply get_random_article_unlisted].
Qed.

Lemma get_random_article_entries_witness :
  QuestionGenerator.get_random_article world_no_article = Ok None /\
  (exists content,
     QuestionGenerator.get_random_article (world_with_reply PNone)
     = Ok (Some content)) /\
  QuestionGenerator.get_random_article world_no_directory = Raise OSError.
Proof.
  destruct (get_random_article_entries world_no_article) as (_ & Hnone & _).
  destruct (get_random_article_entries (world_with_reply PNone))
    as (_ & _ & Hsome & _).
  destruct (get_random_article_entries world_no_directory)
    as (_ & _ & _ & Hraise).
  split; [|split].
  - apply (Hnone _ eq_refl). repeat constructor.
  - apply (Hsome _ eq_refl).
    + repeat constructor.
    + apply Exists_cons_tl, Exists_cons_hd. reflexivity.
  - apply Hraise. reflexivity.
Defined.

(** X19: Without the source a returned session of up to 15 questions is
    the first [count] questions of the bank, shuffled; a longer one is
    the whole bank, shuffled, followed by the first [count - 15]
    questions of the bank in their order, so these come twice.  The
    call returns when the articles directory can be listed; when it
    cannot, the exception of the listing leaves a call for one question
    or more. *)
Theorem generate_offline w config count :
  shuffles (shuffle w) ->
  ai_service w = None ->
  0 <= count ->
  (forall session,
     QuestionGenerator.generate w config count = Ok session ->
     (count <= 15 ->
      session
      = shuffle w (slice_to QuestionGenerator._get_default_questions count) /\
      Permutation session
        (take (Z.to_nat count) QuestionGenerator._get_default_questions)) /\
     (15 <= count ->
      session
      = shuffle w QuestionGenerator._get_default_questions
        ++ slice_to QuestionGenerator._get_default_questions (count - 15))) /\
  (listable w ->
   exists session, QuestionGenerator.generate w config count = Ok session) /\
  (forall e,
     articles_dir w = Raise e -> 0 < count ->
     QuestionGenerator.generate w config count = Raise e).
Proof.
  intros Hsh Hai Hc. split; [|split].
  - intros session H.
    destruct (offline_session_eq w config count session Hsh Hai Hc H)
      as [Hlow Hhigh].
    split; [|exact Hhigh].
    intros Hcount. rewrite (Hlow Hcount). split; [reflexivity|].
    rewrite (Hsh _). unfold slice_to.
    replace (count <? 0) with false by (symmetry; apply Z.ltb_ge; lia).
    reflexivity.
  - intros Hl. apply generate_returns. left. exact Hl.
  - intros e Hdir Hpos. apply generate_unlisted; [exact Hdir|].
    rewrite (review_questions_offline _ _ Hai). simpl. exact Hpos.
Qed.

Lemma generate_offline_witness :
  (exists session,
     QuestionGenerator.generate world_offline sample_config 3 = Ok session /\
     Permutation session (take 3 QuestionGenerator._get_default_questions)) /\
  QuestionGenerator.generate world_offline sample_config 17
  = Ok (rev QuestionGenerator._get_default_questions
        ++ take 2 QuestionGenerator._get_default_questions) /\
  QuestionGenerator.generate world_no_directory sample_config 3 = Raise OSError.
Proof.
  destruct (generate_offline world_offline sample_config 3 shuffles_rev)
    as (Hlow & Hret & _); [reflexivity | lia |].
  destruct (generate_offline world_offline sample_config 17 shuffles_rev)
    as (Hhigh & Hret' & _); [reflexivity | lia |].
  destruct (generate_offline world_no_directory sample_config 3 shuffles_rev)
    as (_ & _ & Hraise); [reflexivity | lia |].
  split; [|split].
  - destruct Hret as [session Hs]; [eexists; reflexivity|].
    exists session. split; [exact Hs|].
    apply (Hlow session Hs). lia.
  - destruct Hret' as [session Hs]; [eexists; reflexivity|].
    rewrite Hs. f_equal. apply (Hhigh session Hs). lia.
  - apply Hraise; [reflexivity | lia].
Defined.

(** X20: The quality of an answer decides the branch of the scheduler: a
    wrong answer has quality 2, whatever its time, and resets the
    repetitions with an interval of one day; a right answer has a
    quality from 3 to 5, 4 without a time, and counts one repetition
    more. *)
Theorem quality_from_performance_branch is_correct time_spent :
  (is_correct = false ->
   SM2Algorithm.quality_from_performance is_correct time_spent = 2) /\
  (is_correct = true ->
   3 <= SM2Algorithm.quality_from_performance is_correct time_spent <= 5) /\
  (is_correct = true -> time_spent = None ->
   SM2Algorithm.quality_from_performance is_correct time_spent = 4) /\
  (forall now ef interval repetitions ef' i' r' d',
     SM2Algorithm.calculate_next_review now
       (SM2Algorithm.quality_from_performance is_correct time_spent)
       ef interval repetitions = Ok (ef', i', r', d') ->
     r' = (if is_correct then repetitions + 1 else 0) /\
     (is_correct = false -> i' = 1 /\ d' = now + MICROSECONDS_PER_DAY)).
Proof.
  assert (Hwrong : SM2Algorithm.quality_from_performance false time_spent = 2)
    by reflexivity.
  assert (Hright : 3 <= SM2Algorithm.quality_from_performance true time_spent <= 5).
  { unfold SM2Algorithm.quality_from_performance. cbn [negb].
    destruct time_spent as [t|]; [|lia].
    destruct (Py.lt_int t 3); [lia|]. destruct (Py.lt_int t 10); lia. }
  split; [intros ->; exact Hwrong|].
  split; [intros ->; exact Hright|].
  split; [intros -> ->; reflexivity|].
  intros now ef interval repetitions ef' i' r' d' H.
  apply calculate_next_review_inv in H. destruct H as (Hlow & Hhigh & Hdate).
  destruct is_correct.
  - split; [apply Hhigh; lia | discriminate].
  - rewrite Hwrong in Hlow, Hhigh.
    destruct (Hlow ltac:(lia)) as [-> ->].
    split; [reflexivity|]. intros _. split; [reflexivity|].
    apply add_days_ok in Hdate. lia.
Qed.

Lemma quality_from_performance_branch_witness :
  SM2Algorithm.quality_from_performance false (Some (Py.Int 1)) = 2 /\
  SM2Algorithm.quality_from_performance true None = 4.
Proof.
  split.
  - apply (quality_from_performance_branch false (Some (Py.Int 1))). reflexivity.
  - apply (quality_from_performance_branch true None); reflexivity.
Defined.

(** ** The difficulty adjustment *)

Section MoreAdjust.

Import App.

Variable fsum : list float -> float.

Lemma length_last_five {A : Type} (rows : list A) :
  (length (last_five rows) <= 5)%nat.
Proof. unfold last_five. rewrite length_drop. lia. Qed.

Lemma last_five_idem {A : Type} (rows : list A) :
  last_five (last_five rows) = last_five rows.
Proof.
  unfold last_five at 1. pose proof (length_last_five rows) as H.
  replace (length (last_five rows) - 5)%nat with 0%nat by lia.
  reflexivity.
Qed.

Lemma recent_loop_returns cl rows : forall acc,
  Forall language_after_accuracy rows ->
  exists l,
    recent_loop cl rows acc = Ok (acc ++ l) /\ (length l <= length rows)%nat.
Proof.
  induction rows as [|row rest IH]; intros acc Hall.
  - exists []. rewrite app_nil_r. split; [reflexivity | simpl; lia].
  - apply Forall_cons in Hall as [Hrow Hall]. cbn [recent_loop].
    destruct (p_language row) as [l|] eqn:Hl.
    + destruct (String.eqb l cl).
      * destruct (p_accuracy row) as [x| |] eqn:Ha.
        -- destruct (IH (acc ++ [x]) Hall) as (l' & -> & Hlen).
           exists (x :: l'). rewrite <- app_assoc. split; [reflexivity | simpl; lia].
        -- destruct (IH acc Hall) as (l' & -> & Hlen).
           exists l'. split; [reflexivity | simpl; lia].
        -- specialize (Hrow Ha). congruence.
      * destruct (IH acc Hall) as (l' & -> & Hlen).
        exists l'. split; [reflexivity | simpl; lia].
    + destruct (IH acc Hall) as (l' & -> & Hlen).
      exists l'. split; [reflexivity | simpl; lia].
Qed.

Lemma recent_loop_none cl rows : forall acc,
  Forall (fun row => p_language row <> Some cl \/ p_accuracy row = AccuracyText)
         rows ->
  recent_loop cl rows acc = Ok acc.
Proof.
  induction rows as [|row rest IH]; intros acc Hall; [reflexivity|].
  apply Forall_cons in Hall as [Hrow Hall]. cbn [recent_loop].
  destruct (p_language row) as [l|] eqn:Hl; [|apply IH, Hall].
  destruct (String.eqb l cl) eqn:He; [|apply IH, Hall].
  apply String.eqb_eq in He. subst l.
  destruct Hrow as [Hrow| ->]; [congruence|]. apply IH, Hall.
Qed.

Lemma recent_loop_short_row cl rows : forall acc,
  Exists (fun row => p_language row = Some cl /\ p_accuracy row = AccuracyNone)
         rows ->
  recent_loop cl rows acc = Raise TypeError.
Proof.
  induction rows as [|row rest IH]; intros acc Hex.
  - apply Exists_nil in Hex. contradiction.
  - cbn [recent_loop]. apply Exists_cons in Hex as [[Hl Ha]|Hex].
    + rewrite Hl, Ha, String.eqb_refl. reflexivity.
    + destruct (p_language row) as [l|]; [|apply IH, Hex].
      destruct (String.eqb l cl); [|apply IH, Hex].
      destruct (p_accuracy row); auto.
Qed.

Lemma float_div_int_small x n :
  0 < n <= 5 -> exists avg, float_div_int x n = Ok avg.
Proof.
  intros Hn. unfold float_div_int.
  replace (n =? 0) with false by (symmetry; apply Z.eqb_neq; lia).
  destruct (float_of_int_ok n) as [d ->]; [|cbn [rbind]; eauto].
  assert (2 ^ 3 <= 2 ^ 1023) by (apply Z.pow_le_mono_r; lia).
  change (2 ^ 3) with 8 in *. lia.
Qed.

Lemma adjust_difficulty_returns cl ls history b :
  level_of (default "英语" cl) (default [] ls) (PInt b) ->
  match history with
  | None => True
  | Some file => exists rows, file = Ok rows /\ Forall language_after_accuracy rows
  end ->
  exists r,
    adjust_difficulty_based_on_performance fsum cl ls history = Ok (PInt r) /\
    (r = b \/ r = Z.min 10 (b + 2) \/ r = Z.min 10 (b + 1) \/
     r = Z.max 1 (b - 2) \/ r = Z.max 1 (b - 1)).
Proof.
  intros (data & Hdata & Hlevel) Hhist.
  unfold adjust_difficulty_based_on_performance.
  rewrite Hdata, Hlevel.
  destruct history as [file|]; [|exists b; auto].
  destruct Hhist as (rows & -> & Hall). cbn [rbind].
  assert (Hlast : Forall language_after_accuracy (last_five rows))
    by (apply Forall_drop, Hall).
  destruct (recent_loop_returns (default "英语" cl) _ [] Hlast) as (l & -> & Hlen).
  cbn [app rbind].
  pose proof (length_last_five rows) as H5.
  destruct l as [|x l]; [exists b; auto|].
  destruct (float_div_int_small (fsum (x :: l)) (Z.of_nat (length (x :: l))))
    as [avg ->]; [cbn [length] in *; lia|].
  cbn [rbind int_of_level].
  destruct (PrimFloat.leb 90 avg); [eexists; split; [reflexivity | auto]|].
  destruct (PrimFloat.leb 80 avg); [eexists; split; [reflexivity | auto]|].
  destruct (PrimFloat.leb avg 40); [eexists; split; [reflexivity | auto 6]|].
  destruct (PrimFloat.leb avg 50); [eexists; split; [reflexivity | auto 6]|].
  exists b. auto.
Qed.

End MoreAdjust.

(** X21: With a level that is a number and a practice history whose rows
    have the accuracy whenever they have the language, the adjustment
    returns a level: the stored one, or one or two above it and at most
    10, or one or two below it and at least 1.  A stored level from 1 to
    10 gives a level from 1 to 10, at most two away from it. *)
Theorem adjust_difficulty_bounds fsum cl ls history b :
  level_of (default "英语" cl) (default [] ls) (PInt b) ->
  match history with
  | None => True
  | Some file => exists rows, file = Ok rows /\ Forall language_after_accuracy rows
  end ->
  exists r,
    App.adjust_difficulty_based_on_performance fsum cl ls history = Ok (PInt r) /\
    (r = b \/ r = Z.min 10 (b + 2) \/ r = Z.min 10 (b + 1) \/
     r = Z.max 1 (b - 2) \/ r = Z.max 1 (b - 1)) /\
    (1 <= b <= 10 -> 1 <= r <= 10 /\ b - 2 <= r <= b + 2).
Proof.
  intros Hlevel Hhist.
  destruct (adjust_difficulty_returns fsum cl ls history b Hlevel Hhist)
    as (r & Hr & Hcases).
  exists r. split; [exact Hr|]. split; [exact Hcases|]. lia.
Qed.

Lemma adjust_difficulty_bounds_witness :
  exists r,
    App.adjust_difficulty_based_on_performance sum_left (Some "en")
      (Some sample_languages) (Some (Ok sample_history)) = Ok (PInt r) /\
    1 <= r <= 10.
Proof.
  destruct (adjust_difficulty_bounds sum_left (Some "en") (Some sample_languages)
              (Some (Ok sample_history)) 9) as (r & Hr & _ & Hb).
  - eexists. split; reflexivity.
  - eexists. split; [reflexivity|].
    repeat constructor; unfold language_after_accuracy; cbn; congruence.
  - exists r. split; [exact Hr|]. apply Hb. lia.
Defined.

(** X22: What the adjustment does at its edges.  A language that is not in
    the profile gives 5, whatever the history.  For a known language:
    without the history file, or without a readable accuracy for the
    language in the last five rows, the stored level is returned as it
    is; only the last five rows are read; a history that cannot be read
    raises, and so does, with [TypeError], a row among the last five
    that has the language and no accuracy cell. *)
Theorem adjust_difficulty_edges fsum cl ls :
  (assoc (default "英语" cl) (default [] ls) = None ->
   forall history,
     App.adjust_difficulty_based_on_performance fsum cl ls history = Ok (PInt 5)) /\
  (forall level,
     level_of (default "英语" cl) (default [] ls) level ->
     App.adjust_difficulty_based_on_performance fsum cl ls None = Ok level /\
     (forall e,
        App.adjust_difficulty_based_on_performance fsum cl ls (Some (Raise e))
        = Raise e) /\
     (forall rows,
        App.adjust_difficulty_based_on_performance fsum cl ls (Some (Ok rows))
        = App.adjust_difficulty_based_on_performance fsum cl ls
            (Some (Ok (App.last_five rows)))) /\
     (forall rows,
        Forall (fun row => p_language row <> Some (default "英语" cl) \/
                           p_accuracy row = AccuracyText) (App.last_five rows) ->
        App.adjust_difficulty_based_on_performance fsum cl ls (Some (Ok rows))
        = Ok level) /\
     (forall rows,
        Exists (fun row => p_language row = Some (default "英语" cl) /\
                           p_accuracy row = AccuracyNone) (App.last_five rows) ->
        App.adjust_difficulty_based_on_performance fsum cl ls (Some (Ok rows))
        = Raise TypeError)).
Proof.
  unfold App.adjust_difficulty_based_on_performance. split.
  - intros ->. reflexivity.
  - intros level (data & -> & ->).
    split; [reflexivity|]. split; [reflexivity|]. split; [|split].
    + intros rows. cbn [rbind]. rewrite last_five_idem. reflexivity.
    + intros rows Hall. cbn [rbind].
      rewrite (recent_loop_none _ _ _ Hall). reflexivity.
    + intros rows Hex. cbn [rbind].
      rewrite (recent_loop_short_row _ _ _ Hex). reflexivity.
Qed.

Lemma adjust_difficulty_edges_witness :
  App.adjust_difficulty_based_on_performance sum_left (Some "fr")
    (Some sample_languages) (Some (Ok sample_history)) = Ok (PInt 5) /\
  App.adjust_difficulty_based_on_performance sum_left (Some "en")
    (Some sample_languages) None = Ok (PInt 9).
Proof.
  destruct (adjust_difficulty_edges sum_left (Some "fr") (Some sample_languages))
    as [Hnone _].
  destruct (adjust_difficulty_edges sum_left (Some "en") (Some sample_languages))
    as [_ Hknown].
  split.
  - apply Hnone. reflexivity.
  - apply (Hknown (PInt 9)). eexists. split; reflexivity.
Defined.

(** ** What the application writes, it can read *)

Section Readable.

Import ReviewStrategy.






End Readable.



(** X24: A returned session has [count] questions or, when the
    questions made before the shuffle and 15 more from the bank do not
    reach [count], that many: the number falls short exactly when
    [count] is more than 15 above the number of questions made before
    the shuffle.  The call returns when the articles directory can be
    listed or the review questions reach [count]. *)
Theorem generate_length_exact w config count :
  shuffles (shuffle w) ->
  0 <= count ->
  (forall session,
     QuestionGenerator.generate w config count = Ok session ->
     exists pool,
       session_pool w config count = Ok pool /\
       Z.of_nat (length session) = Z.min count (Z.of_nat (length pool) + 15) /\
       (Z.of_nat (length session) = count <->
        count <= Z.of_nat (length pool) + 15)) /\
  (listable w \/ count <= Z.of_nat (length (review_questions_of w config)) ->
   exists session, QuestionGenerator.generate w config count = Ok session).
Proof.
  intros Hsh Hc. split; [|apply generate_returns].
  intros session H.
  apply generate_ok in H as (pool & Hpool & ->).
  exists pool. split; [exact Hpool|].
  assert (Hlen : Z.of_nat (length (slice_to (padded (shuffle w pool) count) count))
                 = Z.min count (Z.of_nat (length pool) + 15)).
  { rewrite slice_to_length by exact Hc.
    unfold padded. rewrite (Permutation_length (Hsh _)).
    set (n := Z.of_nat (length pool)).
    destruct (n <? count) eqn:Hlt.
    - apply Z.ltb_lt in Hlt.
      rewrite length_app, Nat2Z.inj_add, slice_to_length,
        default_questions_length by lia.
      rewrite (Permutation_length (Hsh _)). fold n. clearbody n. lia.
    - apply Z.ltb_ge in Hlt.
      rewrite (Permutation_length (Hsh _)). fold n. clearbody n. lia. }
  split; [exact Hlen|]. rewrite Hlen. lia.
Qed.

Lemma generate_length_exact_witness :
  exists session pool,
    QuestionGenerator.generate world_offline sample_config 31 = Ok session /\
    session_pool world_offline sample_config 31 = Ok pool /\
    Z.of_nat (length session) = Z.min 31 (Z.of_nat (length pool) + 15).
Proof.
  destruct (generate_length_exact world_offline sample_config 31 shuffles_rev)
    as [Hlen Hret]; [lia|].
  destruct Hret as [session Hs]; [left; eexists; reflexivity|].
  destruct (Hlen session Hs) as (pool & Hpool & Hl & _).
  exists session, pool. auto.
Defined.
